(** * Lead-Management-Dashboard: the client-side access gate and config store

    A shallow embedding of
      - [src/lib/auth.ts]        (password hashing, session, lockout counter),
      - [src/lib/encryption.ts]  (XOR obfuscation over base64),
      - [src/lib/config.ts]      (the part of [saveConfig] that hashes and
                                  persists the admin password),
    together with the browser primitives they call ([TextEncoder], SHA-256,
    [btoa]/[atob], [parseInt], [Number.prototype.toString], [JSON.stringify]),
    followed by the properties of the gate; then, around them,
      - [src/lib/config.ts]      ([getConfig], with [JSON.parse], and the
                                  whole of [saveConfig]),
      - [src/lib/passwordValidation.ts],
      - [src/pages/Settings.tsx] ([validateField], [handleSave]),
      - [src/pages/Admin.tsx]    ([handleLogin], [normalizeStatus]),
      - [src/main.tsx]           ([applyRuntimeConfigOverride]),
      - [src/lib/leadSchema.ts],
    and what they show of the code, at the end.

    Conventions.
      - A JavaScript string is the list of its UTF-16 code units ([list N]).
      - A JavaScript number that holds an integer (timestamps, counters) is a
        [Z]: the values at hand are far below [2 ^ 53] and [10 ^ 21], where
        doubles and their decimal notation are exact.  [NaN], the only
        non-integer the gate can meet, is [None].
      - [sessionStorage] and [localStorage] are finite maps from keys to
        strings; [getItem] of an absent key is [None] (JavaScript [null]).
      - [Date.now()] and [crypto.getRandomValues] read from two oracles that
        are part of the world: every call consumes one reading.
      - An [async] function runs to its end before anything else does: the
        page keeps a single [authenticate] or [saveConfig] call in flight. *)

From Stdlib Require Import ZArith NArith List String Ascii Lia Bool Decimal.
From Stdlib Require Import DecimalPos DecimalN.
From stdpp Require Import base option gmap strings list.

Local Open Scope Z_scope.

(** ** JavaScript strings and numbers *)

Module JS.

Abbreviation jsstring := (list N).

(** A source literal, as the list of its code units. *)
Definition js (s : string) : jsstring :=
  List.map N_of_ascii (list_ascii_of_string s).

(** [!s] for a string: the empty string is the only falsy one. *)
Definition falsy (s : jsstring) : bool :=
  match s with [] => true | _ => false end.

(** [!x] for [getItem]'s result: [null] and the empty string are falsy. *)
Definition falsy_item (o : option jsstring) : bool :=
  match o with None => true | Some s => falsy s end.

(** [!x] for a [number | null]: [null] and [0] are falsy. *)
Definition truthy_num (o : option Z) : bool :=
  match o with None => false | Some z => negb (z =? 0) end.

(** Code-unit-wise equality of two strings ([===]). *)
Definition str_eqb (a b : jsstring) : bool := bool_decide (a = b).

(** *** Decimal digits *)

Fixpoint uint_digits (u : uint) : jsstring :=
  match u with
  | Nil => []
  | D0 u => 48%N :: uint_digits u
  | D1 u => 49%N :: uint_digits u
  | D2 u => 50%N :: uint_digits u
  | D3 u => 51%N :: uint_digits u
  | D4 u => 52%N :: uint_digits u
  | D5 u => 53%N :: uint_digits u
  | D6 u => 54%N :: uint_digits u
  | D7 u => 55%N :: uint_digits u
  | D8 u => 56%N :: uint_digits u
  | D9 u => 57%N :: uint_digits u
  end.

Definition is_digit (c : N) : bool := ((48 <=? c) && (c <=? 57))%N.

(** The longest prefix of decimal digits, and what follows it. *)
Fixpoint digits_uint (s : jsstring) : uint * jsstring :=
  match s with
  | [] => (Nil, [])
  | c :: s' =>
      if is_digit c then
        let '(u, rest) := digits_uint s' in
        ((match c with
          | 48 => D0 | 49 => D1 | 50 => D2 | 51 => D3 | 52 => D4
          | 53 => D5 | 54 => D6 | 55 => D7 | 56 => D8 | _ => D9
          end)%N u, rest)
      else (Nil, s)
  end.

(** [Number.prototype.toString()] on an integer: decimal digits, a leading
    minus sign for negatives. *)
Definition Number_toString (z : Z) : jsstring :=
  match z with
  | Z0 => uint_digits (N.to_uint 0)
  | Zpos p => uint_digits (N.to_uint (Npos p))
  | Zneg p => 45%N :: uint_digits (N.to_uint (Npos p))
  end.

(** White space and line terminators skipped by [parseInt] (ECMAScript
    [StrWhiteSpaceChar]). *)
Definition is_white_space (c : N) : bool :=
  ((c =? 9) || (c =? 10) || (c =? 11) || (c =? 12) || (c =? 13) || (c =? 32)
   || (c =? 160) || (c =? 5760) || ((8192 <=? c) && (c <=? 8202))
   || (c =? 8232) || (c =? 8233) || (c =? 8239) || (c =? 8287)
   || (c =? 12288) || (c =? 65279))%N.

Fixpoint trim_start (s : jsstring) : jsstring :=
  match s with
  | c :: s' => if is_white_space c then trim_start s' else s
  | [] => []
  end.

(** An optional sign in front of a number: [-], and [+] where [plus]
    allows it.  The answer tells whether the number is negated. *)
Definition read_sign (plus : bool) (s : jsstring) : bool * jsstring :=
  match s with
  | c :: r =>
      if (c =? 45)%N then (true, r)
      else if plus && (c =? 43)%N then (false, r)
      else (false, s)
  | [] => (false, [])
  end.

(** [parseInt(s, 10)]: skip leading white space, read an optional sign and
    the longest run of decimal digits; [None] is [NaN] (no digit found). *)
Definition parseInt10 (s : jsstring) : option Z :=
  let '(neg, body) := read_sign true (trim_start s) in
  match digits_uint body with
  | (Nil, _) => None
  | (u, _) => let m := Z.of_N (N.of_uint u) in Some (if neg then - m else m)
  end.

(** *** Hexadecimal digits *)

Definition hex_digit (n : N) : N :=
  (if n <? 10 then 48 + n else 87 + n)%N.

(** [b.toString(16).padStart(2, '0')] for a byte [b]. *)
Definition hex_byte (b : N) : jsstring :=
  [hex_digit (b / 16 mod 16); hex_digit (b mod 16)]%N.

(** [bytes.map(b => b.toString(16).padStart(2, '0')).join('')]. *)
Definition hex_of_bytes (bs : list N) : jsstring :=
  List.concat (List.map hex_byte bs).

(** [Math.ceil(a / b)] for integers [a] and [b > 0]. *)
Definition ceil_div (a b : Z) : Z := - ((- a) / b).

(** *** Exceptions *)

Inductive exn : Type :=
| InvalidCharacterError   (* DOMException of [btoa] and [atob] *)
| ValidationFailed.       (* the [Error] that [saveConfig] raises for a ZodError *)

Inductive result (A : Type) : Type :=
| Ok (a : A)
| Throw (e : exn).
Arguments Ok {A} a.
Arguments Throw {A} e.

End JS.
Export JS.

(** ** [TextEncoder.encode]: UTF-8 *)

Module UTF8.

Definition is_high_surrogate (c : N) : bool := ((0xD800 <=? c) && (c <=? 0xDBFF))%N.
Definition is_low_surrogate (c : N) : bool := ((0xDC00 <=? c) && (c <=? 0xDFFF))%N.

(** The scalar values of a string: a surrogate pair is one code point, a
    lone surrogate is replaced by U+FFFD (conversion to a [USVString]). *)
Fixpoint code_points (s : jsstring) : list N :=
  match s with
  | [] => []
  | c :: s' =>
      if is_high_surrogate c then
        match s' with
        | d :: s'' =>
            if is_low_surrogate d
            then (0x10000 + (c - 0xD800) * 0x400 + (d - 0xDC00))%N :: code_points s''
            else 0xFFFD%N :: code_points s'
        | [] => [0xFFFD%N]
        end
      else if is_low_surrogate c then 0xFFFD%N :: code_points s'
      else c :: code_points s'
  end.

Definition encode_code_point (cp : N) : list N :=
  (if cp <? 0x80 then [cp]
   else if cp <? 0x800 then [0xC0 + cp / 64; 0x80 + cp mod 64]
   else if cp <? 0x10000 then
     [0xE0 + cp / 4096; 0x80 + (cp / 64) mod 64; 0x80 + cp mod 64]
   else
     [0xF0 + (cp / 262144) mod 8; 0x80 + (cp / 4096) mod 64;
      0x80 + (cp / 64) mod 64; 0x80 + cp mod 64])%N.

(** [new TextEncoder().encode(s)]. *)
Definition TextEncoder_encode (s : jsstring) : list N :=
  List.concat (List.map encode_code_point (code_points s)).

End UTF8.

(** ** [crypto.subtle.digest('SHA-256', data)] (FIPS 180-4) *)

Module SHA256.

Local Open Scope N_scope.

Definition add32 (a b : N) : N := (a + b) mod 2 ^ 32.
Definition rotr (n x : N) : N :=
  N.lor (N.shiftr x n) ((N.shiftl x (32 - n)) mod 2 ^ 32).
Definition not32 (x : N) : N := N.lxor x 0xFFFFFFFF.

Definition Ch (x y z : N) : N := N.lxor (N.land x y) (N.land (not32 x) z).
Definition Maj (x y z : N) : N :=
  N.lxor (N.lxor (N.land x y) (N.land x z)) (N.land y z).
Definition Sigma0 (x : N) : N := N.lxor (N.lxor (rotr 2 x) (rotr 13 x)) (rotr 22 x).
Definition Sigma1 (x : N) : N := N.lxor (N.lxor (rotr 6 x) (rotr 11 x)) (rotr 25 x).
Definition sigma0 (x : N) : N := N.lxor (N.lxor (rotr 7 x) (rotr 18 x)) (N.shiftr x 3).
Definition sigma1 (x : N) : N := N.lxor (N.lxor (rotr 17 x) (rotr 19 x)) (N.shiftr x 10).

(** The largest [r] below [2 ^ b] with [r ^ 3 <= n], found bit by bit. *)
Fixpoint cube_root (b : nat) (n r : N) : N :=
  match b with
  | O => r
  | S b' =>
      let r' := r + 2 ^ N.of_nat b' in
      cube_root b' n (if r' * r' * r' <=? n then r' else r)
  end.

(** The first thirty-two bits of the fractional part of a cube root and
    of a square root. *)
Definition frac_cbrt (p : N) : N := cube_root 40 (p * 2 ^ 96) 0 mod 2 ^ 32.
Definition frac_sqrt (p : N) : N := N.sqrt (p * 2 ^ 64) mod 2 ^ 32.

(** The first sixty-four primes. *)
Definition primes : list N :=
  [2; 3; 5; 7; 11; 13; 17; 19; 23; 29; 31; 37; 41; 43; 47; 53; 59; 61; 67; 71;
   73; 79; 83; 89; 97; 101; 103; 107; 109; 113; 127; 131; 137; 139; 149; 151;
   157; 163; 167; 173; 179; 181; 191; 193; 197; 199; 211; 223; 227; 229; 233;
   239; 241; 251; 257; 263; 269; 271; 277; 281; 283; 293; 307; 311].

(** The round constants: the fractional parts of the cube roots of the
    primes (FIPS 180-4, section 4.2.2). *)
Definition K : list N := Eval vm_compute in List.map frac_cbrt primes.

(** The eight working variables / chaining values. *)
Record regs := Regs { ra : N; rb : N; rc : N; rd : N; re : N; rf : N; rg : N; rh : N }.

(** The initial hash value: the fractional parts of the square roots of
    the first eight primes (FIPS 180-4, section 5.3.3). *)
Definition H0 : regs :=
  Regs (frac_sqrt 2) (frac_sqrt 3) (frac_sqrt 5) (frac_sqrt 7)
       (frac_sqrt 11) (frac_sqrt 13) (frac_sqrt 17) (frac_sqrt 19).

(** Padding: a 1 bit, zeros up to 56 mod 64 bytes, the bit length on 64 bits. *)
Definition be_bytes (k : nat) (x : N) : list N :=
  List.map (fun i => (x / 2 ^ (8 * N.of_nat i)) mod 256) (List.rev (List.seq 0 k)).

Definition pad (msg : list N) : list N :=
  let len := N.of_nat (List.length msg) in
  let zeros := N.to_nat ((119 - len mod 64) mod 64) in
  msg ++ [0x80] ++ List.repeat 0 zeros ++ be_bytes 8 (8 * len).

Fixpoint chunks (n : nat) (k : nat) (l : list N) : list (list N) :=
  match n with
  | O => []
  | S n' => List.firstn k l :: chunks n' k (List.skipn k l)
  end.

Definition be_word (bs : list N) : N :=
  List.fold_left (fun acc b => acc * 256 + b) bs 0.

Definition block_words (block : list N) : list N :=
  List.map be_word (chunks 16 4 block).

(** The message schedule: [w] holds W_0 .. W_(t-1); [n] more words follow. *)
Fixpoint schedule (n : nat) (w : list N) : list N :=
  match n with
  | O => w
  | S n' =>
      let t := List.length w in
      let at_ i := List.nth (t - i) w 0 in
      schedule n' (w ++ [add32 (add32 (add32 (sigma1 (at_ 2%nat)) (at_ 7%nat))
                                      (sigma0 (at_ 15%nat))) (at_ 16%nat)])
  end.

Definition round (s : regs) (kw : N * N) : regs :=
  let t1 := add32 (add32 (add32 (add32 (rh s) (Sigma1 (re s)))
                                (Ch (re s) (rf s) (rg s))) (fst kw)) (snd kw) in
  let t2 := add32 (Sigma0 (ra s)) (Maj (ra s) (rb s) (rc s)) in
  Regs (add32 t1 t2) (ra s) (rb s) (rc s) (add32 (rd s) t1) (re s) (rf s) (rg s).

Definition compress (h : regs) (block : list N) : regs :=
  let w := schedule 48 (block_words block) in
  let s := List.fold_left round (List.combine K w) h in
  Regs (add32 (ra h) (ra s)) (add32 (rb h) (rb s)) (add32 (rc h) (rc s))
       (add32 (rd h) (rd s)) (add32 (re h) (re s)) (add32 (rf h) (rf s))
       (add32 (rg h) (rg s)) (add32 (rh h) (rh s)).

Definition regs_bytes (h : regs) : list N :=
  be_bytes 4 (ra h) ++ be_bytes 4 (rb h) ++ be_bytes 4 (rc h) ++ be_bytes 4 (rd h)
  ++ be_bytes 4 (re h) ++ be_bytes 4 (rf h) ++ be_bytes 4 (rg h) ++ be_bytes 4 (rh h).

(** The 32-byte digest of a byte string. *)
Definition sha256 (msg : list N) : list N :=
  let p := pad msg in
  regs_bytes (List.fold_left compress (chunks (List.length p / 64) 64 p) H0).

End SHA256.

(** ** [btoa] and [atob] *)

Module Base64.

Local Open Scope N_scope.

Definition b64_char (n : N) : N :=
  if n <? 26 then 65 + n
  else if n <? 52 then 71 + n
  else if n <? 62 then n - 4
  else if n =? 62 then 43 else 47.

Definition b64_value (c : N) : option N :=
  if (65 <=? c) && (c <=? 90) then Some (c - 65)
  else if (97 <=? c) && (c <=? 122) then Some (c - 71)
  else if (48 <=? c) && (c <=? 57) then Some (c + 4)
  else if c =? 43 then Some 62
  else if c =? 47 then Some 63
  else None.

(** Bytes to base64 text, three bytes at a time, [=] padding at the end. *)
Fixpoint encode (bs : list N) : jsstring :=
  match bs with
  | [] => []
  | [a] => [b64_char (a / 4); b64_char ((a mod 4) * 16); 61; 61]
  | [a; b] =>
      [b64_char (a / 4); b64_char ((a mod 4) * 16 + b / 16);
       b64_char ((b mod 16) * 4); 61]
  | a :: b :: c :: rest =>
      b64_char (a / 4) :: b64_char ((a mod 4) * 16 + b / 16)
      :: b64_char ((b mod 16) * 4 + c / 64) :: b64_char (c mod 64)
      :: encode rest
  end.

(** Six-bit values to bytes, four values at a time; the bits left over at
    the end (four after two values, two after three) are dropped. *)
Fixpoint decode (vs : list N) : list N :=
  match vs with
  | v1 :: v2 :: v3 :: v4 :: rest =>
      (v1 * 4 + v2 / 16) :: ((v2 mod 16) * 16 + v3 / 4)
      :: ((v3 mod 4) * 64 + v4) :: decode rest
  | [v1; v2; v3] => [v1 * 4 + v2 / 16; (v2 mod 16) * 16 + v3 / 4]
  | [v1; v2] => [v1 * 4 + v2 / 16]
  | _ => []
  end.

(** [btoa(s)]: raises when a code unit is above U+00FF. *)
Definition btoa (s : jsstring) : result jsstring :=
  if List.forallb (fun c => c <? 256) s then Ok (encode s)
  else Throw InvalidCharacterError.

Definition is_ascii_whitespace (c : N) : bool :=
  (c =? 9) || (c =? 10) || (c =? 12) || (c =? 13) || (c =? 32).

(** One or two trailing [=] are removed. *)
Definition strip_padding (s : jsstring) : jsstring :=
  match List.rev s with
  | c1 :: r =>
      if c1 =? 61 then
        match r with
        | c2 :: r' => if c2 =? 61 then List.rev r' else List.rev r
        | [] => []
        end
      else s
  | [] => s
  end.

Fixpoint values (s : jsstring) : option (list N) :=
  match s with
  | [] => Some []
  | c :: s' =>
      match b64_value c, values s' with
      | Some v, Some vs => Some (v :: vs)
      | _, _ => None
      end
  end.

(** [atob(s)] (the forgiving-base64 decode of the HTML standard): ASCII
    white space is ignored, padding is optional, anything else raises. *)
Definition atob (data : jsstring) : result jsstring :=
  let d := List.filter (fun c => negb (is_ascii_whitespace c)) data in
  let d := if (N.of_nat (List.length d)) mod 4 =? 0 then strip_padding d else d in
  if (N.of_nat (List.length d)) mod 4 =? 1 then Throw InvalidCharacterError
  else match values d with
       | Some vs => Ok (decode vs)
       | None => Throw InvalidCharacterError
       end.

End Base64.

(** ** [src/lib/encryption.ts] *)

Module Encryption.

Definition ENCRYPTION_KEY : jsstring := js "lead-hub-2024-key".

(** [s.charCodeAt(i)] for an index inside the string. *)
Definition charCodeAt (s : jsstring) (i : nat) : N := List.nth i s 0%N.

(** The loop shared by [simpleObfuscate] and [simpleDeobfuscate], started
    at index [i]:
      [result += String.fromCharCode(char ^ keyChar)]. *)
Fixpoint xor_loop (i : nat) (text : jsstring) : jsstring :=
  match text with
  | [] => []
  | char :: rest =>
      let keyChar := charCodeAt ENCRYPTION_KEY (i mod List.length ENCRYPTION_KEY) in
      N.lxor char keyChar :: xor_loop (S i) rest
  end.

Definition simpleObfuscate (text : jsstring) : result jsstring :=
  Base64.btoa (xor_loop 0 text).

Definition simpleDeobfuscate (obfuscated : jsstring) : jsstring :=
  match Base64.atob obfuscated with
  | Ok decoded => xor_loop 0 decoded
  | Throw _ => []
  end.

Definition encryptForStorage (data : jsstring) : result jsstring :=
  if falsy data then Ok [] else simpleObfuscate data.

Definition decryptFromStorage (encrypted : jsstring) : jsstring :=
  if falsy encrypted then [] else simpleDeobfuscate encrypted.

End Encryption.

(** ** The browser: storage buckets, clock and entropy *)

Module Browser.

(** [clock] lists the values of the successive [Date.now()] calls and
    [ticks] counts the calls made so far; [entropy] and [drawn] do the same
    for the bytes of [crypto.getRandomValues]. *)
Record World : Type := mkWorld {
  sessionStorage : gmap string jsstring;
  localStorage : gmap string jsstring;
  clock : nat -> Z;
  ticks : nat;
  entropy : nat -> N;
  drawn : nat;
}.

(** The value the next [Date.now()] returns. *)
Definition now (w : World) : Z := clock w (ticks w).

(** A computation that reads and updates the world. *)
Definition M (A : Type) : Type := World -> A * World.

Definition ret {A} (a : A) : M A := fun w => (a, w).
Definition bind {A B} (m : M A) (k : A -> M B) : M B :=
  fun w => let '(a, w') := m w in k a w'.

Declare Scope gate_scope.
Delimit Scope gate_scope with gate.
Notation "x <- m ;; k" := (bind m (fun x => k))
  (at level 100, m at next level, right associativity) : gate_scope.
Notation "m ;;; k" := (bind m (fun _ => k))
  (at level 100, right associativity) : gate_scope.

Definition with_session (f : gmap string jsstring -> gmap string jsstring)
    (w : World) : World :=
  mkWorld (f (sessionStorage w)) (localStorage w)
          (clock w) (ticks w) (entropy w) (drawn w).

Definition with_local (f : gmap string jsstring -> gmap string jsstring)
    (w : World) : World :=
  mkWorld (sessionStorage w) (f (localStorage w))
          (clock w) (ticks w) (entropy w) (drawn w).

Definition Date_now : M Z :=
  fun w => (clock w (ticks w),
            mkWorld (sessionStorage w) (localStorage w)
                    (clock w) (S (ticks w)) (entropy w) (drawn w)).

(** [crypto.getRandomValues(new Uint8Array(n))]. *)
Definition getRandomValues (n : nat) : M (list N) :=
  fun w => (List.map (fun i => (entropy w (drawn w + i)%nat mod 256)%N) (List.seq 0 n),
            mkWorld (sessionStorage w) (localStorage w)
                    (clock w) (ticks w) (entropy w) (drawn w + n)%nat).

Definition sessionStorage_getItem (k : string) : M (option jsstring) :=
  fun w => (sessionStorage w !! k, w).
Definition sessionStorage_setItem (k : string) (v : jsstring) : M unit :=
  fun w => (tt, with_session (insert k v) w).
Definition sessionStorage_removeItem (k : string) : M unit :=
  fun w => (tt, with_session (delete k) w).

Definition localStorage_getItem (k : string) : M (option jsstring) :=
  fun w => (localStorage w !! k, w).
Definition localStorage_setItem (k : string) (v : jsstring) : M unit :=
  fun w => (tt, with_local (insert k v) w).
Definition localStorage_removeItem (k : string) : M unit :=
  fun w => (tt, with_local (delete k) w).

End Browser.
Export Browser.
Local Open Scope gate_scope.

(** ** [src/lib/auth.ts] *)

Module Auth.

Definition SESSION_DURATION : Z := 30 * 60 * 1000.
Definition MAX_LOGIN_ATTEMPTS : Z := 5.
Definition LOCKOUT_DURATION : Z := 15 * 60 * 1000.

Record LoginAttempt : Type := mkLoginAttempt {
  count : Z;
  lockoutUntil : option Z;
}.

(** *** [JSON.stringify] and [JSON.parse] on a [LoginAttempt]

    [JSON_stringify] is [JSON.stringify] on an object with the two
    properties in the order the gate creates them.  [JSON_parse] is
    [JSON.parse] restricted to the texts [JSON_stringify] produces: it
    answers [None] (the [catch] branch of [getLoginAttempts]) on every
    other text.  The gate is the only writer of the entry, and it only
    writes such texts (lemma [run_entry_readable] below). *)

Definition quoted (s : string) : jsstring := 34%N :: js s ++ [34%N].

(** The text before each of the two property values. *)
Definition before_count : jsstring := js "{" ++ quoted "count" ++ js ":".
Definition before_lockoutUntil : jsstring :=
  js "," ++ quoted "lockoutUntil" ++ js ":".

Definition JSON_stringify (a : LoginAttempt) : jsstring :=
  before_count ++ Number_toString (count a)
  ++ before_lockoutUntil
  ++ match lockoutUntil a with
     | None => js "null"
     | Some t => Number_toString t
     end
  ++ js "}".

Fixpoint strip_prefix (p s : jsstring) : option jsstring :=
  match p, s with
  | [], _ => Some s
  | a :: p', b :: s' => if (a =? b)%N then strip_prefix p' s' else None
  | _ :: _, [] => None
  end.

(** A JSON integer: an optional minus sign, digits, no superfluous
    leading zero. *)
Definition parse_int (s : jsstring) : option (Z * jsstring) :=
  let '(neg, body) := read_sign false s in
  match digits_uint body with
  | (Nil, _) => None
  | (D0 Nil, rest) => Some (0, rest)
  | (D0 _, _) => None
  | (u, rest) =>
      let m := Z.of_N (N.of_uint u) in Some (if neg then - m else m, rest)
  end.

Definition JSON_parse (s : jsstring) : option LoginAttempt :=
  s1 ← strip_prefix before_count s;
  '(c, s2) ← parse_int s1;
  s3 ← strip_prefix before_lockoutUntil s2;
  match strip_prefix (js "null") s3 with
  | Some s4 =>
      match s4 with
      | [125%N] => Some (mkLoginAttempt c None)
      | _ => None
      end
  | None =>
      '(t, s4) ← parse_int s3;
      match s4 with
      | [125%N] => Some (mkLoginAttempt c (Some t))
      | _ => None
      end
  end.

(** *** Passwords *)

Definition hashPassword (password : jsstring) : jsstring :=
  let data := UTF8.TextEncoder_encode password in
  let hashArray := SHA256.sha256 data in
  hex_of_bytes hashArray.

Definition verifyPassword (password storedHash : jsstring) : bool :=
  if falsy password || falsy storedHash then false
  else let passwordHash := hashPassword password in
       str_eqb passwordHash storedHash.

(** *** Session *)

Definition generateSessionToken : M jsstring :=
  array <- getRandomValues 32 ;;
  ret (hex_of_bytes array).

(** [a > b] where [a] may be [NaN]. *)
Definition num_gt (a : option Z) (b : Z) : bool :=
  match a with Some x => b <? x | None => false end.

Definition isSessionValid : M bool :=
  token <- sessionStorage_getItem "adminAuth" ;;
  authTime <- sessionStorage_getItem "adminAuthTime" ;;
  if falsy_item token || falsy_item authTime then ret false
  else
    t <- Date_now ;;
    let elapsed := (fun issued => t - issued) <$> parseInt10 (default [] authTime) in
    if num_gt elapsed SESSION_DURATION then
      sessionStorage_removeItem "adminAuth" ;;;
      sessionStorage_removeItem "adminAuthTime" ;;;
      ret false
    else ret true.

Definition clearSession : M unit :=
  sessionStorage_removeItem "adminAuth" ;;;
  sessionStorage_removeItem "adminAuthTime".

(** *** Attempt counter *)

Definition no_attempts : LoginAttempt := mkLoginAttempt 0 None.

Definition getLoginAttempts : M LoginAttempt :=
  stored <- sessionStorage_getItem "loginAttempts" ;;
  if falsy_item stored then ret no_attempts
  else match JSON_parse (default [] stored) with
       | Some a => ret a
       | None => ret no_attempts
       end.

Definition recordFailedAttempt : M LoginAttempt :=
  attempts <- getLoginAttempts ;;
  let attempts := mkLoginAttempt (count attempts + 1) (lockoutUntil attempts) in
  attempts <- (if MAX_LOGIN_ATTEMPTS <=? count attempts then
                 t <- Date_now ;;
                 ret (mkLoginAttempt (count attempts) (Some (t + LOCKOUT_DURATION)))
               else ret attempts) ;;
  sessionStorage_setItem "loginAttempts" (JSON_stringify attempts) ;;;
  ret attempts.

Definition clearLoginAttempts : M unit :=
  sessionStorage_removeItem "loginAttempts".

(** [attempts.lockoutUntil && cmp(Date.now(), attempts.lockoutUntil)]: the
    clock is read only when [lockoutUntil] is truthy. *)
Definition lockout_and (a : LoginAttempt) (cmp : Z -> Z -> bool) : M bool :=
  if truthy_num (lockoutUntil a) then
    t <- Date_now ;; ret (cmp t (default 0 (lockoutUntil a)))
  else ret false.

Definition isLockedOut : M bool :=
  attempts <- getLoginAttempts ;;
  locked <- lockout_and attempts Z.ltb ;;
  if locked then ret true
  else
    expired <- lockout_and attempts Z.geb ;;
    (if expired then clearLoginAttempts else ret tt) ;;;
    ret false.

Definition getLockoutRemaining : M Z :=
  attempts <- getLoginAttempts ;;
  if truthy_num (lockoutUntil attempts) then
    t <- Date_now ;;
    let remaining := default 0 (lockoutUntil attempts) - t in
    ret (Z.max 0 (ceil_div remaining 1000))
  else ret 0.

(** *** Authentication *)

Record AuthResult : Type := mkAuthResult {
  success : bool;
  error : option jsstring;
  lockoutRemaining : option Z;
}.

Definition authenticate (password storedPasswordHash : jsstring) : M AuthResult :=
  locked <- isLockedOut ;;
  if locked then
    remaining <- getLockoutRemaining ;;
    ret (mkAuthResult false
           (Some (js "Account locked. Try again in "
                  ++ Number_toString (ceil_div remaining 60) ++ js " minutes."))
           (Some remaining))
  else
    let isValid := verifyPassword password storedPasswordHash in
    if isValid then
      clearLoginAttempts ;;;
      token <- generateSessionToken ;;
      sessionStorage_setItem "adminAuth" token ;;;
      t <- Date_now ;;
      sessionStorage_setItem "adminAuthTime" (Number_toString t) ;;;
      ret (mkAuthResult true None None)
    else
      attempts <- recordFailedAttempt ;;
      let remainingAttempts := MAX_LOGIN_ATTEMPTS - count attempts in
      if truthy_num (lockoutUntil attempts) then
        remaining <- getLockoutRemaining ;;
        ret (mkAuthResult false
               (Some (js "Too many failed attempts. Account locked for "
                      ++ Number_toString (ceil_div remaining 60) ++ js " minutes."))
               (Some remaining))
      else
        ret (mkAuthResult false
               (Some (js "Incorrect password. " ++ Number_toString remainingAttempts
                      ++ js " attempt"
                      ++ (if remainingAttempts =? 1 then js "" else js "s")
                      ++ js " remaining."))
               None).

End Auth.

(** ** [src/lib/config.ts] and [src/lib/configSchema.ts] *)

Module Config.

Import Auth Encryption.

Record AppConfig : Type := mkAppConfig {
  submitWebhookUrl : jsstring;
  readWebhookUrl : jsstring;
  adminPassword : jsstring;
}.

(** [Partial<AppConfig>]: [None] is a property that is not there. *)
Record PartialAppConfig : Type := mkPartial {
  submitWebhookUrl' : option jsstring;
  readWebhookUrl' : option jsstring;
  adminPassword' : option jsstring;
}.

Definition STORAGE_KEY : string := "leadProcessorConfig".
Definition ENCRYPTED_KEY : string := "leadProcessorConfigEnc".

Definition DEFAULT_CONFIG : AppConfig :=
  mkAppConfig (js "https://ae485a6b2636.ngrok-free.app/webhook/submit-lead")
              (js "https://ae485a6b2636.ngrok-free.app/webhook/list-leads")
              (js "").

(** [{ ...current, ...config }]. *)
Definition spread (current : AppConfig) (config : PartialAppConfig) : AppConfig :=
  mkAppConfig (default (submitWebhookUrl current) (submitWebhookUrl' config))
              (default (readWebhookUrl current) (readWebhookUrl' config))
              (default (adminPassword current) (adminPassword' config)).

Definition is_hex (c : N) : bool :=
  (((48 <=? c) && (c <=? 57)) || ((97 <=? c) && (c <=? 102))
   || ((65 <=? c) && (c <=? 70)))%N.

(** [/^[a-f0-9]{64}$/i.test(s)]. *)
Definition isAlreadyHashed (s : jsstring) : bool :=
  (List.length s =? 64)%nat && List.forallb is_hex s.

(** *** [JSON.stringify] on an [AppConfig] *)

Definition hex4 (c : N) : jsstring :=
  [hex_digit (c / 4096 mod 16); hex_digit (c / 256 mod 16);
   hex_digit (c / 16 mod 16); hex_digit (c mod 16)]%N.

Definition unicode_escape (c : N) : jsstring := js "\u" ++ hex4 c.

Definition escape_unit (c : N) : jsstring :=
  match c with
  | 8%N => js "\b"
  | 9%N => js "\t"
  | 10%N => js "\n"
  | 12%N => js "\f"
  | 13%N => js "\r"
  | 34%N => [92%N; 34%N]
  | 92%N => [92%N; 92%N]
  | _ => if (c <? 32)%N then unicode_escape c else [c]
  end.

(** The body of a JSON string literal ([QuoteJSONString]): control
    characters, the quote and the backslash are escaped, and so is a
    surrogate that is not part of a pair. *)
Fixpoint quote_body (s : jsstring) : jsstring :=
  match s with
  | [] => []
  | c :: s' =>
      if UTF8.is_high_surrogate c then
        match s' with
        | d :: s'' =>
            if UTF8.is_low_surrogate d then c :: d :: quote_body s''
            else unicode_escape c ++ quote_body s'
        | [] => unicode_escape c
        end
      else if UTF8.is_low_surrogate c then unicode_escape c ++ quote_body s'
      else escape_unit c ++ quote_body s'
  end.

Definition quote (s : jsstring) : jsstring := 34%N :: quote_body s ++ [34%N].

Definition JSON_stringify (c : AppConfig) : jsstring :=
  js "{" ++ quoted "submitWebhookUrl" ++ js ":" ++ quote (submitWebhookUrl c)
  ++ js "," ++ quoted "readWebhookUrl" ++ js ":" ++ quote (readWebhookUrl c)
  ++ js "," ++ quoted "adminPassword" ++ js ":" ++ quote (adminPassword c)
  ++ js "}".

Section Schema.

(** Whether [webhookUrlSchema] accepts a string: zod's [url()] check and
    the two refinements over the browser's [URL] parser. *)
Variable webhookUrlSchema : jsstring -> bool.

(** [configSchema.parse(c)]: [None] is a thrown [ZodError]. *)
Definition configSchema_parse (c : AppConfig) : option AppConfig :=
  let url_ok u := webhookUrlSchema u || falsy u in
  if url_ok (submitWebhookUrl c) && url_ok (readWebhookUrl c)
     && (8 <=? List.length (adminPassword c))%nat
     && (List.length (adminPassword c) <=? 128)%nat
  then Some c else None.

(** [saveConfig(config)], from the value [current] that its first
    statement [getConfig()] returned.  [getConfig] itself, which reads the
    bucket through [JSON.parse] and calls back into [saveConfig] to migrate
    a legacy entry, is not embedded here but in [ConfigStore]: what is
    stated of this [saveConfig] holds for every [current] and every world
    [getConfig] may leave.  A [Throw] is the rejection of the promise. *)
Definition saveConfig (current : AppConfig) (config : PartialAppConfig)
    : M (result unit) :=
  let merged := spread current config in
  let merged :=
    if negb (falsy (adminPassword merged))
       && negb (str_eqb (adminPassword merged) (adminPassword current))
    then
      if negb (isAlreadyHashed (adminPassword merged)) then
        mkAppConfig (submitWebhookUrl merged) (readWebhookUrl merged)
                    (hashPassword (adminPassword merged))
      else merged
    else merged in
  match configSchema_parse merged with
  | None => ret (Throw ValidationFailed)
  | Some validated =>
      let toEncrypt := JSON_stringify validated in
      match encryptForStorage toEncrypt with
      | Throw e => ret (Throw e)
      | Ok encrypted =>
          localStorage_setItem ENCRYPTED_KEY encrypted ;;;
          localStorage_removeItem STORAGE_KEY ;;;
          ret (Ok tt)
      end
  end.

End Schema.

End Config.

(** ** [JSON.parse] *)

Module JSON.

Local Open Scope N_scope.

(** A parsed value.  Nothing in the store looks inside a number, which is
    kept as the text that denotes it.  The members of an object are listed
    in the order of the text, duplicates included. *)
#[warnings="-register-all"] Inductive json : Type :=
| JNull
| JBool (b : bool)
| JNumber (lexeme : jsstring)
| JString (s : jsstring)
| JArray (items : list json)
| JObject (members : list (jsstring * json)).

(** *** Tokens *)

Inductive token : Type :=
| TLBrace | TRBrace | TLBracket | TRBracket | TColon | TComma
| TScalar (v : json).     (* [null], [true], [false], a number, a string *)

(** Where the scanner stands inside a number. *)
Inductive num_phase : Type :=
| NMinus        (* after the sign *)
| NZero         (* after a leading [0] *)
| NInt          (* in the digits of the integer part *)
| NDot          (* after the decimal point *)
| NFrac         (* in the digits of the fraction *)
| NExp          (* after [e] or [E] *)
| NExpSign      (* after the sign of the exponent *)
| NExpDigits.   (* in the digits of the exponent *)

Inductive lex_state : Type :=
| LStart                                    (* between two tokens *)
| LLiteral (rest : jsstring) (v : json)     (* [rest] is still to come of a literal name *)
| LString (acc : jsstring)                  (* in a string; [acc] is reversed *)
| LEscape (acc : jsstring)                  (* after a backslash *)
| LUnicode (acc : jsstring) (k : nat) (v : N)   (* in [\uXXXX], [k] digits to come *)
| LNumber (ph : num_phase) (acc : jsstring).

Definition is_json_space (c : N) : bool :=
  (c =? 9) || (c =? 10) || (c =? 13) || (c =? 32).

Definition is_exp_mark (c : N) : bool := (c =? 101) || (c =? 69).

Definition num_step (ph : num_phase) (c : N) : option num_phase :=
  match ph with
  | NMinus => if c =? 48 then Some NZero else if is_digit c then Some NInt else None
  | NZero =>
      if c =? 46 then Some NDot else if is_exp_mark c then Some NExp else None
  | NInt =>
      if is_digit c then Some NInt
      else if c =? 46 then Some NDot else if is_exp_mark c then Some NExp else None
  | NDot => if is_digit c then Some NFrac else None
  | NFrac =>
      if is_digit c then Some NFrac else if is_exp_mark c then Some NExp else None
  | NExp =>
      if (c =? 43) || (c =? 45) then Some NExpSign
      else if is_digit c then Some NExpDigits else None
  | NExpSign => if is_digit c then Some NExpDigits else None
  | NExpDigits => if is_digit c then Some NExpDigits else None
  end.

(** The phases in which the number read so far is complete. *)
Definition num_final (ph : num_phase) : bool :=
  match ph with
  | NZero | NInt | NFrac | NExpDigits => true
  | NMinus | NDot | NExp | NExpSign => false
  end.

(** The character a one-letter escape stands for. *)
Definition escape_char (c : N) : option N :=
  if c =? 34 then Some 34
  else if c =? 92 then Some 92
  else if c =? 47 then Some 47
  else if c =? 98 then Some 8
  else if c =? 102 then Some 12
  else if c =? 110 then Some 10
  else if c =? 114 then Some 13
  else if c =? 116 then Some 9
  else None.

Definition hex_value (c : N) : option N :=
  if is_digit c then Some (c - 48)
  else if (97 <=? c) && (c <=? 102) then Some (c - 87)
  else if (65 <=? c) && (c <=? 70) then Some (c - 55)
  else None.

(** One character between two tokens. *)
Definition start_step (c : N) : option (list token * lex_state) :=
  if is_json_space c then Some ([], LStart)
  else if c =? 123 then Some ([TLBrace], LStart)
  else if c =? 125 then Some ([TRBrace], LStart)
  else if c =? 91 then Some ([TLBracket], LStart)
  else if c =? 93 then Some ([TRBracket], LStart)
  else if c =? 58 then Some ([TColon], LStart)
  else if c =? 44 then Some ([TComma], LStart)
  else if c =? 34 then Some ([], LString [])
  else if c =? 116 then Some ([], LLiteral (js "rue") (JBool true))
  else if c =? 102 then Some ([], LLiteral (js "alse") (JBool false))
  else if c =? 110 then Some ([], LLiteral (js "ull") JNull)
  else if c =? 45 then Some ([], LNumber NMinus [c])
  else if c =? 48 then Some ([], LNumber NZero [c])
  else if is_digit c then Some ([], LNumber NInt [c])
  else None.

(** One character: the tokens it completes and the next state; [None] is
    a [SyntaxError]. *)
Definition step (st : lex_state) (c : N) : option (list token * lex_state) :=
  match st with
  | LStart => start_step c
  | LLiteral rest v =>
      match rest with
      | c' :: rest' =>
          if c =? c' then
            match rest' with
            | [] => Some ([TScalar v], LStart)
            | _ :: _ => Some ([], LLiteral rest' v)
            end
          else None
      | [] => None
      end
  | LString acc =>
      if c =? 34 then Some ([TScalar (JString (List.rev acc))], LStart)
      else if c =? 92 then Some ([], LEscape acc)
      else if c <? 32 then None
      else Some ([], LString (c :: acc))
  | LEscape acc =>
      if c =? 117 then Some ([], LUnicode acc 4 0)
      else match escape_char c with
           | Some x => Some ([], LString (x :: acc))
           | None => None
           end
  | LUnicode acc k v =>
      match hex_value c, k with
      | Some d, 1%nat => Some ([], LString ((v * 16 + d) :: acc))
      | Some d, S k' => Some ([], LUnicode acc k' (v * 16 + d))
      | _, _ => None
      end
  | LNumber ph acc =>
      match num_step ph c with
      | Some ph' => Some ([], LNumber ph' (c :: acc))
      | None =>
          if num_final ph then
            match start_step c with
            | Some (ts, st') => Some (TScalar (JNumber (List.rev acc)) :: ts, st')
            | None => None
            end
          else None
      end
  end.

(** The tokens of a text. *)
Fixpoint lex (st : lex_state) (s : jsstring) : option (list token) :=
  match s with
  | [] =>
      match st with
      | LStart => Some []
      | LNumber ph acc =>
          if num_final ph then Some [TScalar (JNumber (List.rev acc))] else None
      | _ => None
      end
  | c :: s' =>
      match step st c with
      | Some (ts, st') =>
          match lex st' s' with
          | Some ts' => Some (ts ++ ts')
          | None => None
          end
      | None => None
      end
  end.

(** *** Values *)

(** An array or object that is still open: what it holds so far, in
    reverse, and for an object the key whose value is awaited. *)
Inductive frame : Type :=
| FArray (items : list json)
| FObject (members : list (jsstring * json)) (key : option jsstring).

(** What the parser expects next. *)
Inductive mode : Type :=
| Value         (* a value *)
| FirstItem     (* after [[]: a value or []] *)
| FirstKey      (* after [{]: a key or [}] *)
| Key           (* after a comma in an object: a key *)
| Colon         (* after a key *)
| After         (* after a value in an array or object: a comma or the end of it *)
| Done (v : json).   (* nothing: the value of the text is complete *)

(** A complete value goes into the array or object around it. *)
Definition deliver (v : json) (stack : list frame) : option (mode * list frame) :=
  match stack with
  | [] => Some (Done v, [])
  | FArray items :: stack' => Some (After, FArray (v :: items) :: stack')
  | FObject members (Some k) :: stack' =>
      Some (After, FObject ((k, v) :: members) None :: stack')
  | FObject _ None :: _ => None
  end.

Definition begin_value (t : token) (stack : list frame) : option (mode * list frame) :=
  match t with
  | TScalar v => deliver v stack
  | TLBracket => Some (FirstItem, FArray [] :: stack)
  | TLBrace => Some (FirstKey, FObject [] None :: stack)
  | _ => None
  end.

Definition close_array (stack : list frame) : option (mode * list frame) :=
  match stack with
  | FArray items :: stack' => deliver (JArray (List.rev items)) stack'
  | _ => None
  end.

Definition close_object (stack : list frame) : option (mode * list frame) :=
  match stack with
  | FObject members None :: stack' => deliver (JObject (List.rev members)) stack'
  | _ => None
  end.

Definition read_key (t : token) (stack : list frame) : option (mode * list frame) :=
  match t, stack with
  | TScalar (JString k), FObject members None :: stack' =>
      Some (Colon, FObject members (Some k) :: stack')
  | _, _ => None
  end.

Definition parse_step (m : mode) (stack : list frame) (t : token)
    : option (mode * list frame) :=
  match m with
  | Value => begin_value t stack
  | FirstItem =>
      match t with TRBracket => close_array stack | _ => begin_value t stack end
  | FirstKey =>
      match t with TRBrace => close_object stack | _ => read_key t stack end
  | Key => read_key t stack
  | Colon => match t with TColon => Some (Value, stack) | _ => None end
  | After =>
      match t, stack with
      | TComma, FArray _ :: _ => Some (Value, stack)
      | TComma, FObject _ _ :: _ => Some (Key, stack)
      | TRBracket, _ => close_array stack
      | TRBrace, _ => close_object stack
      | _, _ => None
      end
  | Done _ => None
  end.

Fixpoint parse_tokens (m : mode) (stack : list frame) (ts : list token) : option json :=
  match ts with
  | [] => match m with Done v => Some v | _ => None end
  | t :: ts' =>
      match parse_step m stack t with
      | Some (m', stack') => parse_tokens m' stack' ts'
      | None => None
      end
  end.

(** [JSON.parse(text)]; [None] is a thrown [SyntaxError]. *)
Definition parse (text : jsstring) : option json :=
  match lex LStart text with
  | Some ts => parse_tokens Value [] ts
  | None => None
  end.

(** The property [key] of a parsed object: of two members with one key
    the later one stays. *)
Fixpoint member (key : jsstring) (members : list (jsstring * json)) : option json :=
  match members with
  | [] => None
  | (k, v) :: rest =>
      match member key rest with
      | Some v' => Some v'
      | None => if str_eqb k key then Some v else None
      end
  end.

(** [value[key]] for a parsed [value] and a [key] that is no index and no
    built-in property: [undefined] ([None]) unless [value] is an object
    with that member. *)
Definition get (value : json) (key : string) : option json :=
  match value with
  | JObject members => member (js key) members
  | _ => None
  end.

End JSON.

(** ** [src/lib/config.ts]: reading the store *)

Module ConfigStore.

Import Auth Encryption Config.

Section Store.

Variable webhookUrlSchema : jsstring -> bool.

(** The migration of a legacy entry that parses and validates: the call
    [saveConfig(config).catch(...)] and the [return config] after it, in
    the second [try] of [getConfig].  [saveConfig] begins with
    [getConfig()], which finds the same legacy entry and calls [saveConfig]
    again, and so on until the call stack is exhausted; where that happens
    decides what is stored and what is returned.  The step is left open:
    what is stated of [getConfig] holds whatever it does. *)
Variable migrate : AppConfig -> M AppConfig.

(** The property [key] of [{ ...DEFAULT_CONFIG, ...parsed }], where
    [dflt] is its value in [DEFAULT_CONFIG]. *)
Definition merged_property (parsed : JSON.json) (key : string) (dflt : jsstring)
    : JSON.json :=
  default (JSON.JString dflt) (JSON.get parsed key).

(** [configSchema.parse({ ...DEFAULT_CONFIG, ...parsed })]: the three
    properties must be strings that pass the schema; other properties are
    dropped.  [None] is a thrown [ZodError]. *)
Definition parse_with_defaults (parsed : JSON.json) : option AppConfig :=
  match merged_property parsed "submitWebhookUrl" (submitWebhookUrl DEFAULT_CONFIG),
        merged_property parsed "readWebhookUrl" (readWebhookUrl DEFAULT_CONFIG),
        merged_property parsed "adminPassword" (adminPassword DEFAULT_CONFIG) with
  | JSON.JString s, JSON.JString r, JSON.JString p =>
      configSchema_parse webhookUrlSchema (mkAppConfig s r p)
  | _, _, _ => None
  end.

(** The body of each [try] block of [getConfig]: [JSON.parse], then the
    schema; [None] when one of them raises. *)
Definition read (text : jsstring) : option AppConfig :=
  match JSON.parse text with
  | Some parsed => parse_with_defaults parsed
  | None => None
  end.

Definition getConfig : M AppConfig :=
  encrypted <- localStorage_getItem ENCRYPTED_KEY ;;
  match (if falsy_item encrypted then None
         else read (decryptFromStorage (default [] encrypted))) with
  | Some validated => ret validated
  | None =>
      stored <- localStorage_getItem STORAGE_KEY ;;
      if falsy_item stored then ret DEFAULT_CONFIG
      else match read (default [] stored) with
           | Some config => migrate config
           | None => ret DEFAULT_CONFIG
           end
  end.

(** [saveConfig(config)], its first statement included. *)
Definition saveConfig (config : PartialAppConfig) : M (result unit) :=
  current <- getConfig ;;
  Config.saveConfig webhookUrlSchema current config.

Definition isConfigured : M bool :=
  config <- getConfig ;;
  ret (negb (falsy (submitWebhookUrl config))).

End Store.

End ConfigStore.

(** ** [src/lib/passwordValidation.ts] *)

Module PasswordValidation.

Record PasswordStrength : Type := mkPasswordStrength {
  score : Z;
  feedback : list jsstring;
  isValid : bool;
}.

Definition is_lower (c : N) : bool := ((97 <=? c) && (c <=? 122))%N.
Definition is_upper (c : N) : bool := ((65 <=? c) && (c <=? 90))%N.

(** [/[a-z]/.test(s)] and the like: some code unit is in the class. *)
Definition has_lower (s : jsstring) : bool := List.existsb is_lower s.
Definition has_upper (s : jsstring) : bool := List.existsb is_upper s.
Definition has_digit (s : jsstring) : bool := List.existsb is_digit s.
Definition has_special (s : jsstring) : bool :=
  List.existsb (fun c => negb (is_lower c || is_upper c || is_digit c)) s.

(** One [if (test) score++; else feedback.push(message)] statement. *)
Definition check (test : bool) (message : string) (st : Z * list jsstring)
    : Z * list jsstring :=
  if test then (fst st + 1, snd st) else (fst st, snd st ++ [js message]).

Definition validatePasswordStrength (password : jsstring) : PasswordStrength :=
  let length := Z.of_nat (List.length password) in
  let st := (0, []) in
  let st := check (8 <=? length) "At least 8 characters" st in
  let st :=
    if 12 <=? length then (fst st + 1, snd st)
    else if length <? 8
         then (fst st, snd st ++ [js "Consider 12+ characters for better security"])
         else st in
  let st := check (has_lower password && has_upper password)
                  "Mix of uppercase and lowercase letters" st in
  let st := check (has_digit password) "Include numbers" st in
  let st := check (has_special password) "Include special characters" st in
  let '(score, feedback) := st in
  mkPasswordStrength score
    (if (0 <? List.length feedback)%nat then feedback else [js "Strong password"])
    ((3 <=? score) && (8 <=? length)).

End PasswordValidation.

(** ** [src/pages/Settings.tsx]: saving *)

Module Settings.

Import Config PasswordValidation.

(** [keyof AppConfig]. *)
Inductive Field : Type := submitWebhookUrl_ | readWebhookUrl_ | adminPassword_.

(** The answer of [validateField].  The calls of [setPasswordStrength]
    and [setErrors] on its way change what the page shows, not the two
    buckets, and are left out. *)
Definition validateField (field : Field) (value : jsstring) : bool :=
  match field with
  | adminPassword_ =>
      let strength := validatePasswordStrength value in
      if falsy value then true
      else if negb (isValid strength) then false
      else true
  | _ => true
  end.

(** How a click on Save ends. *)
Inductive Saving : Type :=
| NotSaved                 (* the password was refused: [saveConfig] is not called *)
| Saved                    (* [saveConfig] resolved *)
| SaveFailed (e : exn).    (* [saveConfig] rejected; the message is shown *)

Section Page.

Variable webhookUrlSchema : jsstring -> bool.
Variable migrate : AppConfig -> M AppConfig.

(** [handleSave], for the value [config] of the form: what it does to
    the store and how it ends ([setSaved], [setErrors] and the like only
    show the end). *)
Definition handleSave (config : AppConfig) : M Saving :=
  currentConfig <- ConfigStore.getConfig webhookUrlSchema migrate ;;
  let isPasswordHashed := isAlreadyHashed (adminPassword currentConfig) in
  let passwordValid :=
    if falsy (adminPassword config) && isPasswordHashed then true
    else validateField adminPassword_ (adminPassword config) in
  if negb passwordValid then ret NotSaved
  else
    let configToSave :=
      if falsy (adminPassword config) && isPasswordHashed
      then mkAppConfig (submitWebhookUrl config) (readWebhookUrl config)
                       (adminPassword currentConfig)
      else config in
    r <- ConfigStore.saveConfig webhookUrlSchema migrate
           (mkPartial (Some (submitWebhookUrl configToSave))
                      (Some (readWebhookUrl configToSave))
                      (Some (adminPassword configToSave))) ;;
    match r with
    | Ok _ => ret Saved
    | Throw e => ret (SaveFailed e)
    end.

End Page.

End Settings.

(** ** [src/pages/Admin.tsx]: signing in *)

Module Admin.

Import Auth Config.

(** How a submitted password ends. *)
Inductive Login : Type :=
| NotConfigured                  (* no admin password is stored *)
| Answered (r : AuthResult).     (* what [authenticate] returned *)

Section Page.

Variable webhookUrlSchema : jsstring -> bool.
Variable migrate : AppConfig -> M AppConfig.

(** [handleLogin], for the value [password] of the form: what it does to
    the two buckets and how it ends ([setAuthError], [setIsAuthenticated]
    and the like only show the end). *)
Definition handleLogin (password : jsstring) : M Login :=
  config <- ConfigStore.getConfig webhookUrlSchema migrate ;;
  if falsy (adminPassword config) then ret NotConfigured
  else
    result <- authenticate password (adminPassword config) ;;
    ret (Answered result).

End Page.

(** [haystack.includes(needle)]. *)
Fixpoint includes (haystack needle : jsstring) : bool :=
  match strip_prefix needle haystack with
  | Some _ => true
  | None =>
      match haystack with
      | [] => false
      | _ :: rest => includes rest needle
      end
  end.

Section Status.

(** [String.prototype.toLowerCase], which goes by the Unicode tables. *)
Variable toLowerCase : jsstring -> jsstring.

(** [normalizeStatus(raw)] for a [raw] of its declared type
    [string | undefined | null]; [None] is [undefined] or [null]. *)
Definition normalizeStatus (raw : option jsstring) : jsstring :=
  let s := toLowerCase (default [] raw) in
  if includes s (js "fail") then js "failed"
  else if includes s (js "process") || includes s (js "complete") || str_eqb s (js "yes")
  then js "completed"
  else if includes s (js "pending") || includes s (js "queue") then js "pending"
  else js "processing".

End Status.

End Admin.

(** ** [src/main.tsx]: the runtime override *)

Module Main.

Import Config.

Section Override.

Variable webhookUrlSchema : jsstring -> bool.
Variable migrate : AppConfig -> M AppConfig.

(** [typeof value === 'string']. *)
Definition as_string (value : option JSON.json) : option jsstring :=
  match value with
  | Some (JSON.JString s) => Some s
  | _ => None
  end.

(** [applyRuntimeConfigOverride], from the value [json] that
    [resp.json()] gave; [None] stands for a request that failed, a status
    that is not ok or a body that is not JSON. *)
Definition applyRuntimeConfigOverride (json : option JSON.json) : M unit :=
  match json with
  | None | Some JSON.JNull => ret tt
  | Some json =>
      let submit := as_string (JSON.get json "submitWebhookUrl") in
      let read := as_string (JSON.get json "readWebhookUrl") in
      match submit, read with
      | None, None => ret tt
      | _, _ =>
          ConfigStore.saveConfig webhookUrlSchema migrate (mkPartial submit read None) ;;;
          ret tt
      end
  end.

End Override.

End Main.

(** ** [src/lib/leadSchema.ts] *)

Module LeadSchema.

Record LeadFormData : Type := mkLeadFormData {
  name : jsstring;
  email : jsstring;
  phone : jsstring;
  company : jsstring;
}.

(** [String.prototype.trim]. *)
Definition trim (s : jsstring) : jsstring :=
  List.rev (trim_start (List.rev (trim_start s))).

(** A character of the class [[+\d\s\-()]]. *)
Definition is_phone_char (c : N) : bool :=
  ((c =? 43) || is_digit c || is_white_space c || (c =? 45) || (c =? 40) || (c =? 41))%N.

(** [/^[+\d\s\-()]+$/.test(s)]. *)
Definition phone_regex (s : jsstring) : bool :=
  negb (falsy s) && List.forallb is_phone_char s.

Section Schema.

(** zod's test of an e-mail address. *)
Variable is_email : jsstring -> bool.

(** [s.length] between [lo] and [hi]. *)
Definition length_in (lo hi : nat) (s : jsstring) : bool :=
  ((lo <=? List.length s) && (List.length s <=? hi))%nat.

(** [leadSchema.parse(data)]: every field is trimmed, then checked;
    [None] is a thrown [ZodError]. *)
Definition leadSchema_parse (data : LeadFormData) : option LeadFormData :=
  let name := trim (name data) in
  let email := trim (email data) in
  let phone := trim (phone data) in
  let company := trim (company data) in
  if length_in 1 100 name
     && (length_in 1 255 email && is_email email)
     && (length_in 1 30 phone && phone_regex phone)
     && length_in 1 200 company
  then Some (mkLeadFormData name email phone company)
  else None.

End Schema.

End LeadSchema.

(** * Vocabulary of the specification *)

Import Encryption Auth.

(** ** Strings *)

(** A string that does not go on with a decimal digit. *)
Definition no_digit_ahead (s : jsstring) : Prop :=
  match s with [] => True | c :: _ => is_digit c = false end.

(** Every code unit is at most U+00FF. *)
Definition latin1 (s : jsstring) : bool := List.forallb (fun c => c <? 256)%N s.

(** [Base64.encode] without its padding. *)
Fixpoint body (bs : list N) : jsstring :=
  match bs with
  | [] => []
  | [a] => [Base64.b64_char (a / 4); Base64.b64_char ((a mod 4) * 16)]%N
  | [a; b] =>
      [Base64.b64_char (a / 4); Base64.b64_char ((a mod 4) * 16 + b / 16);
       Base64.b64_char ((b mod 16) * 4)]%N
  | a :: b :: c :: rest =>
      (Base64.b64_char (a / 4) :: Base64.b64_char ((a mod 4) * 16 + b / 16)
       :: Base64.b64_char ((b mod 16) * 4 + c / 64) :: Base64.b64_char (c mod 64)
       :: body rest)%N
  end.

(** ** Worlds and clocks *)

(** The counter the gate reads in a world. *)
Definition counter (w : World) : LoginAttempt := fst (getLoginAttempts w).

(** The world after [n] more readings of the clock. *)
Definition tick (n : nat) (w : World) : World :=
  mkWorld (sessionStorage w) (localStorage w) (clock w) (n + ticks w)
          (entropy w) (drawn w).

(** The world a failed attempt leaves: the counter [a] is written back. *)
Definition recorded (a : LoginAttempt) (w : World) : World :=
  with_session (insert "loginAttempts" (JSON_stringify a)) w.

(** The token [generateSessionToken] mints in a world. *)
Definition token_of (w : World) : jsstring :=
  hex_of_bytes (List.map (fun i => (entropy w (drawn w + i)%nat mod 256)%N) (List.seq 0 32)).

(** The world a successful [authenticate] leaves, once the lockout check
    has passed in [w]. *)
Definition signed_in (w : World) : World :=
  mkWorld (<["adminAuthTime" := Number_toString (now w)]>
             (<["adminAuth" := token_of w]>
                (delete "loginAttempts" (sessionStorage w))))
          (localStorage w) (clock w) (S (ticks w)) (entropy w) (drawn w + 32).

(** The world [isSessionValid] leaves when it finds the session expired. *)
Definition signed_out (w : World) : World :=
  with_session (delete "adminAuthTime") (with_session (delete "adminAuth") (tick 1 w)).

(** The clock never runs backwards. *)
Definition monotone_clock (w : World) : Prop :=
  forall i j : nat, (i <= j)%nat -> clock w i <= clock w j.

(** The clock counts milliseconds from the epoch: no reading is negative. *)
Definition epoch_clock (w : World) : Prop := forall i : nat, 0 <= clock w i.

(** The next [n] readings of the clock are not earlier than the first of
    them and less than [d] milliseconds later. *)
Definition within (d : Z) (n : nat) (w : World) : Prop :=
  forall i : nat, (ticks w <= i < ticks w + n)%nat -> now w <= clock w i < now w + d.

(** ** Results and operations *)

(** The three shapes of a failed [authenticate]. *)
Definition locked_result (remaining : Z) : AuthResult :=
  mkAuthResult false
    (Some (js "Account locked. Try again in "
           ++ Number_toString (ceil_div remaining 60) ++ js " minutes."))
    (Some remaining).

Definition lockout_result (remaining : Z) : AuthResult :=
  mkAuthResult false
    (Some (js "Too many failed attempts. Account locked for "
           ++ Number_toString (ceil_div remaining 60) ++ js " minutes."))
    (Some remaining).

Definition incorrect_result (remainingAttempts : Z) : AuthResult :=
  mkAuthResult false
    (Some (js "Incorrect password. " ++ Number_toString remainingAttempts
           ++ js " attempt" ++ (if remainingAttempts =? 1 then js "" else js "s")
           ++ js " remaining."))
    None.

(** The world after the login attempts [ps], made one after the other
    against the stored hash [h]. *)
Definition after_attempts (ps : list jsstring) (h : jsstring) (w : World) : World :=
  List.fold_left (fun w p => snd (authenticate p h w)) ps w.

(** The public operations of the gate. *)
Inductive GateOp : Type :=
| OpAuthenticate (password storedPasswordHash : jsstring)
| OpIsSessionValid
| OpClearSession
| OpIsLockedOut
| OpGetLockoutRemaining.

(** The world an operation leaves. *)
Definition run (op : GateOp) (w : World) : World :=
  match op with
  | OpAuthenticate password storedPasswordHash =>
      snd (authenticate password storedPasswordHash w)
  | OpIsSessionValid => snd (isSessionValid w)
  | OpClearSession => snd (clearSession w)
  | OpIsLockedOut => snd (isLockedOut w)
  | OpGetLockoutRemaining => snd (getLockoutRemaining w)
  end.

Definition run_all (ops : list GateOp) (w : World) : World :=
  List.fold_left (fun w op => run op w) ops w.

(** Whether an operation is an [authenticate] call that succeeds in [w]. *)
Definition succeeds (op : GateOp) (w : World) : bool :=
  match op with
  | OpAuthenticate password storedPasswordHash =>
      success (fst (authenticate password storedPasswordHash w))
  | _ => false
  end.

(** The invariant of the attempt counter: [lockoutUntil] is set exactly
    when [count] is at the maximum, and a set [lockoutUntil] is a real
    time stamp. *)
Definition counter_inv (a : LoginAttempt) : Prop :=
  0 <= count a
  /\ match lockoutUntil a with
     | Some lu => count a = MAX_LOGIN_ATTEMPTS /\ lu <> 0
     | None => count a < MAX_LOGIN_ATTEMPTS
     end.

#[global] Instance counter_inv_dec (a : LoginAttempt) : Decision (counter_inv a).
Proof. unfold counter_inv. destruct (lockoutUntil a); apply _. Defined.

(** The [loginAttempts] entry is absent, empty, or a text that [JSON_parse]
    reads: the cases in which [JSON_parse] is [JSON.parse]. *)
Definition counter_entry_readable (w : World) : bool :=
  match sessionStorage w !! "loginAttempts" with
  | None => true
  | Some s => falsy s || bool_decide (is_Some (JSON_parse s))
  end.

(** ** Sample worlds and inputs *)

(** A fresh tab: both buckets empty, the clock at 2023-11-14T22:13:20Z and
    one millisecond further at every reading. *)
Definition fresh_tab : World :=
  mkWorld ∅ ∅ (fun i => Z.of_nat i + 1700000000000) 0%nat (fun i => N.of_nat i) 0%nat.

(** A tab that holds a session issued at [issued] and whose clock stands
    at [t]. *)
Definition tab_with_session (issued t : Z) : World :=
  mkWorld (<["adminAuthTime" := Number_toString issued]>
             (<["adminAuth" := js "c0ffee"]> ∅))
          ∅ (fun _ => t) 0%nat (fun i => N.of_nat i) 0%nat.

(** A tab whose counter is [a] and whose clock reads [t], then [t'], then
    [t'] for ever. *)
Definition tab_with_counter (a : LoginAttempt) (t t' : Z) : World :=
  mkWorld (<["loginAttempts" := JSON_stringify a]> ∅) ∅
          (fun i => match i with O => t | S _ => t' end) 0%nat
          (fun i => N.of_nat i) 0%nat.

Definition five_wrong : list jsstring :=
  [js "wrong1"; js "wrong2"; js "wrong3"; js "wrong4"; js "wrong5"].

Definition four_failures : list GateOp :=
  [OpAuthenticate (js "wrong1") (hashPassword (js "correct"));
   OpAuthenticate (js "wrong2") (hashPassword (js "correct"));
   OpAuthenticate (js "wrong3") (hashPassword (js "correct"));
   OpAuthenticate (js "wrong4") (hashPassword (js "correct"))].

(** A validator that accepts the two URLs of [DEFAULT_CONFIG] and nothing
    else. *)
Definition accepts_default_urls (u : jsstring) : bool :=
  str_eqb u (Config.submitWebhookUrl Config.DEFAULT_CONFIG)
  || str_eqb u (Config.readWebhookUrl Config.DEFAULT_CONFIG).

(** The argument of [saveConfig] that sets the admin password only. *)
Definition password_only (p : jsstring) : Config.PartialAppConfig :=
  Config.mkPartial None None (Some p).

(** A password of 64 hexadecimal digits. *)
Definition hex_shaped_password : jsstring :=
  js "DeadBeefDeadBeefDeadBeefDeadBeefDeadBeefDeadBeefDeadBeefDeadBeef".

(** * Vocabulary of the further properties *)

(** ** Digests and tokens *)

(** A lower-case hexadecimal digit. *)
Definition lower_hex (c : N) : bool :=
  (is_digit c || ((97 <=? c) && (c <=? 102)))%N.

(** The bytes the next [crypto.getRandomValues] hands out in a world. *)
Definition random_bytes (n : nat) (w : World) : list N :=
  List.map (fun i => (entropy w (drawn w + i)%nat mod 256)%N) (List.seq 0 n).

(** ** What the gate leaves alone *)

(** The three entries of [sessionStorage] that belong to the gate. *)
Definition gate_entry (k : string) : bool :=
  bool_decide (k = "adminAuth") || bool_decide (k = "adminAuthTime")
  || bool_decide (k = "loginAttempts").

(** From [w] to [w'] nothing has changed but the gate's three entries,
    the number of clock readings and the number of random bytes drawn. *)
Definition gate_frame (w w' : World) : Prop :=
  localStorage w' = localStorage w
  /\ (forall k, gate_entry k = false -> sessionStorage w' !! k = sessionStorage w !! k)
  /\ clock w' = clock w /\ entropy w' = entropy w
  /\ (ticks w <= ticks w')%nat /\ (drawn w <= drawn w')%nat.

(** The world after [n] calls of [isSessionValid]. *)
Definition checked (n : nat) (w : World) : World :=
  Nat.iter n (fun w => snd (isSessionValid w)) w.

(** A session whose time reads "soon", in a tab whose clock moves on by an
    hour at every reading. *)
Definition timeless_tab : World :=
  mkWorld (<["adminAuthTime" := js "soon"]> (<["adminAuth" := js "c0ffee"]> ∅))
          ∅ (fun i => Z.of_nat i * 3600000) 0%nat (fun i => N.of_nat i) 0%nat.

(** ** Stored text *)

(** A character of base64 text: a letter of the alphabet or the padding
    sign. *)
Definition is_base64_char (c : N) : bool :=
  match Base64.b64_value c with
  | Some _ => true
  | None => (c =? 61)%N
  end.

(** ** Configs *)

(** A URL that [configSchema] lets through: one that [webhookUrlSchema]
    accepts, or the empty string. *)
Definition url_ok (webhookUrlSchema : jsstring -> bool) (u : jsstring) : bool :=
  webhookUrlSchema u || falsy u.

(** A config that [configSchema] lets through. *)
Definition schema_valid (webhookUrlSchema : jsstring -> bool) (c : Config.AppConfig) : Prop :=
  url_ok webhookUrlSchema (Config.submitWebhookUrl c) = true
  /\ url_ok webhookUrlSchema (Config.readWebhookUrl c) = true
  /\ (8 <= List.length (Config.adminPassword c) <= 128)%nat.

(** The config that [saveConfig] validates and stores: [config] over
    [current], with a new plain password replaced by its digest. *)
Definition to_store (current : Config.AppConfig) (config : Config.PartialAppConfig)
    : Config.AppConfig :=
  let merged := Config.spread current config in
  if negb (falsy (Config.adminPassword merged))
     && negb (str_eqb (Config.adminPassword merged) (Config.adminPassword current))
     && negb (Config.isAlreadyHashed (Config.adminPassword merged))
  then Config.mkAppConfig (Config.submitWebhookUrl merged) (Config.readWebhookUrl merged)
                          (hashPassword (Config.adminPassword merged))
  else merged.

(** The world in which [blob] has been stored and the legacy entry
    removed. *)
Definition stored (blob : jsstring) (w : World) : World :=
  with_local (delete Config.STORAGE_KEY) (with_local (insert Config.ENCRYPTED_KEY blob) w).

(** The value [JSON.parse] gives for the text of a config. *)
Definition json_of_config (c : Config.AppConfig) : JSON.json :=
  JSON.JObject
    [(js "submitWebhookUrl", JSON.JString (Config.submitWebhookUrl c));
     (js "readWebhookUrl", JSON.JString (Config.readWebhookUrl c));
     (js "adminPassword", JSON.JString (Config.adminPassword c))].

(** No legacy entry is stored. *)
Definition no_legacy (w : World) : Prop :=
  falsy_item (localStorage w !! Config.STORAGE_KEY) = true.

(** The arguments of [saveConfig] that set the two URLs, every property of
    a config, and nothing. *)
Definition urls_only (submit read : jsstring) : Config.PartialAppConfig :=
  Config.mkPartial (Some submit) (Some read) None.

Definition all_of (c : Config.AppConfig) : Config.PartialAppConfig :=
  Config.mkPartial (Some (Config.submitWebhookUrl c)) (Some (Config.readWebhookUrl c))
                   (Some (Config.adminPassword c)).

Definition no_change : Config.PartialAppConfig := Config.mkPartial None None None.

(** ** Passwords and texts *)

(** How many of the four optional tests of [validatePasswordStrength] a
    password passes: twelve characters, both cases, a digit, a special
    character. *)
Definition optional_tests (password : jsstring) : Z :=
  Z.b2z (12 <=? List.length password)%nat
  + Z.b2z (PasswordValidation.has_lower password && PasswordValidation.has_upper password)
  + Z.b2z (PasswordValidation.has_digit password)
  + Z.b2z (PasswordValidation.has_special password).

(** A string of the letters a to z. *)
Definition lower_letters (s : jsstring) : bool := List.forallb PasswordValidation.is_lower s.

(** A string that does not begin with white space. *)
Definition starts_clean (s : jsstring) : Prop :=
  match s with [] => True | c :: _ => is_white_space c = false end.

(** ** More sample worlds and inputs *)

(** A migration that gives [DEFAULT_CONFIG] and writes nothing. *)
Definition no_migration (config : Config.AppConfig) : M Config.AppConfig :=
  ret Config.DEFAULT_CONFIG.

(** A fresh tab in which a first password has been saved. *)
Definition saved_tab : World :=
  snd (ConfigStore.saveConfig accepts_default_urls no_migration
         (password_only (js "correct horse")) fresh_tab).

(** A tab whose stored blob is not base64. *)
Definition corrupted_tab : World :=
  mkWorld ∅ (<[Config.ENCRYPTED_KEY := js "{not base64}"]> ∅)
          (fun i => Z.of_nat i + 1700000000000) 0%nat (fun i => N.of_nat i) 0%nat.

(** The form of the Settings page with the URLs of [DEFAULT_CONFIG] and
    the password [p]. *)
Definition form_with (p : jsstring) : Config.AppConfig :=
  Config.mkAppConfig (Config.submitWebhookUrl Config.DEFAULT_CONFIG)
                     (Config.readWebhookUrl Config.DEFAULT_CONFIG) p.

(** Lower case for the letters A to Z, every other code unit as it is:
    what [toLowerCase] does to ASCII text. *)
Definition ascii_lower (s : jsstring) : jsstring :=
  List.map (fun c => if PasswordValidation.is_upper c then (c + 32)%N else c) s.

(** A test that takes every text with an at sign for an address. *)
Definition has_at_sign (s : jsstring) : bool := List.existsb (N.eqb 64) s.

Definition sample_lead : LeadSchema.LeadFormData :=
  LeadSchema.mkLeadFormData (js "  Ada Lovelace ") (js "ada@example.org ")
                            (js " +44 (0)20 7946-0000") (js "Analytical Engines").

(** ** Tactics *)

(** [lia] also decides goals with division and remainder by a constant. *)
Ltac Zify.zify_post_hook ::= Z.to_euclidean_division_equations.

(** Case analysis on a boolean comparison of numbers in the goal. *)
Ltac case_compare :=
  repeat match goal with
  | |- context [(?a <? ?b)%N] => destruct (N.ltb_spec a b)
  | |- context [(?a <=? ?b)%N] => destruct (N.leb_spec a b)
  | |- context [(?a =? ?b)%N] => destruct (N.eqb_spec a b)
  end.

(** * The primitives on known inputs *)

Example sha256_constants :
  List.firstn 4 SHA256.K = [0x428a2f98; 0x71374491; 0xb5c0fbcf; 0xe9b5dba5]%N
  /\ List.nth 63 SHA256.K 0%N = 0xc67178f2%N
  /\ SHA256.ra SHA256.H0 = 0x6a09e667%N /\ SHA256.rh SHA256.H0 = 0x5be0cd19%N.
Proof. vm_compute. repeat split; reflexivity. Qed.

Example sha256_abc :
  hex_of_bytes (SHA256.sha256 (UTF8.TextEncoder_encode (js "abc")))
  = js "ba7816bf8f01cfea414140de5dae2223b00361a396177a9cb410ff61f20015ad".
Proof. vm_compute. reflexivity. Qed.

Example sha256_empty :
  hex_of_bytes (SHA256.sha256 [])
  = js "e3b0c44298fc1c149afbf4c8996fb92427ae41e4649b934ca495991b7852b855".
Proof. vm_compute. reflexivity. Qed.

Example sha256_two_blocks :
  hex_of_bytes (SHA256.sha256 (UTF8.TextEncoder_encode
    (js "abcdbcdecdefdefgefghfghighijhijkijkljklmklmnlmnomnopnopq")))
  = js "248d6a61d20638b8e5c026930c3e6039a33ce45964ff2167f6ecedd419db06c1".
Proof. vm_compute. reflexivity. Qed.

Example btoa_hello : Base64.btoa (js "Hello!!") = Ok (js "SGVsbG8hIQ==").
Proof. vm_compute. reflexivity. Qed.

Example atob_hello : Base64.atob (js " SGVs bG8hIQ") = Ok (js "Hello!!").
Proof. vm_compute. reflexivity. Qed.

Example atob_bad : Base64.atob (js "SGVsb") = Throw InvalidCharacterError.
Proof. vm_compute. reflexivity. Qed.

Example encrypt_sample :
  Encryption.encryptForStorage (js "{}") = Ok (js "Fxg=").
Proof. vm_compute. reflexivity. Qed.

Example fifth_failure_locks :
  counter (run (OpAuthenticate (js "wrong5") (hashPassword (js "correct")))
               (run_all four_failures fresh_tab))
  = mkLoginAttempt 5 (Some 1700000900000).
Proof. vm_compute. reflexivity. Qed.

Example saveConfig_sample :
  fst (Config.saveConfig accepts_default_urls Config.DEFAULT_CONFIG
         (password_only (js "correct horse")) fresh_tab) = Ok tt.
Proof. vm_compute. reflexivity. Qed.

Example fresh_tab_entry_readable : counter_entry_readable fresh_tab = true.
Proof. reflexivity. Qed.

(** The scenario of the specification: four wrong passwords, each with its
    countdown, a fifth that locks the gate for 900 seconds, and the right
    password refused while the lockout lasts. *)
Example scenario :
  let H := hashPassword (js "correct") in
  let step w p := snd (authenticate p H w) in
  let w1 := step fresh_tab (js "wrong1") in
  let w2 := step w1 (js "wrong2") in
  let w3 := step w2 (js "wrong3") in
  let w4 := step w3 (js "wrong4") in
  let w5 := step w4 (js "wrong5") in
  error (fst (authenticate (js "wrong1") H fresh_tab))
    = Some (js "Incorrect password. 4 attempts remaining.")
  /\ error (fst (authenticate (js "wrong4") H w3))
     = Some (js "Incorrect password. 1 attempt remaining.")
  /\ fst (authenticate (js "wrong5") H w4)
     = mkAuthResult false
         (Some (js "Too many failed attempts. Account locked for 15 minutes."))
         (Some 900)
  /\ fst (getLockoutRemaining w5) = 900
  /\ fst (authenticate (js "correct") H w5)
     = mkAuthResult false (Some (js "Account locked. Try again in 15 minutes.")) (Some 900)
  /\ counter (step w5 (js "correct")) = counter w5
  /\ counter w5 = mkLoginAttempt 5 (Some 1700000900000).
Proof. vm_compute. repeat split; reflexivity. Qed.

(** * Facts about numbers and JSON *)

Lemma ceil_div_spec (a b : Z) :
  0 < b -> b * (ceil_div a b - 1) < a <= b * ceil_div a b.
Proof. intros Hb. unfold ceil_div. lia. Qed.

Lemma digits_uint_app (u : uint) (rest : jsstring) :
  no_digit_ahead rest -> digits_uint (uint_digits u ++ rest) = (u, rest).
Proof.
  intros Hrest. induction u as [|u IH|u IH|u IH|u IH|u IH|u IH|u IH|u IH|u IH|u IH];
    cbn [uint_digits app digits_uint]; try (cbn; rewrite IH; reflexivity).
  destruct rest as [|c rest]; [reflexivity|].
  cbn in Hrest |- *. now rewrite Hrest.
Qed.

Lemma uint_digits_head (u : uint) :
  u <> Nil ->
  exists c s, uint_digits u = c :: s /\ is_digit c = true
              /\ is_white_space c = false /\ c <> 45%N /\ c <> 43%N.
Proof.
  intros Hu. destruct u; try congruence; cbn [uint_digits];
    eexists _, _; (split; [reflexivity|]); repeat split; try reflexivity; discriminate.
Qed.

Lemma to_uint_nonnil (n : N) : N.to_uint n <> Nil.
Proof.
  destruct n as [|p]; [discriminate|]. apply DecimalPos.Unsigned.to_uint_nonnil.
Qed.

Lemma nzhead_not_D0 (u v : uint) : nzhead u <> D0 v.
Proof. induction u; cbn; congruence. Qed.

Lemma to_uint_no_leading_zero (n : N) (u : uint) :
  N.to_uint n = D0 u -> u = Nil.
Proof.
  intros H. pose proof (DecimalN.Unsigned.to_of (N.to_uint n)) as Hn.
  rewrite DecimalN.Unsigned.of_to, H in Hn.
  unfold unorm in Hn. cbn [nzhead] in Hn.
  destruct (nzhead u) eqn:E; try congruence.
  exfalso. eapply nzhead_not_D0. rewrite E. symmetry. exact Hn.
Qed.

Lemma read_sign_digit plus c s :
  c <> 45%N -> c <> 43%N -> read_sign plus (c :: s) = (false, c :: s).
Proof.
  intros H1 H2. unfold read_sign.
  apply N.eqb_neq in H1, H2. rewrite H1, H2. now rewrite andb_false_r.
Qed.

Lemma parseInt10_digits (n : N) :
  parseInt10 (uint_digits (N.to_uint n)) = Some (Z.of_N n).
Proof.
  pose proof (to_uint_nonnil n) as Hn.
  destruct (uint_digits_head _ Hn) as (c & s & E & Hd & Hw & Hm & Hp).
  unfold parseInt10. rewrite E. cbn [trim_start]. rewrite Hw.
  rewrite read_sign_digit by assumption. rewrite <- E.
  rewrite <- (app_nil_r (uint_digits _)), digits_uint_app by exact I.
  rewrite <- (DecimalN.Unsigned.of_to n) at 2.
  destruct (N.to_uint n); congruence.
Qed.

Lemma parseInt10_toString (z : Z) : parseInt10 (Number_toString z) = Some z.
Proof.
  destruct z as [|p|p]; cbn [Number_toString].
  - reflexivity.
  - apply (parseInt10_digits (Npos p)).
  - pose proof (to_uint_nonnil (Npos p)) as Hn.
    unfold parseInt10. cbn [trim_start is_white_space read_sign].
    change (is_white_space 45) with false. cbv iota.
    change (read_sign true (45%N :: ?s)) with (true, s). cbv beta iota.
    rewrite <- (app_nil_r (uint_digits _)), digits_uint_app by exact I.
    replace (Z.neg p) with (- Z.of_N (N.of_uint (N.to_uint (Npos p))))
      by (now rewrite DecimalN.Unsigned.of_to).
    destruct (N.to_uint (Npos p)); congruence.
Qed.

Lemma Number_toString_nonempty (z : Z) : Number_toString z <> [].
Proof.
  destruct z as [|p|p]; cbn [Number_toString]; try discriminate.
  destruct (uint_digits_head _ (to_uint_nonnil (Npos p))) as (c & s & E & _).
  rewrite E. discriminate.
Qed.

Lemma Number_toString_truthy (z : Z) : falsy (Number_toString z) = false.
Proof.
  pose proof (Number_toString_nonempty z). now destruct (Number_toString z).
Qed.

Lemma parse_int_digits (n : N) (rest : jsstring) :
  no_digit_ahead rest ->
  parse_int (uint_digits (N.to_uint n) ++ rest) = Some (Z.of_N n, rest).
Proof.
  intros Hrest. pose proof (to_uint_nonnil n) as Hn.
  destruct (uint_digits_head _ Hn) as (c & s & E & Hd & Hw & Hm & Hp).
  unfold parse_int. rewrite E. cbn [app]. rewrite read_sign_digit by assumption.
  change (c :: s ++ rest) with ((c :: s) ++ rest).
  rewrite <- E, digits_uint_app by assumption.
  pose proof (to_uint_no_leading_zero n) as Hz.
  rewrite <- (DecimalN.Unsigned.of_to n) at 2.
  destruct (N.to_uint n) as [|u| | | | | | | | |]; try congruence.
  rewrite (Hz u eq_refl). reflexivity.
Qed.

Lemma parse_int_toString (z : Z) (rest : jsstring) :
  no_digit_ahead rest ->
  parse_int (Number_toString z ++ rest) = Some (z, rest).
Proof.
  intros Hrest. destruct z as [|p|p]; cbn [Number_toString].
  - apply (parse_int_digits 0 rest Hrest).
  - apply (parse_int_digits (Npos p) rest Hrest).
  - unfold parse_int. cbn [app].
    change (read_sign false (45%N :: ?s)) with (true, s). cbv beta iota.
    rewrite digits_uint_app by assumption.
    pose proof (to_uint_nonnil (Npos p)) as Hn.
    pose proof (to_uint_no_leading_zero (Npos p)) as Hz.
    replace (Z.neg p) with (- Z.of_N (N.of_uint (N.to_uint (Npos p))))
      by (now rewrite DecimalN.Unsigned.of_to).
    pose proof (DecimalN.Unsigned.of_to (Npos p)) as Hof.
    destruct (N.to_uint (Npos p)) as [|u| | | | | | | | |]; try congruence.
    rewrite (Hz u eq_refl) in Hof. discriminate.
Qed.

Lemma strip_prefix_app (p s : jsstring) : strip_prefix p (p ++ s) = Some s.
Proof. induction p as [|a p IH]; [reflexivity|]. cbn. now rewrite N.eqb_refl. Qed.

Lemma Number_toString_not_null (z : Z) (rest : jsstring) :
  strip_prefix (js "null") (Number_toString z ++ rest) = None.
Proof.
  change (js "null") with [110; 117; 108; 108]%N.
  destruct z as [|p|p]; cbn [Number_toString]; try reflexivity.
  destruct (uint_digits_head _ (to_uint_nonnil (Npos p))) as (c & s & E & Hd & _).
  rewrite E. cbn [app strip_prefix]. destruct (110 =? c)%N eqn:Hc; [|reflexivity].
  apply N.eqb_eq in Hc. subst c. discriminate.
Qed.

Lemma JSON_parse_stringify (a : LoginAttempt) : JSON_parse (JSON_stringify a) = Some a.
Proof.
  destruct a as [c l]. unfold JSON_parse, JSON_stringify. cbn [count lockoutUntil].
  rewrite strip_prefix_app. cbn [mbind option_bind].
  rewrite parse_int_toString by reflexivity. cbn [mbind option_bind].
  rewrite strip_prefix_app. cbn [mbind option_bind].
  destruct l as [t|].
  - rewrite Number_toString_not_null.
    rewrite parse_int_toString by reflexivity. reflexivity.
  - reflexivity.
Qed.

Lemma JSON_stringify_nonempty (a : LoginAttempt) : falsy (JSON_stringify a) = false.
Proof. reflexivity. Qed.

(** * Facts about digests *)

Lemma be_bytes_length (k : nat) (x : N) : List.length (SHA256.be_bytes k x) = k.
Proof. unfold SHA256.be_bytes. now rewrite List.length_map, List.length_rev, List.length_seq. Qed.

Lemma sha256_length (msg : list N) : List.length (SHA256.sha256 msg) = 32%nat.
Proof.
  unfold SHA256.sha256, SHA256.regs_bytes.
  rewrite !List.length_app, !be_bytes_length. reflexivity.
Qed.

Lemma hex_of_bytes_length (bs : list N) :
  List.length (hex_of_bytes bs) = (2 * List.length bs)%nat.
Proof.
  induction bs as [|b bs IH]; [reflexivity|].
  change (hex_of_bytes (b :: bs)) with (hex_byte b ++ hex_of_bytes bs).
  rewrite List.length_app, IH. cbn. lia.
Qed.

Lemma hex_digit_is_hex (n : N) : (n < 16)%N -> Config.is_hex (hex_digit n) = true.
Proof.
  intros Hn. unfold hex_digit, Config.is_hex.
  case_compare; try reflexivity; lia.
Qed.

Lemma hex_of_bytes_is_hex (bs : list N) : List.forallb Config.is_hex (hex_of_bytes bs) = true.
Proof.
  induction bs as [|b bs IH]; [reflexivity|].
  change (hex_of_bytes (b :: bs)) with (hex_byte b ++ hex_of_bytes bs).
  rewrite List.forallb_app, IH. unfold hex_byte. cbn [List.forallb].
  rewrite !hex_digit_is_hex; [reflexivity| |]; apply N.mod_lt; discriminate.
Qed.

Lemma hashPassword_length (p : jsstring) : List.length (hashPassword p) = 64%nat.
Proof. unfold hashPassword. now rewrite hex_of_bytes_length, sha256_length. Qed.

Lemma hashPassword_nonempty (p : jsstring) : falsy (hashPassword p) = false.
Proof.
  pose proof (hashPassword_length p) as H.
  destruct (hashPassword p); [discriminate|reflexivity].
Qed.

Lemma hashPassword_isAlreadyHashed (p : jsstring) :
  Config.isAlreadyHashed (hashPassword p) = true.
Proof.
  unfold Config.isAlreadyHashed. rewrite hashPassword_length.
  unfold hashPassword. now rewrite hex_of_bytes_is_hex.
Qed.

Lemma hashPassword_not_plain (p : jsstring) :
  Config.isAlreadyHashed p = false -> hashPassword p <> p.
Proof.
  intros Hp E. pose proof (hashPassword_isAlreadyHashed p) as H.
  rewrite E in H. congruence.
Qed.

Lemma verifyPassword_digest (p : jsstring) :
  verifyPassword p (hashPassword p) = negb (falsy p).
Proof.
  unfold verifyPassword. rewrite hashPassword_nonempty.
  destruct (falsy p); [reflexivity|]. cbn. unfold str_eqb.
  now rewrite bool_decide_eq_true_2.
Qed.

Lemma verifyPassword_mismatch (pw h : jsstring) :
  hashPassword pw <> h -> verifyPassword pw h = false.
Proof.
  intros Hne. unfold verifyPassword. destruct (falsy pw || falsy h); [reflexivity|].
  unfold str_eqb. now rewrite bool_decide_eq_false_2.
Qed.

(** * Facts about base64 and the obfuscation *)

Section Base64Facts.

Import Base64.
Local Open Scope N_scope.

Lemma b64_value_char (n : N) : n < 64 -> b64_value (b64_char n) = Some n.
Proof.
  intros Hn. unfold b64_char, b64_value.
  case_compare; cbn [andb]; try (f_equal; lia); lia.
Qed.

Lemma list_ind3 {A} (P : list A -> Prop) :
  P [] -> (forall a, P [a]) -> (forall a b, P [a; b]) ->
  (forall a b c l, P l -> P (a :: b :: c :: l)) ->
  forall l, P l.
Proof.
  intros H0 H1 H2 H3.
  fix IH 1. intros [|a [|b [|c l]]];
    [exact H0 | apply H1 | apply H2 | apply H3, IH].
Qed.

Lemma b64_char_bounds (n : N) : 43 <= b64_char n /\ b64_char n <> 61.
Proof.
  unfold b64_char. case_compare; lia.
Qed.

Lemma b64_char_not_space (n : N) : is_ascii_whitespace (b64_char n) = false.
Proof.
  destruct (b64_char_bounds n) as [H _]. unfold is_ascii_whitespace.
  case_compare; try reflexivity; lia.
Qed.

Lemma encode_no_space (bs : list N) :
  List.filter (fun c => negb (is_ascii_whitespace c)) (encode bs) = encode bs.
Proof.
  induction bs as [|a|a b|a b c l IH] using list_ind3;
    cbn [encode List.filter]; rewrite ?b64_char_not_space; cbn [negb];
    try reflexivity.
  now rewrite IH.
Qed.

Lemma encode_length (bs : list N) : (N.of_nat (List.length (encode bs))) mod 4 = 0.
Proof.
  induction bs as [|a|a b|a b c l IH] using list_ind3; try reflexivity.
  cbn [encode List.length]. lia.
Qed.

Lemma body_no_padding (bs : list N) : List.Forall (fun c => c <> 61) (body bs).
Proof.
  induction bs as [|a|a b|a b c l IH] using list_ind3; cbn [body];
    repeat constructor; try apply b64_char_bounds. exact IH.
Qed.

Lemma encode_body (bs : list N) :
  exists k, (k <= 2)%nat /\ encode bs = body bs ++ List.repeat 61 k.
Proof.
  induction bs as [|a|a b|a b c l IH] using list_ind3.
  - exists 0%nat. split; [lia|reflexivity].
  - exists 2%nat. split; [lia|reflexivity].
  - exists 1%nat. split; [lia|reflexivity].
  - destruct IH as (k & Hk & E). exists k. split; [exact Hk|].
    cbn [encode body app]. now rewrite E.
Qed.

Lemma strip_padding_spec (xs : jsstring) (k : nat) :
  List.Forall (fun c => c <> 61) xs -> (k <= 2)%nat ->
  strip_padding (xs ++ List.repeat 61 k) = xs.
Proof.
  intros Hxs Hk. unfold strip_padding. rewrite List.rev_app_distr.
  assert (Hrev : List.Forall (fun c => c <> 61) (List.rev xs)).
  { apply List.Forall_forall. intros c Hc. apply List.in_rev in Hc.
    revert c Hc. now apply List.Forall_forall. }
  assert (Hhead : forall c r, List.rev xs = c :: r -> (c =? 61) = false).
  { intros c r E. rewrite E in Hrev. inversion Hrev; subst. now apply N.eqb_neq. }
  destruct k as [|[|[|k]]]; [| | |lia]; cbn [List.repeat List.rev app N.eqb Pos.eqb].
  - rewrite List.app_nil_r.
    destruct (List.rev xs) as [|c r] eqn:E; [reflexivity|].
    now rewrite (Hhead c r eq_refl).
  - destruct (List.rev xs) as [|c r] eqn:E.
    + apply (f_equal (@List.rev N)) in E. now rewrite List.rev_involutive in E.
    + rewrite (Hhead c r eq_refl), <- E. apply List.rev_involutive.
  - apply List.rev_involutive.
Qed.

Lemma body_length (bs : list N) : (N.of_nat (List.length (body bs))) mod 4 <> 1.
Proof.
  induction bs as [|a|a b|a b c l IH] using list_ind3; try discriminate.
  cbn [body List.length]. lia.
Qed.

Lemma decode_body (bs : list N) :
  latin1 bs = true ->
  exists vs, values (body bs) = Some vs /\ decode vs = bs.
Proof.
  unfold latin1.
  induction bs as [|a|a b|a b c l IH] using list_ind3; cbn [List.forallb]; intros H.
  - exists []. split; reflexivity.
  - apply andb_true_iff in H as [Ha _]. apply N.ltb_lt in Ha.
    eexists. cbn [body values]. rewrite !b64_value_char by lia.
    split; [reflexivity|]. cbn [decode]. f_equal. lia.
  - apply andb_true_iff in H as [Ha H]. apply andb_true_iff in H as [Hb _].
    apply N.ltb_lt in Ha, Hb.
    eexists. cbn [body values]. rewrite !b64_value_char by lia.
    split; [reflexivity|]. cbn [decode]. repeat f_equal; lia.
  - apply andb_true_iff in H as [Ha H]. apply andb_true_iff in H as [Hb H].
    apply andb_true_iff in H as [Hc H].
    apply N.ltb_lt in Ha, Hb, Hc.
    destruct (IH H) as (vs & Hvs & Hdec).
    eexists. cbn [body values]. rewrite !b64_value_char by lia. rewrite Hvs.
    split; [reflexivity|]. cbn [decode]. rewrite Hdec. repeat f_equal; lia.
Qed.

Lemma atob_btoa (s : jsstring) :
  latin1 s = true -> btoa s = Ok (encode s) /\ atob (encode s) = Ok s.
Proof.
  intros Hs. split.
  - unfold btoa. unfold latin1 in Hs. now rewrite Hs.
  - unfold atob. rewrite encode_no_space, encode_length. cbn [N.eqb].
    destruct (encode_body s) as (k & Hk & E). rewrite E.
    rewrite strip_padding_spec by (auto using body_no_padding).
    destruct (N.eqb_spec (N.of_nat (List.length (body s)) mod 4) 1) as [H1|_].
    { now apply body_length in H1. }
    destruct (decode_body s Hs) as (vs & -> & ->). reflexivity.
Qed.

Lemma lxor_byte (a b : N) : a < 256 -> b < 256 -> N.lxor a b < 256.
Proof.
  intros Ha Hb. change 256 with (2 ^ 8) in *.
  destruct (N.eq_dec (N.lxor a b) 0) as [->|Hr]; [reflexivity|].
  apply N.log2_lt_pow2; [lia|].
  eapply N.le_lt_trans; [apply N.log2_lxor|].
  apply N.max_lub_lt.
  - destruct (N.eq_dec a 0) as [->|]; [reflexivity|]. apply N.log2_lt_pow2; lia.
  - destruct (N.eq_dec b 0) as [->|]; [reflexivity|]. apply N.log2_lt_pow2; lia.
Qed.

Lemma lxor_cancel (a k : N) : N.lxor (N.lxor a k) k = a.
Proof. now rewrite N.lxor_assoc, N.lxor_nilpotent, N.lxor_0_r. Qed.

Lemma keyChar_byte (i : nat) :
  charCodeAt ENCRYPTION_KEY (i mod List.length ENCRYPTION_KEY) < 256.
Proof.
  unfold charCodeAt.
  assert (H : forall (l : list N) (n : nat),
            List.Forall (fun c => c < 256) l -> List.nth n l 0 < 256).
  { induction l as [|x l IH]; intros [|n] Hl; cbn; try reflexivity;
      inversion Hl; subst; auto. }
  apply H. vm_compute. repeat constructor.
Qed.

Lemma xor_loop_involutive (i : nat) (t : jsstring) : xor_loop i (xor_loop i t) = t.
Proof.
  revert i. induction t as [|c t IH]; intros i; [reflexivity|].
  cbn [xor_loop]. now rewrite lxor_cancel, IH.
Qed.

Lemma xor_loop_latin1 (i : nat) (t : jsstring) :
  latin1 t = true -> latin1 (xor_loop i t) = true.
Proof.
  unfold latin1. revert i. induction t as [|c t IH]; intros i H; [reflexivity|].
  cbn [xor_loop List.forallb] in *. apply andb_true_iff in H as [Hc Ht].
  apply andb_true_iff. split; [|now apply IH].
  apply N.ltb_lt. apply lxor_byte; [now apply N.ltb_lt|apply keyChar_byte].
Qed.

Lemma xor_loop_latin1_iff (i : nat) (t : jsstring) :
  latin1 (xor_loop i t) = latin1 t.
Proof.
  destruct (latin1 t) eqn:Ht; [now apply xor_loop_latin1|].
  destruct (latin1 (xor_loop i t)) eqn:Hx; [|reflexivity].
  apply (xor_loop_latin1 i) in Hx. rewrite xor_loop_involutive in Hx. congruence.
Qed.

Lemma encode_nonempty (bs : list N) : bs <> [] -> falsy (encode bs) = false.
Proof. destruct bs as [|a [|b [|c l]]]; [congruence| | |]; reflexivity. Qed.

Lemma encryptForStorage_spec (s : jsstring) :
  encryptForStorage s =
    if latin1 s then Ok (if falsy s then [] else encode (xor_loop 0 s))
    else Throw InvalidCharacterError.
Proof.
  unfold encryptForStorage, simpleObfuscate, btoa.
  destruct s as [|c s]; [reflexivity|]. cbn [falsy].
  fold (latin1 (xor_loop 0 (c :: s))). rewrite xor_loop_latin1_iff.
  reflexivity.
Qed.

Lemma decrypt_encrypt (s e : jsstring) :
  encryptForStorage s = Ok e -> decryptFromStorage e = s.
Proof.
  rewrite encryptForStorage_spec. destruct (latin1 s) eqn:Hs; [|discriminate].
  intros [= <-]. destruct s as [|c s]; [reflexivity|]. cbn [falsy].
  unfold decryptFromStorage. rewrite encode_nonempty by discriminate.
  unfold simpleDeobfuscate.
  destruct (atob_btoa (xor_loop 0 (c :: s))) as [_ ->].
  - now rewrite xor_loop_latin1_iff.
  - apply xor_loop_involutive.
Qed.

End Base64Facts.

(** * Facts about the gate *)

(** ** The counter *)

Lemma getLoginAttempts_run (w : World) : getLoginAttempts w = (counter w, w).
Proof.
  unfold counter, getLoginAttempts, bind, sessionStorage_getItem, ret.
  destruct (falsy_item _); [reflexivity|]. now destruct (JSON_parse _).
Qed.

Lemma counter_ext (w w' : World) :
  sessionStorage w !! "loginAttempts" = sessionStorage w' !! "loginAttempts" ->
  counter w = counter w'.
Proof.
  intros H. unfold counter, getLoginAttempts, bind, sessionStorage_getItem, ret.
  rewrite H. destruct (falsy_item _); [reflexivity|]. now destruct (JSON_parse _).
Qed.

Lemma counter_stored (w : World) (a : LoginAttempt) :
  sessionStorage w !! "loginAttempts" = Some (JSON_stringify a) -> counter w = a.
Proof.
  intros H. unfold counter, getLoginAttempts, bind, sessionStorage_getItem, ret.
  rewrite H. cbn [falsy_item from_option id]. rewrite JSON_stringify_nonempty.
  now rewrite JSON_parse_stringify.
Qed.

Lemma counter_absent (w : World) :
  sessionStorage w !! "loginAttempts" = None -> counter w = no_attempts.
Proof.
  intros H. unfold counter, getLoginAttempts, bind, sessionStorage_getItem, ret.
  now rewrite H.
Qed.

Lemma counter_delete (w : World) :
  counter (with_session (delete "loginAttempts") w) = no_attempts.
Proof. apply counter_absent. cbn. apply lookup_delete_eq. Qed.

Lemma counter_insert (a : LoginAttempt) (w : World) :
  counter (with_session (insert "loginAttempts" (JSON_stringify a)) w) = a.
Proof. apply counter_stored. cbn. apply lookup_insert_eq. Qed.

Lemma counter_tick (n : nat) (w : World) : counter (tick n w) = counter w.
Proof. now apply counter_ext. Qed.

Lemma counter_signed_in (w : World) : counter (signed_in w) = no_attempts.
Proof.
  apply counter_absent. unfold signed_in. cbn [sessionStorage].
  rewrite !lookup_insert_ne by discriminate. apply lookup_delete_eq.
Qed.

Lemma counter_inv_no_attempts : counter_inv no_attempts.
Proof. split; cbn; unfold MAX_LOGIN_ATTEMPTS; lia. Qed.

(** Under the invariant a lockout stamp is truthy exactly when it is set. *)
Lemma counter_inv_falsy (a : LoginAttempt) :
  counter_inv a -> truthy_num (lockoutUntil a) = false ->
  lockoutUntil a = None /\ 0 <= count a < MAX_LOGIN_ATTEMPTS.
Proof.
  intros [H0 H] Hf. unfold truthy_num in Hf.
  destruct (lockoutUntil a) as [lu|]; [|split; [reflexivity|lia]].
  destruct H as [_ Hlu]. destruct (Z.eqb_spec lu 0); [congruence|discriminate].
Qed.

(** ** Each operation as a function of the world *)

Lemma lockout_and_run (a : LoginAttempt) (cmp : Z -> Z -> bool) (w : World) :
  lockout_and a cmp w =
    match lockoutUntil a with
    | Some lu => if lu =? 0 then (false, w) else (cmp (now w) lu, tick 1 w)
    | None => (false, w)
    end.
Proof.
  unfold lockout_and, truthy_num. destruct (lockoutUntil a) as [lu|]; [|reflexivity].
  now destruct (lu =? 0).
Qed.

Lemma isLockedOut_run (w : World) :
  isLockedOut w =
    match lockoutUntil (counter w) with
    | Some lu =>
        if lu =? 0 then (false, w)
        else if now w <? lu then (true, tick 1 w)
        else if lu <=? clock w (S (ticks w))
             then (false, with_session (delete "loginAttempts") (tick 2 w))
             else (false, tick 2 w)
    | None => (false, w)
    end.
Proof.
  unfold isLockedOut, bind. rewrite getLoginAttempts_run, lockout_and_run.
  destruct (lockoutUntil (counter w)) as [lu|] eqn:E; [|now rewrite lockout_and_run, E].
  destruct (lu =? 0) eqn:E0; [now rewrite lockout_and_run, E, E0|].
  destruct (now w <? lu); [reflexivity|].
  rewrite lockout_and_run, E, E0. unfold now. cbn [tick clock ticks Nat.add].
  rewrite Z.geb_leb. now destruct (lu <=? _).
Qed.

Lemma getLockoutRemaining_run (w : World) :
  getLockoutRemaining w =
    match lockoutUntil (counter w) with
    | Some lu =>
        if lu =? 0 then (0, w)
        else (Z.max 0 (ceil_div (lu - now w) 1000), tick 1 w)
    | None => (0, w)
    end.
Proof.
  unfold getLockoutRemaining, bind. rewrite getLoginAttempts_run.
  unfold truthy_num. destruct (lockoutUntil (counter w)) as [lu|]; [|reflexivity].
  now destruct (lu =? 0).
Qed.

Lemma recordFailedAttempt_run (w : World) :
  recordFailedAttempt w =
    let c := count (counter w) + 1 in
    if MAX_LOGIN_ATTEMPTS <=? c then
      let a := mkLoginAttempt c (Some (now w + LOCKOUT_DURATION)) in
      (a, with_session (insert "loginAttempts" (JSON_stringify a)) (tick 1 w))
    else
      let a := mkLoginAttempt c (lockoutUntil (counter w)) in
      (a, with_session (insert "loginAttempts" (JSON_stringify a)) w).
Proof.
  unfold recordFailedAttempt, bind. rewrite getLoginAttempts_run.
  cbn [count lockoutUntil]. now destruct (MAX_LOGIN_ATTEMPTS <=? _).
Qed.

Lemma isSessionValid_run (w : World) :
  isSessionValid w =
    match sessionStorage w !! "adminAuth", sessionStorage w !! "adminAuthTime" with
    | Some token, Some authTime =>
        if falsy token || falsy authTime then (false, w)
        else match parseInt10 authTime with
             | Some issued =>
                 if SESSION_DURATION <? now w - issued
                 then (false, signed_out w) else (true, tick 1 w)
             | None => (true, tick 1 w)
             end
    | _, _ => (false, w)
    end.
Proof.
  unfold isSessionValid, bind, sessionStorage_getItem.
  destruct (sessionStorage w !! "adminAuth") as [token|];
    destruct (sessionStorage w !! "adminAuthTime") as [authTime|];
    cbn [falsy_item orb]; try reflexivity.
  - destruct (falsy token || falsy authTime); [reflexivity|].
    cbn [from_option id]. unfold Date_now, now.
    destruct (parseInt10 authTime) as [issued|]; cbn [fmap option_fmap option_map num_gt];
      [|reflexivity].
    now destruct (SESSION_DURATION <? _).
  - now destruct (falsy token).
Qed.

Lemma authenticate_run (pw h : jsstring) (w : World) :
  authenticate pw h w =
    let '(locked, w0) := isLockedOut w in
    if locked then
      let '(remaining, w1) := getLockoutRemaining w0 in
      (locked_result remaining, w1)
    else if verifyPassword pw h then
      (mkAuthResult true None None, signed_in w0)
    else
      let '(attempts, w1) := recordFailedAttempt w0 in
      if truthy_num (lockoutUntil attempts) then
        let '(remaining, w2) := getLockoutRemaining w1 in
        (lockout_result remaining, w2)
      else (incorrect_result (MAX_LOGIN_ATTEMPTS - count attempts), w1).
Proof.
  unfold authenticate, bind.
  destruct (isLockedOut w) as [[|] w0].
  - now destruct (getLockoutRemaining w0).
  - destruct (verifyPassword pw h); [reflexivity|].
    destruct (recordFailedAttempt w0) as [attempts w1].
    destruct (truthy_num (lockoutUntil attempts)); [|reflexivity].
    now destruct (getLockoutRemaining w1).
Qed.

(** ** The lockout check *)

(** Without a lockout stamp the check reads no clock and changes nothing. *)
Lemma isLockedOut_unset (w : World) :
  truthy_num (lockoutUntil (counter w)) = false -> isLockedOut w = (false, w).
Proof.
  intros Hf. rewrite isLockedOut_run. unfold truthy_num in Hf.
  destruct (lockoutUntil (counter w)) as [lu|]; [|reflexivity].
  destruct (lu =? 0); [reflexivity|discriminate].
Qed.

Lemma isLockedOut_clock (w : World) :
  clock (snd (isLockedOut w)) = clock w
  /\ (ticks w <= ticks (snd (isLockedOut w)))%nat.
Proof.
  rewrite isLockedOut_run.
  destruct (lockoutUntil (counter w)) as [lu|]; [|split; [reflexivity|cbn; lia]].
  destruct (lu =? 0); [split; [reflexivity|cbn; lia]|].
  destruct (now w <? lu); [split; [reflexivity|cbn; lia]|].
  destruct (lu <=? _); split; try reflexivity; cbn; lia.
Qed.

(** What the lockout check leaves behind when it answers [false] under a
    clock that does not run backwards. *)
Lemma isLockedOut_false (w w0 : World) :
  monotone_clock w -> isLockedOut w = (false, w0) ->
  clock w0 = clock w /\ (ticks w <= ticks w0)%nat
  /\ truthy_num (lockoutUntil (counter w0)) = false
  /\ (counter w0 = counter w
      \/ counter w0 = no_attempts
         /\ exists lu, lockoutUntil (counter w) = Some lu /\ lu <= now w).
Proof.
  intros Hmono. rewrite isLockedOut_run.
  destruct (lockoutUntil (counter w)) as [lu|] eqn:E.
  2:{ intros [= <-]. rewrite E. repeat split; auto. }
  destruct (Z.eqb_spec lu 0) as [->|Hlu].
  { intros [= <-]. rewrite E. repeat split; auto. }
  destruct (Z.ltb_spec (now w) lu); [discriminate|].
  assert (now w <= clock w (S (ticks w))) by (apply Hmono; lia).
  destruct (Z.leb_spec lu (clock w (S (ticks w)))); [|lia].
  intros [= <-]. rewrite counter_delete. cbn.
  repeat split; try lia. right. split; [reflexivity|]. now exists lu.
Qed.

Lemma isLockedOut_storage (w : World) (k : string) :
  k <> "loginAttempts" ->
  sessionStorage (snd (isLockedOut w)) !! k = sessionStorage w !! k.
Proof.
  intros Hk. rewrite isLockedOut_run.
  destruct (lockoutUntil (counter w)) as [lu|]; [|reflexivity].
  destruct (lu =? 0); [reflexivity|]. destruct (now w <? lu); [reflexivity|].
  destruct (lu <=? _); [|reflexivity]. cbn. now rewrite lookup_delete_ne.
Qed.

Lemma getLockoutRemaining_world (w : World) :
  snd (getLockoutRemaining w) = w \/ snd (getLockoutRemaining w) = tick 1 w.
Proof.
  rewrite getLockoutRemaining_run. destruct (lockoutUntil (counter w)) as [lu|]; [|now left].
  destruct (lu =? 0); [now left|now right].
Qed.

Lemma getLockoutRemaining_storage (w : World) :
  sessionStorage (snd (getLockoutRemaining w)) = sessionStorage w.
Proof. now destruct (getLockoutRemaining_world w) as [->| ->]. Qed.

(** Case analysis on the world a [getLockoutRemaining] in the goal leaves. *)
Ltac remaining_cases :=
  match goal with
  | |- context [getLockoutRemaining ?x] =>
      let E := fresh "E" in
      let rem := fresh "rem" in
      let w1 := fresh "w" in
      destruct (getLockoutRemaining_world x) as [E|E];
      destruct (getLockoutRemaining x) as [rem w1];
      cbn [fst snd] in E |- *; subst w1
  end.

(** ** The paths of [authenticate] *)

Lemma authenticate_success (pw h : jsstring) (w w0 : World) :
  isLockedOut w = (false, w0) -> verifyPassword pw h = true ->
  authenticate pw h w = (mkAuthResult true None None, signed_in w0).
Proof.
  intros Hl Hv. unfold authenticate, bind. now rewrite Hl, Hv.
Qed.

(** While the lockout lasts, [authenticate] answers with the remaining
    time and leaves the storage as it is. *)
Lemma authenticate_locked (pw h : jsstring) (w : World) (lu : Z) :
  lockoutUntil (counter w) = Some lu -> 0 <= now w < lu ->
  authenticate pw h w =
    (locked_result (Z.max 0 (ceil_div (lu - clock w (S (ticks w))) 1000)),
     tick 2 w).
Proof.
  intros E [H0 Hlt]. rewrite authenticate_run, isLockedOut_run, E.
  destruct (Z.eqb_spec lu 0); [lia|].
  destruct (Z.ltb_spec (now w) lu); [|lia].
  rewrite getLockoutRemaining_run, counter_tick, E.
  destruct (Z.eqb_spec lu 0); [lia|]. reflexivity.
Qed.

(** A failed attempt once the lockout check has passed. *)
Lemma authenticate_failure (pw h : jsstring) (w w0 : World) :
  monotone_clock w -> isLockedOut w = (false, w0) ->
  verifyPassword pw h = false -> now w0 + LOCKOUT_DURATION <> 0 ->
  authenticate pw h w =
    let c := count (counter w0) + 1 in
    if MAX_LOGIN_ATTEMPTS <=? c then
      (lockout_result
         (Z.max 0 (ceil_div (now w0 + LOCKOUT_DURATION - clock w0 (S (ticks w0))) 1000)),
       tick 1 (recorded (mkLoginAttempt c (Some (now w0 + LOCKOUT_DURATION))) (tick 1 w0)))
    else
      (incorrect_result (MAX_LOGIN_ATTEMPTS - c),
       recorded (mkLoginAttempt c (lockoutUntil (counter w0))) w0).
Proof.
  intros Hmono Hl Hv Hnz.
  destruct (isLockedOut_false w w0 Hmono Hl) as (_ & _ & Hfalsy & _).
  rewrite authenticate_run, Hl, Hv, recordFailedAttempt_run. cbv zeta.
  destruct (MAX_LOGIN_ATTEMPTS <=? count (counter w0) + 1).
  - cbn [lockoutUntil truthy_num]. destruct (Z.eqb_spec (now w0 + LOCKOUT_DURATION) 0); [lia|].
    cbn [negb]. rewrite getLockoutRemaining_run, counter_insert. cbn [lockoutUntil].
    destruct (Z.eqb_spec (now w0 + LOCKOUT_DURATION) 0); [lia|]. reflexivity.
  - cbn [lockoutUntil count]. now rewrite Hfalsy.
Qed.

(** One failed attempt below the maximum: the count goes up, no clock
    reading is taken. *)
Lemma failed_attempt_below_max (p h : jsstring) (w : World) :
  verifyPassword p h = false ->
  truthy_num (lockoutUntil (counter w)) = false ->
  count (counter w) + 1 < MAX_LOGIN_ATTEMPTS ->
  authenticate p h w
  = (incorrect_result (MAX_LOGIN_ATTEMPTS - (count (counter w) + 1)),
     recorded (mkLoginAttempt (count (counter w) + 1) (lockoutUntil (counter w))) w).
Proof.
  intros Hv Hf Hc.
  rewrite authenticate_run, (isLockedOut_unset w Hf), Hv, recordFailedAttempt_run.
  cbv zeta. destruct (Z.leb_spec MAX_LOGIN_ATTEMPTS (count (counter w) + 1)); [lia|].
  cbn [lockoutUntil count]. now rewrite Hf.
Qed.

(** The attempt that reaches the maximum stamps the lockout. *)
Lemma failed_attempt_at_max (p h : jsstring) (w : World) :
  verifyPassword p h = false ->
  truthy_num (lockoutUntil (counter w)) = false ->
  MAX_LOGIN_ATTEMPTS <= count (counter w) + 1 ->
  0 <= now w ->
  authenticate p h w
  = (lockout_result
       (Z.max 0 (ceil_div (now w + LOCKOUT_DURATION - clock w (S (ticks w))) 1000)),
     tick 1 (recorded (mkLoginAttempt (count (counter w) + 1)
                                      (Some (now w + LOCKOUT_DURATION))) (tick 1 w))).
Proof.
  intros Hv Hf Hc Hnow.
  rewrite authenticate_run, (isLockedOut_unset w Hf), Hv, recordFailedAttempt_run.
  cbv zeta. destruct (Z.leb_spec MAX_LOGIN_ATTEMPTS (count (counter w) + 1)); [|lia].
  cbn [lockoutUntil truthy_num].
  destruct (Z.eqb_spec (now w + LOCKOUT_DURATION) 0); [unfold LOCKOUT_DURATION in *; lia|].
  cbn [negb]. rewrite getLockoutRemaining_run, counter_insert. cbn [lockoutUntil].
  destruct (Z.eqb_spec (now w + LOCKOUT_DURATION) 0); [lia|]. reflexivity.
Qed.

Lemma after_attempts_below_max (ps : list jsstring) (h : jsstring) (w : World) :
  List.Forall (fun p => verifyPassword p h = false) ps ->
  lockoutUntil (counter w) = None ->
  count (counter w) + Z.of_nat (List.length ps) < MAX_LOGIN_ATTEMPTS ->
  counter (after_attempts ps h w)
  = mkLoginAttempt (count (counter w) + Z.of_nat (List.length ps)) None
  /\ clock (after_attempts ps h w) = clock w
  /\ ticks (after_attempts ps h w) = ticks w.
Proof.
  revert w. induction ps as [|p ps IH]; intros w Hps Hl Hc.
  - cbn. rewrite Z.add_0_r. split; [|split; reflexivity].
    destruct (counter w) as [c l]. cbn in *. now subst.
  - inversion Hps as [|? ? Hp Hps']; subst. cbn [List.length] in Hc.
    unfold after_attempts. cbn [List.fold_left].
    fold (after_attempts ps h (snd (authenticate p h w))).
    rewrite failed_attempt_below_max; [|exact Hp|now rewrite Hl|lia].
    cbn [snd]. rewrite Hl.
    destruct (IH (recorded (mkLoginAttempt (count (counter w) + 1) None) w)) as (E1 & E2 & E3).
    + exact Hps'.
    + unfold recorded. now rewrite counter_insert.
    + unfold recorded. rewrite counter_insert. cbn [count]. lia.
    + unfold recorded in *. rewrite counter_insert in E1. cbn [count] in E1.
      rewrite E1, E2, E3. cbn [List.length]. split; [f_equal; lia|]. split; reflexivity.
Qed.

Lemma after_attempts_app (ps qs : list jsstring) (h : jsstring) (w : World) :
  after_attempts (ps ++ qs) h w = after_attempts qs h (after_attempts ps h w).
Proof. unfold after_attempts. apply List.fold_left_app. Qed.

(** A call that does not verify fails and touches no entry but the
    counter's. *)
Lemma authenticate_rejects (pw h : jsstring) (w : World) (k : string) :
  verifyPassword pw h = false -> k <> "loginAttempts" ->
  success (fst (authenticate pw h w)) = false
  /\ sessionStorage (snd (authenticate pw h w)) !! k = sessionStorage w !! k.
Proof.
  intros Hv Hk. rewrite authenticate_run.
  pose proof (isLockedOut_storage w k Hk) as Hl.
  destruct (isLockedOut w) as [[|] w0]; cbn [snd] in Hl.
  - remaining_cases; cbn [fst snd]; (split; [reflexivity|exact Hl]).
  - rewrite Hv, recordFailedAttempt_run. cbv zeta.
    destruct (MAX_LOGIN_ATTEMPTS <=? _); cbn [lockoutUntil];
      (destruct (truthy_num _); [remaining_cases|]); cbn;
      (split; [reflexivity|]); now rewrite lookup_insert_ne by congruence.
Qed.

(** ** The session *)

Lemma token_of_length (w : World) : List.length (token_of w) = 64%nat.
Proof.
  unfold token_of. now rewrite hex_of_bytes_length, List.length_map, List.length_seq.
Qed.

Lemma falsy_length (s : jsstring) : falsy s = true <-> List.length s = 0%nat.
Proof. destruct s; cbn; split; congruence. Qed.

Lemma token_of_truthy (w : World) : falsy (token_of w) = false.
Proof.
  pose proof (token_of_length w). destruct (token_of w); [discriminate|reflexivity].
Qed.

Lemma isSessionValid_signed_in (w : World) :
  isSessionValid (signed_in w) =
    if SESSION_DURATION <? now (signed_in w) - now w
    then (false, signed_out (signed_in w)) else (true, tick 1 (signed_in w)).
Proof.
  rewrite isSessionValid_run.
  assert (E1 : sessionStorage (signed_in w) !! "adminAuth" = Some (token_of w)).
  { unfold signed_in. cbn [sessionStorage].
    rewrite lookup_insert_ne by discriminate. apply lookup_insert_eq. }
  assert (E2 : sessionStorage (signed_in w) !! "adminAuthTime"
               = Some (Number_toString (now w))).
  { unfold signed_in. cbn [sessionStorage]. apply lookup_insert_eq. }
  rewrite E1, E2, token_of_truthy, Number_toString_truthy, parseInt10_toString.
  reflexivity.
Qed.

(** The answer of [isSessionValid] depends on the two session entries and
    on the clock reading only. *)
Lemma isSessionValid_ext (w w' : World) :
  sessionStorage w !! "adminAuth" = sessionStorage w' !! "adminAuth" ->
  sessionStorage w !! "adminAuthTime" = sessionStorage w' !! "adminAuthTime" ->
  now w = now w' ->
  fst (isSessionValid w) = fst (isSessionValid w').
Proof.
  intros E1 E2 E3. rewrite !isSessionValid_run, E1, E2, E3.
  destruct (sessionStorage w' !! "adminAuth") as [token|]; [|reflexivity].
  destruct (sessionStorage w' !! "adminAuthTime") as [authTime|]; [|reflexivity].
  destruct (falsy token || falsy authTime); [reflexivity|].
  destruct (parseInt10 authTime) as [issued|]; [|reflexivity].
  now destruct (SESSION_DURATION <? now w' - issued).
Qed.

Lemma isSessionValid_counter (w : World) :
  counter (snd (isSessionValid w)) = counter w
  /\ clock (snd (isSessionValid w)) = clock w
  /\ (ticks w <= ticks (snd (isSessionValid w)))%nat.
Proof.
  rewrite isSessionValid_run.
  destruct (sessionStorage w !! "adminAuth") as [token|]; [|repeat split; cbn; lia].
  destruct (sessionStorage w !! "adminAuthTime") as [authTime|]; [|repeat split; cbn; lia].
  destruct (falsy token || falsy authTime); [repeat split; cbn; lia|].
  assert (Hout : counter (signed_out w) = counter w).
  { apply counter_ext. unfold signed_out. cbn [with_session sessionStorage tick].
    now rewrite !lookup_delete_ne by discriminate. }
  destruct (parseInt10 authTime) as [issued|].
  - destruct (SESSION_DURATION <? now w - issued); cbn [snd].
    + split; [exact Hout|]. split; [reflexivity|cbn; lia].
    + split; [apply counter_tick|]. split; [reflexivity|cbn; lia].
  - cbn [snd]. split; [apply counter_tick|]. split; [reflexivity|cbn; lia].
Qed.

Lemma clearSession_counter (w : World) :
  counter (snd (clearSession w)) = counter w
  /\ clock (snd (clearSession w)) = clock w
  /\ (ticks w <= ticks (snd (clearSession w)))%nat.
Proof.
  split; [|split; [reflexivity|cbn; lia]].
  apply counter_ext. cbn. now rewrite !lookup_delete_ne by discriminate.
Qed.

(** ** Sequences of operations *)

(** Every operation leaves the clock as it is and only moves forward in
    its readings. *)
Lemma run_clock (op : GateOp) (w : World) :
  clock (run op w) = clock w /\ (ticks w <= ticks (run op w))%nat.
Proof.
  destruct op as [pw h| | | |]; cbn [run].
  - rewrite authenticate_run.
    destruct (isLockedOut_clock w) as [Hc Ht].
    destruct (isLockedOut w) as [[|] w0]; cbn [snd] in Hc, Ht.
    + remaining_cases; cbn; split; auto; lia.
    + destruct (verifyPassword pw h); [cbn; split; auto; lia|].
      rewrite recordFailedAttempt_run. cbv zeta.
      destruct (MAX_LOGIN_ATTEMPTS <=? _); cbn [lockoutUntil];
        (destruct (truthy_num _); [remaining_cases|]); cbn; split; auto; lia.
  - destruct (isSessionValid_counter w) as (_ & ? & ?). now split.
  - destruct (clearSession_counter w) as (_ & ? & ?). now split.
  - apply isLockedOut_clock.
  - destruct (getLockoutRemaining_world w) as [->| ->]; cbn; split; auto; lia.
Qed.

Lemma run_all_clock (ops : list GateOp) (w : World) :
  clock (run_all ops w) = clock w.
Proof.
  revert w. induction ops as [|op ops IH]; intros w; [reflexivity|].
  unfold run_all. cbn [List.fold_left]. fold (run_all ops (run op w)).
  rewrite IH. apply run_clock.
Qed.

(** The session operations and [getLockoutRemaining] leave the counter as
    it is, whatever the time. *)
Lemma run_keeps_counter (op : GateOp) (w : World) :
  match op with
  | OpIsSessionValid | OpClearSession | OpGetLockoutRemaining =>
      counter (run op w) = counter w
  | OpAuthenticate _ _ | OpIsLockedOut => True
  end.
Proof.
  destruct op as [pw h| | | |]; cbn [run]; try exact I.
  - apply isSessionValid_counter.
  - apply clearSession_counter.
  - destruct (getLockoutRemaining_world w) as [->| ->]; now rewrite ?counter_tick.
Qed.

(** One operation: the invariant is kept, and the counter moves as the
    data model says. *)
Lemma run_counter (op : GateOp) (w : World) :
  monotone_clock w -> epoch_clock w -> counter_inv (counter w) ->
  counter_inv (counter (run op w))
  /\ (succeeds op w = true -> counter (run op w) = no_attempts)
  /\ (forall lu, lockoutUntil (counter w) = Some lu -> lu <= now w ->
      match op with
      | OpIsLockedOut => counter (run op w) = no_attempts
      | OpAuthenticate _ _ =>
          counter (run op w) = no_attempts
          \/ counter (run op w) = mkLoginAttempt 1 None
      | _ => True
      end)
  /\ (count (counter (run op w)) = MAX_LOGIN_ATTEMPTS ->
      count (counter w) < MAX_LOGIN_ATTEMPTS ->
      exists t, lockoutUntil (counter (run op w)) = Some (t + LOCKOUT_DURATION))
  /\ (lockoutUntil (counter w) = None ->
      lockoutUntil (counter (run op w)) <> None ->
      count (counter (run op w)) = MAX_LOGIN_ATTEMPTS).
Proof.
  intros Hmono Hepoch Hinv.
  assert (Hsame : forall w', counter w' = counter w ->
            counter_inv (counter w')
            /\ (count (counter w') = MAX_LOGIN_ATTEMPTS ->
                count (counter w) < MAX_LOGIN_ATTEMPTS ->
                exists t, lockoutUntil (counter w') = Some (t + LOCKOUT_DURATION))
            /\ (lockoutUntil (counter w) = None ->
                lockoutUntil (counter w') <> None ->
                count (counter w') = MAX_LOGIN_ATTEMPTS)).
  { intros w' ->. split; [exact Hinv|]. split; [lia|congruence]. }
  assert (Hreset : forall w', counter w' = no_attempts ->
            counter_inv (counter w')
            /\ (count (counter w') = MAX_LOGIN_ATTEMPTS ->
                count (counter w) < MAX_LOGIN_ATTEMPTS ->
                exists t, lockoutUntil (counter w') = Some (t + LOCKOUT_DURATION))
            /\ (lockoutUntil (counter w) = None ->
                lockoutUntil (counter w') <> None ->
                count (counter w') = MAX_LOGIN_ATTEMPTS)).
  { intros w' ->. split; [apply counter_inv_no_attempts|].
    split; [discriminate|]. intros _ H. now destruct H. }
  destruct op as [pw h| | | |]; cbn [run succeeds].
  - (* authenticate *)
    rewrite authenticate_run.
    destruct (isLockedOut w) as [[|] w0] eqn:El.
    + (* locked *)
      pose proof El as El'. rewrite isLockedOut_run in El'.
      destruct (lockoutUntil (counter w)) as [lu|] eqn:E; [|discriminate].
      destruct (lu =? 0); [discriminate|].
      destruct (Z.ltb_spec (now w) lu); [|now destruct (lu <=? _)].
      injection El' as <-.
      assert (Hc : counter (snd (getLockoutRemaining (tick 1 w))) = counter w).
      { destruct (getLockoutRemaining_world (tick 1 w)) as [->| ->];
          now rewrite ?counter_tick. }
      destruct (getLockoutRemaining (tick 1 w)) as [rem w1]. cbn [fst snd] in *.
      destruct (Hsame w1 Hc) as (H1 & H2 & H3).
      split; [exact H1|]. split; [discriminate|]. split; [|split; assumption].
      intros lu' [= <-] Hpast. lia.
    + destruct (isLockedOut_false w w0 Hmono El) as (Hclock & Hticks & Hfalsy & Hcounter).
      assert (Hnow0 : 0 <= now w0) by (unfold now; rewrite Hclock; apply Hepoch).
      assert (Hinv0 : counter_inv (counter w0)).
      { destruct Hcounter as [->|[-> _]]; [exact Hinv|apply counter_inv_no_attempts]. }
      destruct (counter_inv_falsy _ Hinv0 Hfalsy) as (Hnone & Hcount).
      destruct (verifyPassword pw h) eqn:Hv; cbn [fst snd success].
      * (* success *)
        destruct (Hreset _ (counter_signed_in w0)) as (H1 & H2 & H3).
        split; [exact H1|]. split; [intros _; apply counter_signed_in|].
        split; [|split; assumption].
        intros lu E Hpast. left. apply counter_signed_in.
      * (* failure *)
        rewrite recordFailedAttempt_run. cbv zeta. rewrite Hnone.
        destruct (Z.leb_spec MAX_LOGIN_ATTEMPTS (count (counter w0) + 1)) as [Hmax|Hmax];
          cbn [lockoutUntil truthy_num count].
        -- destruct (Z.eqb_spec (now w0 + LOCKOUT_DURATION) 0);
             [unfold LOCKOUT_DURATION in *; lia|]. cbn [negb].
           match goal with |- context [getLockoutRemaining ?x] =>
             assert (Hc : counter (snd (getLockoutRemaining x))
                          = mkLoginAttempt (count (counter w0) + 1)
                                           (Some (now w0 + LOCKOUT_DURATION)));
             [destruct (getLockoutRemaining_world x) as [->| ->];
              rewrite ?counter_tick; apply counter_insert|];
             destruct (getLockoutRemaining x) as [rem w1]
           end.
           cbn [fst snd] in *. rewrite Hc. unfold counter_inv. cbn [count lockoutUntil].
           split; [split; [lia|split; [lia|assumption]]|].
           split; [discriminate|]. split; [|split].
           ++ intros lu E Hpast. exfalso.
              destruct Hcounter as [Hc0|[Hc0 _]]; rewrite Hc0 in *.
              ** rewrite E in Hnone. discriminate.
              ** unfold no_attempts, MAX_LOGIN_ATTEMPTS in Hmax. cbn in Hmax. lia.
           ++ intros _ _. now eexists.
           ++ intros _ _. lia.
        -- cbn [fst snd success]. rewrite counter_insert.
           unfold counter_inv. cbn [count lockoutUntil].
           split; [split; [lia|lia]|]. split; [discriminate|]. split; [|split].
           ++ intros lu E Hpast. right.
              destruct Hcounter as [Hc0|[Hc0 _]]; rewrite Hc0 in *.
              ** rewrite E in Hnone. discriminate.
              ** reflexivity.
           ++ lia.
           ++ congruence.
  - destruct (isSessionValid_counter w) as (Hc & _).
    destruct (Hsame _ Hc) as (H1 & H2 & H3).
    split; [exact H1|]. split; [discriminate|]. split; [trivial|]. split; assumption.
  - destruct (clearSession_counter w) as (Hc & _).
    destruct (Hsame _ Hc) as (H1 & H2 & H3).
    split; [exact H1|]. split; [discriminate|]. split; [trivial|]. split; assumption.
  - (* isLockedOut *)
    rewrite isLockedOut_run.
    destruct (lockoutUntil (counter w)) as [lu|] eqn:E.
    2:{ cbn [snd]. destruct (Hsame w eq_refl) as (H1 & H2 & H3).
        split; [exact H1|]. split; [discriminate|]. split; [discriminate|]. split; assumption. }
    destruct Hinv as [Hc0 Hinv']. rewrite E in Hinv'. destruct Hinv' as [Hc5 Hlu].
    destruct (Z.eqb_spec lu 0); [congruence|].
    destruct (Z.ltb_spec (now w) lu).
    + cbn [snd]. destruct (Hsame (tick 1 w) (counter_tick 1 w)) as (H1 & H2 & H3).
      split; [apply H1|]. split; [discriminate|]. split; [|split; assumption].
      intros lu' [= <-] Hpast. lia.
    + assert (now w <= clock w (S (ticks w))) by (apply Hmono; lia).
      destruct (Z.leb_spec lu (clock w (S (ticks w)))); [|lia]. cbn [snd].
      destruct (Hreset _ (counter_delete (tick 2 w))) as (R1 & R2 & R3).
      split; [exact R1|]. split; [discriminate|]. split; [|split; assumption].
      intros _ _ _. apply counter_delete.
  - assert (Hc : counter (snd (getLockoutRemaining w)) = counter w).
    { destruct (getLockoutRemaining_world w) as [->| ->]; now rewrite ?counter_tick. }
    destruct (Hsame _ Hc) as (H1 & H2 & H3).
    split; [exact H1|]. split; [discriminate|]. split; [trivial|]. split; assumption.
Qed.

Lemma run_all_counter_inv (ops : list GateOp) (w : World) :
  monotone_clock w -> epoch_clock w -> counter_inv (counter w) ->
  counter_inv (counter (run_all ops w)).
Proof.
  revert w. induction ops as [|op ops IH]; intros w Hmono Hepoch Hinv; [exact Hinv|].
  unfold run_all. cbn [List.fold_left]. fold (run_all ops (run op w)).
  destruct (run_clock op w) as [Hc _].
  apply IH.
  - unfold monotone_clock. rewrite Hc. exact Hmono.
  - unfold epoch_clock. rewrite Hc. exact Hepoch.
  - now apply run_counter.
Qed.

(** What an operation does to the [loginAttempts] entry: nothing, remove
    it, or write a counter. *)
Lemma run_entry (op : GateOp) (w : World) :
  sessionStorage (run op w) !! "loginAttempts" = sessionStorage w !! "loginAttempts"
  \/ sessionStorage (run op w) !! "loginAttempts" = None
  \/ exists a, sessionStorage (run op w) !! "loginAttempts" = Some (JSON_stringify a).
Proof.
  assert (Hlock : forall w,
            sessionStorage (snd (isLockedOut w)) !! "loginAttempts"
            = sessionStorage w !! "loginAttempts"
            \/ sessionStorage (snd (isLockedOut w)) !! "loginAttempts" = None).
  { intros w'. rewrite isLockedOut_run.
    destruct (lockoutUntil (counter w')) as [lu|]; [|now left].
    destruct (lu =? 0); [now left|]. destruct (now w' <? lu); [now left|].
    destruct (lu <=? _); [right|now left]. cbn. apply lookup_delete_eq. }
  destruct op as [pw h| | | |]; cbn [run].
  - rewrite authenticate_run. specialize (Hlock w).
    destruct (isLockedOut w) as [[|] w0]; cbn [snd] in Hlock.
    + pose proof (getLockoutRemaining_storage w0) as Hg.
      destruct (getLockoutRemaining w0) as [rem w1]. cbn [fst snd] in *. rewrite Hg.
      destruct Hlock as [->| ->]; auto.
    + destruct (verifyPassword pw h).
      * right. left. cbn [snd signed_in sessionStorage].
        rewrite !lookup_insert_ne by discriminate. apply lookup_delete_eq.
      * right. right. rewrite recordFailedAttempt_run. cbv zeta.
        destruct (MAX_LOGIN_ATTEMPTS <=? _); cbn [lockoutUntil];
          (destruct (truthy_num _);
           [match goal with |- context [getLockoutRemaining ?x] =>
              pose proof (getLockoutRemaining_storage x) as Hg;
              destruct (getLockoutRemaining x) as [rem w1]; cbn [fst snd] in *; rewrite Hg
            end|]);
          cbn [snd with_session sessionStorage tick]; eexists; apply lookup_insert_eq.
  - left. rewrite isSessionValid_run.
    destruct (sessionStorage w !! "adminAuth") as [token|]; [|reflexivity].
    destruct (sessionStorage w !! "adminAuthTime") as [authTime|]; [|reflexivity].
    destruct (falsy token || falsy authTime); [reflexivity|].
    destruct (parseInt10 authTime) as [issued|]; [|reflexivity].
    destruct (SESSION_DURATION <? _); [|reflexivity].
    cbn. now rewrite !lookup_delete_ne by discriminate.
  - left. cbn. now rewrite !lookup_delete_ne by discriminate.
  - destruct (Hlock w); auto.
  - left. now rewrite getLockoutRemaining_storage.
Qed.

(** Every operation keeps the entry readable: from a fresh tab on, the
    gate only meets counters it wrote itself. *)
Lemma run_entry_readable (op : GateOp) (w : World) :
  counter_entry_readable w = true -> counter_entry_readable (run op w) = true.
Proof.
  intros Hw. unfold counter_entry_readable in *.
  destruct (run_entry op w) as [->|[->|(a & ->)]]; [exact Hw|reflexivity|].
  rewrite JSON_parse_stringify. apply orb_true_iff. right.
  apply bool_decide_eq_true_2. now eexists.
Qed.

Lemma run_all_entry_readable (ops : list GateOp) (w : World) :
  counter_entry_readable w = true -> counter_entry_readable (run_all ops w) = true.
Proof.
  revert w. induction ops as [|op ops IH]; intros w Hw; [exact Hw|].
  unfold run_all. cbn [List.fold_left]. fold (run_all ops (run op w)).
  now apply IH, run_entry_readable.
Qed.

(** ** The config store *)

Lemma configSchema_parse_id (v : jsstring -> bool) (c c' : Config.AppConfig) :
  Config.configSchema_parse v c = Some c' -> c' = c.
Proof.
  unfold Config.configSchema_parse.
  destruct (_ && _); [|discriminate]. now intros [= <-].
Qed.

(** * The claims of the specification *)

(** [C1], as amended.  For every non-empty password [P], in a world that
    is not locked out, [authenticate(P, digest(P))] returns the success
    result and stores a 64-character token and the issue time, and
    [isSessionValid()], called afterwards no more than thirty minutes after
    the call began, returns [true]. *)
Theorem authenticate_accepts_digest (P : jsstring) (w : World) :
  P <> [] ->
  fst (isLockedOut w) = false ->
  monotone_clock w ->
  now (snd (authenticate P (hashPassword P) w)) - now w <= SESSION_DURATION ->
  let '(r, w1) := authenticate P (hashPassword P) w in
  r = mkAuthResult true None None
  /\ (exists token t,
        sessionStorage w1 !! "adminAuth" = Some token /\ List.length token = 64%nat
        /\ sessionStorage w1 !! "adminAuthTime" = Some (Number_toString t))
  /\ fst (isSessionValid w1) = true.
Proof.
  intros HP Hlock Hmono Hsoon.
  destruct (isLockedOut w) as [locked w0] eqn:El. cbn [fst] in Hlock. subst locked.
  assert (Hv : verifyPassword P (hashPassword P) = true).
  { rewrite verifyPassword_digest. now destruct P. }
  rewrite (authenticate_success _ _ _ _ El Hv) in *. cbn [snd] in Hsoon.
  split; [reflexivity|]. split.
  - exists (token_of w0), (now w0). split; [|split].
    + unfold signed_in. cbn [sessionStorage].
      rewrite lookup_insert_ne by discriminate. apply lookup_insert_eq.
    + apply token_of_length.
    + unfold signed_in. cbn [sessionStorage]. apply lookup_insert_eq.
  - rewrite isSessionValid_signed_in.
    destruct (isLockedOut_clock w) as [Hc Ht]. rewrite El in Hc, Ht. cbn [snd] in Hc, Ht.
    assert (now w <= now w0).
    { unfold now. rewrite Hc. now apply Hmono. }
    destruct (Z.ltb_spec SESSION_DURATION (now (signed_in w0) - now w0)); [lia|reflexivity].
Qed.

(** The password "correct" in a fresh tab. *)
Lemma authenticate_accepts_digest_witness :
  let '(r, w1) := authenticate (js "correct") (hashPassword (js "correct")) fresh_tab in
  r = mkAuthResult true None None
  /\ (exists token t,
        sessionStorage w1 !! "adminAuth" = Some token /\ List.length token = 64%nat
        /\ sessionStorage w1 !! "adminAuthTime" = Some (Number_toString t))
  /\ fst (isSessionValid w1) = true.
Proof.
  apply (authenticate_accepts_digest (js "correct") fresh_tab).
  - discriminate.
  - vm_compute. reflexivity.
  - intros i j Hij. cbn. lia.
  - vm_compute. discriminate.
Defined.

(** The empty password, which [C1] includes: [verifyPassword] answers
    [false] before any digest is compared, the attempt is counted as a
    failure and no session is created. *)
Lemma authenticate_rejects_empty_password :
  fst (isLockedOut fresh_tab) = false
  /\ fst (authenticate [] (hashPassword []) fresh_tab)
     = mkAuthResult false (Some (js "Incorrect password. 4 attempts remaining.")) None
  /\ fst (isSessionValid (snd (authenticate [] (hashPassword []) fresh_tab))) = false.
Proof. vm_compute. repeat split; reflexivity. Qed.

(** [C2].  While [lockoutUntil] is set and in the future, every
    [authenticate] call, whatever the password, returns the failure result
    that carries the remaining seconds, and leaves [sessionStorage], hence
    the counter, as it was.  After five failed attempts on a cleared
    counter, and not before, [isLockedOut()] is true, and a sixth call
    fails without touching the counter. *)
Theorem lockout_rejects_without_consuming :
  (forall (w : World) (lu : Z) (pw h : jsstring),
      lockoutUntil (counter w) = Some lu -> 0 <= now w < lu ->
      let '(r, w') := authenticate pw h w in
      r = locked_result (Z.max 0 (ceil_div (lu - clock w (S (ticks w))) 1000))
      /\ sessionStorage w' = sessionStorage w
      /\ counter w' = counter w)
  /\ (forall (w : World) (ps : list jsstring) (pw h : jsstring),
      counter w = no_attempts ->
      List.length ps = 5%nat ->
      List.Forall (fun p => verifyPassword p h = false) ps ->
      0 <= now w -> within LOCKOUT_DURATION 4 w ->
      let w5 := after_attempts ps h w in
      (forall k, (k < 5)%nat -> fst (isLockedOut (after_attempts (List.firstn k ps) h w)) = false)
      /\ counter w5 = mkLoginAttempt 5 (Some (now w + LOCKOUT_DURATION))
      /\ fst (isLockedOut w5) = true
      /\ let '(r, w6) := authenticate pw h w5 in
         success r = false
         /\ (exists remaining, lockoutRemaining r = Some remaining)
         /\ sessionStorage w6 = sessionStorage w5
         /\ counter w6 = counter w5).
Proof.
  split.
  - intros w lu pw h E Hnow. rewrite (authenticate_locked pw h w lu E Hnow).
    split; [reflexivity|]. split; [reflexivity|]. apply counter_tick.
  - intros w ps pw h Hw Hlen Hps Hnow Hwithin w5.
    assert (Hfirst : forall k, (k < 5)%nat ->
              counter (after_attempts (List.firstn k ps) h w) = mkLoginAttempt (Z.of_nat k) None
              /\ clock (after_attempts (List.firstn k ps) h w) = clock w
              /\ ticks (after_attempts (List.firstn k ps) h w) = ticks w).
    { intros k Hk.
      destruct (after_attempts_below_max (List.firstn k ps) h w) as (E1 & E2 & E3).
      - now apply Forall_take.
      - now rewrite Hw.
      - rewrite Hw, List.length_firstn, Hlen. unfold no_attempts, MAX_LOGIN_ATTEMPTS.
        cbn [count]. lia.
      - rewrite E1, E2, E3, Hw, List.length_firstn, Hlen. unfold no_attempts. cbn [count].
        split; [f_equal; lia|]. split; reflexivity. }
    assert (Hsplit : exists p5, ps = List.firstn 4 ps ++ [p5] /\ verifyPassword p5 h = false).
    { destruct ps as [|p1 [|p2 [|p3 [|p4 [|p5 [|p6 ps]]]]]]; try discriminate.
      exists p5. split; [reflexivity|].
      repeat match goal with H : List.Forall _ (_ :: _) |- _ => inversion H; subst; clear H end.
      assumption. }
    destruct Hsplit as (p5 & Eps & Hp5).
    destruct (Hfirst 4%nat ltac:(lia)) as (E1 & E2 & E3).
    set (w4 := after_attempts (List.firstn 4 ps) h w) in *.
    assert (Hnow4 : now w4 = now w) by (unfold now; now rewrite E2, E3).
    assert (E5 : authenticate p5 h w4
                 = (lockout_result
                      (Z.max 0 (ceil_div (now w + LOCKOUT_DURATION - clock w (S (ticks w))) 1000)),
                    tick 1 (recorded (mkLoginAttempt 5 (Some (now w + LOCKOUT_DURATION)))
                                     (tick 1 w4)))).
    { rewrite failed_attempt_at_max; rewrite ?E1, ?E2, ?E3, ?Hnow4; cbn [count lockoutUntil];
        try reflexivity; try assumption. }
    assert (Hw5 : w5 = tick 1 (recorded (mkLoginAttempt 5 (Some (now w + LOCKOUT_DURATION)))
                                        (tick 1 w4))).
    { unfold w5. rewrite Eps, after_attempts_app. fold w4.
      unfold after_attempts at 1. cbn [List.fold_left]. now rewrite E5. }
    assert (Hc5 : counter w5 = mkLoginAttempt 5 (Some (now w + LOCKOUT_DURATION))).
    { rewrite Hw5, counter_tick. unfold recorded. apply counter_insert. }
    assert (Hnow5 : 0 <= now w5 < now w + LOCKOUT_DURATION).
    { rewrite Hw5. unfold within, now in *. unfold tick, recorded. cbn. rewrite E2, E3.
      specialize (Hwithin (S (S (ticks w))) ltac:(lia)). lia. }
    split; [|split; [exact Hc5|split]].
    + intros k Hk. destruct (Hfirst k Hk) as (Ek & _ & _).
      rewrite isLockedOut_run, Ek. reflexivity.
    + rewrite isLockedOut_run, Hc5. cbn [lockoutUntil].
      destruct (Z.eqb_spec (now w + LOCKOUT_DURATION) 0); [lia|].
      destruct (Z.ltb_spec (now w5) (now w + LOCKOUT_DURATION)); [reflexivity|lia].
    + rewrite (authenticate_locked pw h w5 (now w + LOCKOUT_DURATION)); [|now rewrite Hc5|lia].
      split; [reflexivity|]. split; [eexists; reflexivity|]. split; [reflexivity|].
      apply counter_tick.
Qed.

(** Five wrong passwords in a fresh tab, then the right one. *)
Lemma lockout_rejects_without_consuming_witness :
  fst (isLockedOut (after_attempts five_wrong (hashPassword (js "correct")) fresh_tab)) = true
  /\ let '(r, w6) := authenticate (js "correct") (hashPassword (js "correct"))
                       (after_attempts five_wrong (hashPassword (js "correct")) fresh_tab) in
     success r = false
     /\ (exists remaining, lockoutRemaining r = Some remaining)
     /\ sessionStorage w6
        = sessionStorage (after_attempts five_wrong (hashPassword (js "correct")) fresh_tab)
     /\ counter w6
        = counter (after_attempts five_wrong (hashPassword (js "correct")) fresh_tab).
Proof.
  refine (proj2 (proj2 (proj2 lockout_rejects_without_consuming fresh_tab five_wrong
                          (js "correct") (hashPassword (js "correct")) _ _ _ _ _))).
  - vm_compute. reflexivity.
  - reflexivity.
  - repeat (apply List.Forall_cons; [vm_compute; reflexivity|]). apply List.Forall_nil.
  - vm_compute. discriminate.
  - unfold within, now, LOCKOUT_DURATION. cbn. intros i Hi. lia.
Defined.

(** [C3], as amended.  [isSessionValid()] returns [false] and changes
    nothing when no session is stored; for a stored session it deletes the
    two session entries and returns [false] when [now - issuedAt] is
    greater than thirty minutes, and returns [true], leaving the entries,
    otherwise.  A session issued at [T] is valid at [T + 29m59s], still
    valid at exactly [T + 30m], and invalid at [T + 30m01s]. *)
Theorem isSessionValid_expiry (w : World) :
  (falsy_item (sessionStorage w !! "adminAuth")
   || falsy_item (sessionStorage w !! "adminAuthTime") = true ->
   isSessionValid w = (false, w))
  /\ (forall token authTime issuedAt,
        sessionStorage w !! "adminAuth" = Some token -> token <> [] ->
        sessionStorage w !! "adminAuthTime" = Some authTime -> authTime <> [] ->
        parseInt10 authTime = Some issuedAt ->
        (SESSION_DURATION < now w - issuedAt ->
         fst (isSessionValid w) = false
         /\ sessionStorage (snd (isSessionValid w))
            = delete "adminAuthTime" (delete "adminAuth" (sessionStorage w)))
        /\ (now w - issuedAt <= SESSION_DURATION ->
            fst (isSessionValid w) = true
            /\ sessionStorage (snd (isSessionValid w)) = sessionStorage w))
  /\ (forall token T,
        sessionStorage w !! "adminAuth" = Some token -> token <> [] ->
        sessionStorage w !! "adminAuthTime" = Some (Number_toString T) ->
        (now w = T + (29 * 60 + 59) * 1000 -> fst (isSessionValid w) = true)
        /\ (now w = T + 30 * 60 * 1000 -> fst (isSessionValid w) = true)
        /\ (now w = T + (30 * 60 + 1) * 1000 -> fst (isSessionValid w) = false)).
Proof.
  assert (Hmain : forall token authTime issuedAt,
        sessionStorage w !! "adminAuth" = Some token -> token <> [] ->
        sessionStorage w !! "adminAuthTime" = Some authTime -> authTime <> [] ->
        parseInt10 authTime = Some issuedAt ->
        isSessionValid w = if SESSION_DURATION <? now w - issuedAt
                           then (false, signed_out w) else (true, tick 1 w)).
  { intros token authTime issuedAt E1 H1 E2 H2 Hp.
    rewrite isSessionValid_run, E1, E2, Hp.
    destruct token; [congruence|]. destruct authTime; [congruence|]. reflexivity. }
  split; [|split].
  - intros H. rewrite isSessionValid_run.
    destruct (sessionStorage w !! "adminAuth") as [token|]; [|reflexivity].
    destruct (sessionStorage w !! "adminAuthTime") as [authTime|]; [|reflexivity].
    cbn [falsy_item] in H. now rewrite H.
  - intros token authTime issuedAt E1 H1 E2 H2 Hp.
    rewrite (Hmain _ _ _ E1 H1 E2 H2 Hp).
    destruct (Z.ltb_spec SESSION_DURATION (now w - issuedAt)); split; intros; try lia;
      split; reflexivity.
  - intros token T E1 H1 E2.
    rewrite (Hmain _ _ _ E1 H1 E2 (Number_toString_nonempty T) (parseInt10_toString T)).
    unfold SESSION_DURATION.
    destruct (Z.ltb_spec (30 * 60 * 1000) (now w - T)); repeat split; intros; try reflexivity; lia.
Qed.

(** A session checked one millisecond after its thirty minutes. *)
Lemma isSessionValid_expiry_witness :
  (SESSION_DURATION < now (tab_with_session 1700000000000 1700001800001) - 1700000000000 ->
   fst (isSessionValid (tab_with_session 1700000000000 1700001800001)) = false
   /\ sessionStorage (snd (isSessionValid (tab_with_session 1700000000000 1700001800001)))
      = delete "adminAuthTime"
          (delete "adminAuth" (sessionStorage (tab_with_session 1700000000000 1700001800001))))
  /\ (now (tab_with_session 1700000000000 1700001800001) - 1700000000000 <= SESSION_DURATION ->
      fst (isSessionValid (tab_with_session 1700000000000 1700001800001)) = true
      /\ sessionStorage (snd (isSessionValid (tab_with_session 1700000000000 1700001800001)))
         = sessionStorage (tab_with_session 1700000000000 1700001800001)).
Proof.
  apply (proj1 (proj2 (isSessionValid_expiry (tab_with_session 1700000000000 1700001800001)))
           (js "c0ffee") (Number_toString 1700000000000) 1700000000000).
  - vm_compute. reflexivity.
  - discriminate.
  - vm_compute. reflexivity.
  - vm_compute. discriminate.
  - vm_compute. reflexivity.
Defined.

(** The boundary that [C3] counts as invalid: at exactly thirty minutes the
    test [elapsed > SESSION_DURATION] fails, the session is valid and its
    entries stay. *)
Lemma session_valid_at_exactly_30_minutes :
  sessionStorage (tab_with_session 1700000000000 1700001800000) !! "adminAuthTime"
    = Some (js "1700000000000")
  /\ now (tab_with_session 1700000000000 1700001800000) - 1700000000000 = 30 * 60 * 1000
  /\ fst (isSessionValid (tab_with_session 1700000000000 1700001800000)) = true
  /\ sessionStorage (snd (isSessionValid (tab_with_session 1700000000000 1700001800000)))
       !! "adminAuth" = Some (js "c0ffee").
Proof. vm_compute. repeat split; reflexivity. Qed.

(** A stored issue time in which [parseInt] finds no digit makes the
    elapsed time [NaN], which is not greater than the duration: the session
    is taken as valid. *)
Remark session_with_unreadable_time (w : World) (token authTime : jsstring) :
  sessionStorage w !! "adminAuth" = Some token -> token <> [] ->
  sessionStorage w !! "adminAuthTime" = Some authTime -> authTime <> [] ->
  parseInt10 authTime = None ->
  isSessionValid w = (true, tick 1 w).
Proof.
  intros E1 H1 E2 H2 Hp. rewrite isSessionValid_run, E1, E2, Hp.
  destruct token; [congruence|]. destruct authTime; [congruence|]. reflexivity.
Qed.

(** [C4].  In every state the gate reaches from one that satisfies
    [counter_inv], and after one more operation, [lockoutUntil] is set
    exactly when [count] is 5.  A successful [authenticate] resets the
    counter; so does [isLockedOut()] when it reads a lockout that has
    passed ([authenticate] then leaves a count of 0 or 1); a transition
    that brings [count] to 5 sets [lockoutUntil], and [lockoutUntil] is
    never set by a transition that leaves [count] below 5.  The other
    operations, [getLockoutRemaining()] among them, only read the
    counter. *)
Theorem attempt_counter_invariant (ops : list GateOp) (op : GateOp) (w : World) :
  monotone_clock w -> epoch_clock w -> counter_inv (counter w) ->
  let w1 := run_all ops w in
  let w2 := run op w1 in
  counter_inv (counter w1)
  /\ counter_inv (counter w2)
  /\ (succeeds op w1 = true -> counter w2 = no_attempts)
  /\ (forall lu, lockoutUntil (counter w1) = Some lu -> lu <= now w1 ->
      match op with
      | OpIsLockedOut => counter w2 = no_attempts
      | OpAuthenticate _ _ =>
          counter w2 = no_attempts \/ counter w2 = mkLoginAttempt 1 None
      | _ => True
      end)
  /\ (count (counter w2) = MAX_LOGIN_ATTEMPTS ->
      count (counter w1) < MAX_LOGIN_ATTEMPTS ->
      exists t, lockoutUntil (counter w2) = Some (t + LOCKOUT_DURATION))
  /\ (lockoutUntil (counter w1) = None ->
      lockoutUntil (counter w2) <> None ->
      count (counter w2) = MAX_LOGIN_ATTEMPTS)
  /\ match op with
     | OpIsSessionValid | OpClearSession | OpGetLockoutRemaining =>
         counter w2 = counter w1
     | OpAuthenticate _ _ | OpIsLockedOut => True
     end.
Proof.
  intros Hmono Hepoch Hinv w1 w2.
  assert (Hinv1 : counter_inv (counter w1)) by now apply run_all_counter_inv.
  destruct (run_counter op w1) as (H1 & H2 & H3 & H4 & H5).
  - unfold monotone_clock, w1. rewrite run_all_clock. exact Hmono.
  - unfold epoch_clock, w1. rewrite run_all_clock. exact Hepoch.
  - exact Hinv1.
  - repeat (split; [assumption|]). apply run_keeps_counter.
Qed.

(** Four failed attempts in a fresh tab, then a fifth. *)
Lemma attempt_counter_invariant_witness :
  counter_inv (counter (run_all four_failures fresh_tab))
  /\ counter_inv (counter (run (OpAuthenticate (js "wrong5") (hashPassword (js "correct")))
                              (run_all four_failures fresh_tab))).
Proof.
  refine (let H := attempt_counter_invariant four_failures
                     (OpAuthenticate (js "wrong5") (hashPassword (js "correct")))
                     fresh_tab _ _ _ in conj (proj1 H) (proj1 (proj2 H))).
  - intros i j Hij. cbn. lia.
  - intros i. cbn. lia.
  - vm_compute. split; [discriminate|reflexivity].
Defined.

(** [C5].  When [authenticate] is called outside lockout with a password
    whose digest differs from the stored hash, the count that the lockout
    check left is incremented by one.  If the new count reaches 5,
    [lockoutUntil] becomes the clock reading plus fifteen minutes and the
    result is the lockout failure with the remaining seconds (900 when the
    clock has not moved); otherwise the result is the failure whose message
    states [5 - count] remaining attempts. *)
Theorem failed_attempt_is_counted (pw h : jsstring) (w w0 : World) :
  hashPassword pw <> h ->
  isLockedOut w = (false, w0) ->
  monotone_clock w -> epoch_clock w ->
  let '(r, w') := authenticate pw h w in
  let c := count (counter w0) + 1 in
  (counter w0 = counter w
   \/ counter w0 = no_attempts
      /\ exists lu, lockoutUntil (counter w) = Some lu /\ lu <= now w)
  /\ count (counter w') = c
  /\ (MAX_LOGIN_ATTEMPTS <= c ->
      lockoutUntil (counter w') = Some (now w0 + LOCKOUT_DURATION)
      /\ r = lockout_result
               (Z.max 0 (ceil_div (now w0 + LOCKOUT_DURATION - clock w0 (S (ticks w0))) 1000))
      /\ (clock w0 (S (ticks w0)) = now w0 -> lockoutRemaining r = Some 900))
  /\ (c < MAX_LOGIN_ATTEMPTS ->
      lockoutUntil (counter w') = lockoutUntil (counter w0)
      /\ truthy_num (lockoutUntil (counter w')) = false
      /\ r = incorrect_result (MAX_LOGIN_ATTEMPTS - c)).
Proof.
  intros Hne Hl Hmono Hepoch.
  destruct (isLockedOut_false w w0 Hmono Hl) as (Hclock & _ & Hfalsy & Hcounter).
  assert (Hnow : 0 <= now w0) by (unfold now; rewrite Hclock; apply Hepoch).
  rewrite (authenticate_failure pw h w w0 Hmono Hl (verifyPassword_mismatch _ _ Hne))
    by (unfold LOCKOUT_DURATION; lia).
  cbv zeta. destruct (Z.leb_spec MAX_LOGIN_ATTEMPTS (count (counter w0) + 1)).
  - split; [exact Hcounter|]. rewrite counter_tick. unfold recorded. rewrite counter_insert.
    cbn [count lockoutUntil]. repeat split; try reflexivity; try lia.
    intros ->. cbn [lockout_result lockoutRemaining]. f_equal.
    unfold LOCKOUT_DURATION, ceil_div. lia.
  - split; [exact Hcounter|]. unfold recorded. rewrite counter_insert.
    cbn [count lockoutUntil]. repeat split; try reflexivity; try lia. exact Hfalsy.
Qed.

(** A first wrong password in a fresh tab. *)
Lemma failed_attempt_is_counted_witness :
  let '(r, w') := authenticate (js "wrong") (hashPassword (js "correct")) fresh_tab in
  let c := count (counter fresh_tab) + 1 in
  (counter fresh_tab = counter fresh_tab
   \/ counter fresh_tab = no_attempts
      /\ exists lu, lockoutUntil (counter fresh_tab) = Some lu /\ lu <= now fresh_tab)
  /\ count (counter w') = c
  /\ (MAX_LOGIN_ATTEMPTS <= c ->
      lockoutUntil (counter w') = Some (now fresh_tab + LOCKOUT_DURATION)
      /\ r = lockout_result
               (Z.max 0 (ceil_div (now fresh_tab + LOCKOUT_DURATION
                                   - clock fresh_tab (S (ticks fresh_tab))) 1000))
      /\ (clock fresh_tab (S (ticks fresh_tab)) = now fresh_tab ->
          lockoutRemaining r = Some 900))
  /\ (c < MAX_LOGIN_ATTEMPTS ->
      lockoutUntil (counter w') = lockoutUntil (counter fresh_tab)
      /\ truthy_num (lockoutUntil (counter w')) = false
      /\ r = incorrect_result (MAX_LOGIN_ATTEMPTS - c)).
Proof.
  apply (failed_attempt_is_counted (js "wrong") (hashPassword (js "correct"))
           fresh_tab fresh_tab).
  - vm_compute. discriminate.
  - reflexivity.
  - intros i j Hij. cbn. lia.
  - intros i. cbn. lia.
Defined.

(** [C6].  With a clock that counts from the epoch, [isLockedOut()]
    returns [true] exactly when [lockoutUntil] is set and later than now;
    when a set (non-zero) [lockoutUntil] has passed, the call removes the
    counter and returns [false].  [getLockoutRemaining()] returns
    [ceil((lockoutUntil - now) / 1000)] when [lockoutUntil] is set and in
    the future and 0 otherwise; at [now = lockoutUntil] it returns 0 and
    [isLockedOut()] returns [false]. *)
Theorem lockout_queries (w : World) :
  0 <= now w ->
  (fst (isLockedOut w) = true
   <-> exists lu, lockoutUntil (counter w) = Some lu /\ now w < lu)
  /\ (forall lu, lockoutUntil (counter w) = Some lu -> lu <> 0 -> lu <= now w ->
      monotone_clock w ->
      fst (isLockedOut w) = false
      /\ sessionStorage (snd (isLockedOut w)) = delete "loginAttempts" (sessionStorage w)
      /\ counter (snd (isLockedOut w)) = no_attempts)
  /\ fst (getLockoutRemaining w)
     = match lockoutUntil (counter w) with
       | Some lu => if now w <? lu then ceil_div (lu - now w) 1000 else 0
       | None => 0
       end
  /\ (forall lu, lockoutUntil (counter w) = Some lu -> now w = lu ->
      fst (getLockoutRemaining w) = 0 /\ fst (isLockedOut w) = false).
Proof.
  intros Hnow.
  assert (Hrem : fst (getLockoutRemaining w)
     = match lockoutUntil (counter w) with
       | Some lu => if now w <? lu then ceil_div (lu - now w) 1000 else 0
       | None => 0
       end).
  { rewrite getLockoutRemaining_run.
    destruct (lockoutUntil (counter w)) as [lu|]; [|reflexivity].
    destruct (Z.eqb_spec lu 0) as [->|Hlu]; cbn [fst].
    - destruct (Z.ltb_spec (now w) 0); [lia|reflexivity].
    - pose proof (ceil_div_spec (lu - now w) 1000 eq_refl).
      destruct (Z.ltb_spec (now w) lu); lia. }
  assert (Hlock : fst (isLockedOut w) = true
                  <-> exists lu, lockoutUntil (counter w) = Some lu /\ now w < lu).
  { rewrite isLockedOut_run.
    destruct (lockoutUntil (counter w)) as [lu|].
    2:{ split; [discriminate|]. intros (lu & ? & _). discriminate. }
    destruct (Z.eqb_spec lu 0) as [->|Hlu].
    { split; [discriminate|]. intros (lu & [= <-] & ?). lia. }
    destruct (Z.ltb_spec (now w) lu).
    - split; [|reflexivity]. intros _. now exists lu.
    - destruct (lu <=? _); (split; [discriminate|]); intros (lu' & [= <-] & ?); lia. }
  split; [exact Hlock|]. split; [|split; [exact Hrem|]].
  - intros lu E Hlu Hpast Hmono. rewrite isLockedOut_run, E.
    destruct (Z.eqb_spec lu 0); [congruence|].
    destruct (Z.ltb_spec (now w) lu); [lia|].
    assert (now w <= clock w (S (ticks w))) by (apply Hmono; lia).
    destruct (Z.leb_spec lu (clock w (S (ticks w)))); [|lia].
    cbn [fst snd]. split; [reflexivity|]. split; [reflexivity|]. apply counter_delete.
  - intros lu E Heq. split.
    + rewrite Hrem, E, Heq. now rewrite Z.ltb_irrefl.
    + apply not_true_is_false. intros El.
      apply Hlock in El as (lu' & E' & Hlt). rewrite E in E'. injection E' as <-. lia.
Qed.

(** A lockout checked at the very instant it ends. *)
Lemma lockout_queries_witness :
  fst (isLockedOut (tab_with_counter (mkLoginAttempt 5 (Some 1700000900000))
                                     1700000900000 1700000900000)) = false
  /\ sessionStorage (snd (isLockedOut (tab_with_counter (mkLoginAttempt 5 (Some 1700000900000))
                                     1700000900000 1700000900000)))
     = delete "loginAttempts"
         (sessionStorage (tab_with_counter (mkLoginAttempt 5 (Some 1700000900000))
                                     1700000900000 1700000900000))
  /\ counter (snd (isLockedOut (tab_with_counter (mkLoginAttempt 5 (Some 1700000900000))
                                     1700000900000 1700000900000))) = no_attempts.
Proof.
  refine (proj1 (proj2 (lockout_queries
            (tab_with_counter (mkLoginAttempt 5 (Some 1700000900000))
                              1700000900000 1700000900000) _))
            1700000900000 _ _ _ _).
  - vm_compute. discriminate.
  - vm_compute. reflexivity.
  - discriminate.
  - vm_compute. discriminate.
  - intros [|i] [|j] Hij; cbn; lia.
Defined.

(** [C7].  In every world, [isSessionValid()] after [clearSession()]
    returns [false]; and once [isSessionValid()] has returned [false], a
    second call, at whatever time, returns [false] again and changes
    nothing. *)
Theorem clearSession_then_invalid (w : World) :
  fst (isSessionValid (snd (clearSession w))) = false
  /\ (forall w1, isSessionValid w = (false, w1) ->
      forall w2, sessionStorage w2 = sessionStorage w1 ->
      isSessionValid w2 = (false, w2)).
Proof.
  split.
  - rewrite isSessionValid_run. unfold clearSession, bind, sessionStorage_removeItem.
    cbn [snd with_session sessionStorage].
    rewrite lookup_delete_ne by discriminate. now rewrite lookup_delete_eq.
  - intros w1 H w2 Hs. rewrite isSessionValid_run in H. rewrite isSessionValid_run, Hs.
    destruct (sessionStorage w !! "adminAuth") as [token|] eqn:E1.
    2:{ injection H as <-. now rewrite E1. }
    destruct (sessionStorage w !! "adminAuthTime") as [authTime|] eqn:E2.
    2:{ injection H as <-. now rewrite E1, E2. }
    destruct (falsy token || falsy authTime) eqn:Ef.
    { injection H as <-. now rewrite E1, E2, Ef. }
    assert (Hout : sessionStorage (signed_out w) !! "adminAuth" = None).
    { unfold signed_out. cbn [with_session sessionStorage].
      rewrite lookup_delete_ne by discriminate. apply lookup_delete_eq. }
    destruct (parseInt10 authTime) as [issued|]; [|discriminate].
    destruct (SESSION_DURATION <? now w - issued); [|discriminate].
    injection H as <-. now rewrite Hout.
Qed.

(** An expired session checked twice. *)
Lemma clearSession_then_invalid_witness :
  isSessionValid (snd (isSessionValid (tab_with_session 1700000000000 1700001801000)))
  = (false, snd (isSessionValid (tab_with_session 1700000000000 1700001801000))).
Proof.
  refine (proj2 (clearSession_then_invalid (tab_with_session 1700000000000 1700001801000))
            (snd (isSessionValid (tab_with_session 1700000000000 1700001801000))) _
            (snd (isSessionValid (tab_with_session 1700000000000 1700001801000))) eq_refl).
  rewrite isSessionValid_run. vm_compute. reflexivity.
Defined.

(** [C8], as amended.  When [saveConfig] is given a new admin password
    that is not empty, differs from the stored value and is not made of 64
    hexadecimal digits, then either it raises and [localStorage] is
    unchanged, or the blob it stores under [ENCRYPTED_KEY] decrypts to the
    JSON text of a config whose [adminPassword] is the SHA-256 hex digest
    of that password, which differs from the password itself. *)
Theorem saveConfig_stores_digest
    (webhookUrlSchema : jsstring -> bool)
    (current : Config.AppConfig) (config : Config.PartialAppConfig)
    (p : jsstring) (w : World) :
  Config.adminPassword' config = Some p ->
  p <> [] -> p <> Config.adminPassword current ->
  Config.isAlreadyHashed p = false ->
  let '(r, w') := Config.saveConfig webhookUrlSchema current config w in
  match r with
  | Ok _ =>
      exists blob,
        localStorage w' !! Config.ENCRYPTED_KEY = Some blob
        /\ decryptFromStorage blob
           = Config.JSON_stringify
               (Config.mkAppConfig
                  (default (Config.submitWebhookUrl current) (Config.submitWebhookUrl' config))
                  (default (Config.readWebhookUrl current) (Config.readWebhookUrl' config))
                  (hashPassword p))
        /\ hashPassword p <> p
        /\ localStorage w' !! Config.STORAGE_KEY = None
  | Throw _ => localStorage w' = localStorage w
  end.
Proof.
  intros Hcfg Hp Hne Hplain. unfold Config.saveConfig, Config.spread.
  rewrite Hcfg. cbn [from_option id Config.adminPassword Config.submitWebhookUrl
                     Config.readWebhookUrl].
  assert (Hf : falsy p = false) by (now destruct p).
  rewrite Hf, Hplain. unfold str_eqb. rewrite bool_decide_eq_false_2 by exact Hne.
  cbn [negb andb Config.submitWebhookUrl Config.readWebhookUrl].
  destruct (Config.configSchema_parse _ _) as [validated|] eqn:Ev; [|reflexivity].
  apply configSchema_parse_id in Ev. subst validated.
  destruct (encryptForStorage _) as [encrypted|e] eqn:Ee; [|reflexivity].
  unfold bind, localStorage_setItem, localStorage_removeItem, ret, with_local.
  cbn [localStorage]. exists encrypted. split; [|split; [|split]].
  - rewrite lookup_delete_ne by discriminate. apply lookup_insert_eq.
  - now apply decrypt_encrypt.
  - now apply hashPassword_not_plain.
  - apply lookup_delete_eq.
Qed.

(** A first password, saved over [DEFAULT_CONFIG]. *)
Lemma saveConfig_stores_digest_witness :
  let '(r, w') := Config.saveConfig accepts_default_urls Config.DEFAULT_CONFIG
                    (password_only (js "correct horse")) fresh_tab in
  match r with
  | Ok _ =>
      exists blob,
        localStorage w' !! Config.ENCRYPTED_KEY = Some blob
        /\ decryptFromStorage blob
           = Config.JSON_stringify
               (Config.mkAppConfig
                  (default (Config.submitWebhookUrl Config.DEFAULT_CONFIG)
                           (Config.submitWebhookUrl' (password_only (js "correct horse"))))
                  (default (Config.readWebhookUrl Config.DEFAULT_CONFIG)
                           (Config.readWebhookUrl' (password_only (js "correct horse"))))
                  (hashPassword (js "correct horse")))
        /\ hashPassword (js "correct horse") <> js "correct horse"
        /\ localStorage w' !! Config.STORAGE_KEY = None
  | Throw _ => localStorage w' = localStorage fresh_tab
  end.
Proof.
  apply (saveConfig_stores_digest accepts_default_urls Config.DEFAULT_CONFIG
           (password_only (js "correct horse")) (js "correct horse") fresh_tab).
  - reflexivity.
  - discriminate.
  - discriminate.
  - vm_compute. reflexivity.
Defined.

(** A new password of 64 hexadecimal digits, which [C8] includes: the test
    for an existing digest takes it for one, and it is stored as it is. *)
Lemma hex_shaped_password_stored_in_clear :
  Config.isAlreadyHashed hex_shaped_password = true
  /\ hex_shaped_password <> Config.adminPassword Config.DEFAULT_CONFIG
  /\ hex_shaped_password <> hashPassword hex_shaped_password
  /\ fst (Config.saveConfig accepts_default_urls Config.DEFAULT_CONFIG
            (password_only hex_shaped_password) fresh_tab) = Ok tt
  /\ decryptFromStorage
       <$> localStorage (snd (Config.saveConfig accepts_default_urls Config.DEFAULT_CONFIG
                                (password_only hex_shaped_password)
                                fresh_tab)) !! Config.ENCRYPTED_KEY
     = Some (Config.JSON_stringify
               (Config.mkAppConfig (Config.submitWebhookUrl Config.DEFAULT_CONFIG)
                                   (Config.readWebhookUrl Config.DEFAULT_CONFIG)
                                   hex_shaped_password)).
Proof. vm_compute. repeat split; try reflexivity; discriminate. Qed.

(** [C9], as amended.  For passwords [W] and [P] with different digests,
    [authenticate(W, digest(P))] returns a failure and leaves the two
    session entries untouched: [isSessionValid()] afterwards answers what
    it would have answered without the attempt, and in particular [false]
    when no session was stored before. *)
Theorem wrong_password_rejected (W P : jsstring) (w : World) :
  hashPassword W <> hashPassword P ->
  let '(r, w') := authenticate W (hashPassword P) w in
  success r = false
  /\ sessionStorage w' !! "adminAuth" = sessionStorage w !! "adminAuth"
  /\ sessionStorage w' !! "adminAuthTime" = sessionStorage w !! "adminAuthTime"
  /\ (forall w0, sessionStorage w0 = sessionStorage w -> now w0 = now w' ->
      fst (isSessionValid w') = fst (isSessionValid w0))
  /\ (falsy_item (sessionStorage w !! "adminAuth")
      || falsy_item (sessionStorage w !! "adminAuthTime") = true ->
      fst (isSessionValid w') = false).
Proof.
  intros Hne. pose proof (verifyPassword_mismatch _ _ Hne) as Hv.
  destruct (authenticate_rejects W (hashPassword P) w "adminAuth" Hv) as [Hs E1];
    [discriminate|].
  destruct (authenticate_rejects W (hashPassword P) w "adminAuthTime" Hv) as [_ E2];
    [discriminate|].
  destruct (authenticate W (hashPassword P) w) as [r w']. cbn [fst snd] in *.
  split; [exact Hs|]. split; [exact E1|]. split; [exact E2|]. split.
  - intros w0 Hw0 Hnow. apply isSessionValid_ext; now rewrite ?Hw0.
  - intros Hno. rewrite isSessionValid_run, E1, E2.
    destruct (sessionStorage w !! "adminAuth") as [token|]; [|reflexivity].
    destruct (sessionStorage w !! "adminAuthTime") as [authTime|]; [|reflexivity].
    cbn [falsy_item] in Hno. now rewrite Hno.
Qed.

(** A wrong password in a fresh tab. *)
Lemma wrong_password_rejected_witness :
  let '(r, w') := authenticate (js "wrong") (hashPassword (js "correct")) fresh_tab in
  success r = false
  /\ sessionStorage w' !! "adminAuth" = sessionStorage fresh_tab !! "adminAuth"
  /\ sessionStorage w' !! "adminAuthTime" = sessionStorage fresh_tab !! "adminAuthTime"
  /\ (forall w0, sessionStorage w0 = sessionStorage fresh_tab -> now w0 = now w' ->
      fst (isSessionValid w') = fst (isSessionValid w0))
  /\ (falsy_item (sessionStorage fresh_tab !! "adminAuth")
      || falsy_item (sessionStorage fresh_tab !! "adminAuthTime") = true ->
      fst (isSessionValid w') = false).
Proof.
  apply (wrong_password_rejected (js "wrong") (js "correct") fresh_tab).
  vm_compute. discriminate.
Defined.

(** [C9] fails in two ways.  A failed attempt does not end a session that
    is valid: [isSessionValid()] is still [true] after it.  And two
    distinct passwords can have one digest: [TextEncoder] encodes every
    lone surrogate as U+FFFD, so the password [\uD800] is accepted against
    the digest of [\uDC00]. *)
Lemma wrong_password_counterexamples :
  (js "wrong" <> js "correct"
   /\ success (fst (authenticate (js "wrong") (hashPassword (js "correct"))
                      (tab_with_session 1700000000000 1700000060000))) = false
   /\ fst (isSessionValid (snd (authenticate (js "wrong") (hashPassword (js "correct"))
                                  (tab_with_session 1700000000000 1700000060000)))) = true)
  /\ ([0xD800%N] <> [0xDC00%N]
      /\ hashPassword [0xD800%N] = hashPassword [0xDC00%N]
      /\ success (fst (authenticate [0xD800%N] (hashPassword [0xDC00%N]) fresh_tab)) = true).
Proof. vm_compute. repeat split; try reflexivity; discriminate. Qed.

(** [C10], as amended.  For every string whose code units are all at most
    U+00FF, the empty string included, [encryptForStorage] returns a text
    that [decryptFromStorage] maps back to the string; on every other
    string [encryptForStorage] raises [InvalidCharacterError]. *)
Theorem storage_round_trip (s : jsstring) :
  (latin1 s = true ->
   exists e, encryptForStorage s = Ok e /\ decryptFromStorage e = s)
  /\ (latin1 s = false -> encryptForStorage s = Throw InvalidCharacterError).
Proof.
  split; intros Hs.
  - pose proof (encryptForStorage_spec s) as E. rewrite Hs in E.
    eexists. split; [exact E|]. now apply decrypt_encrypt.
  - now rewrite encryptForStorage_spec, Hs.
Qed.

(** The text of an empty JSON object. *)
Lemma storage_round_trip_witness :
  exists e, encryptForStorage (js "{}") = Ok e /\ decryptFromStorage e = js "{}".
Proof.
  apply (proj1 (storage_round_trip (js "{}"))). vm_compute. reflexivity.
Defined.

(** The one-letter string U+0100, which [C10] includes: [btoa] refuses the
    obfuscated text, so nothing is returned that could be decrypted. *)
Lemma encryptForStorage_raises_above_latin1 :
  encryptForStorage [256%N] = Throw InvalidCharacterError
  /\ ~ exists e, encryptForStorage [256%N] = Ok e /\ decryptFromStorage e = [256%N].
Proof.
  split; [vm_compute; reflexivity|].
  intros (e & He & _). vm_compute in He. discriminate.
Qed.

(** * Further properties of the code *)

(** ** [src/lib/auth.ts]: digests *)

Lemma hex_digit_lower (n : N) : (n < 16)%N -> lower_hex (hex_digit n) = true.
Proof.
  intros H. unfold lower_hex, is_digit, hex_digit.
  destruct (N.ltb_spec n 10); case_compare; try reflexivity; lia.
Qed.

Lemma hex_of_bytes_lower (bs : list N) : List.forallb lower_hex (hex_of_bytes bs) = true.
Proof.
  induction bs as [|b bs IH]; [reflexivity|].
  unfold hex_of_bytes in *. cbn [List.map List.concat hex_byte List.app List.forallb].
  rewrite !hex_digit_lower, IH; [reflexivity| |]; apply N.mod_lt; discriminate.
Qed.

Lemma lower_hex_is_hex (c : N) : lower_hex c = true -> Config.is_hex c = true.
Proof.
  unfold lower_hex, Config.is_hex, is_digit. intros H.
  apply orb_true_iff in H as [H|H]; rewrite H; [reflexivity|].
  now rewrite orb_true_r.
Qed.

Lemma hashPassword_lower (p : jsstring) : List.forallb lower_hex (hashPassword p) = true.
Proof. apply hex_of_bytes_lower. Qed.

(** [X1].  [verifyPassword(password, storedHash)] returns [true] exactly
    when [password] is not empty and [storedHash] is the digest of it as
    [hashPassword] writes it; so a stored hash that verifies some password
    has 64 characters, all of them digits or the letters a to f in lower
    case. *)
Theorem verifyPassword_needs_digest (password storedHash : jsstring) :
  (verifyPassword password storedHash = true
   <-> password <> [] /\ storedHash = hashPassword password)
  /\ (verifyPassword password storedHash = true ->
      List.length storedHash = 64%nat /\ List.forallb lower_hex storedHash = true).
Proof.
  assert (H : verifyPassword password storedHash = true
              <-> password <> [] /\ storedHash = hashPassword password).
  { unfold verifyPassword, str_eqb. split.
    - destruct password as [|c p]; [discriminate|].
      destruct storedHash as [|d h]; [discriminate|]. cbn [falsy orb].
      intros E. apply bool_decide_eq_true_1 in E. split; [discriminate|congruence].
    - intros [Hp ->]. destruct password as [|c p]; [congruence|].
      cbn [falsy orb]. rewrite hashPassword_nonempty. cbn [orb].
      now apply bool_decide_eq_true_2. }
  split; [exact H|]. intros E. apply H in E as [_ ->].
  split; [apply hashPassword_length|apply hashPassword_lower].
Qed.

(** [X2].  For every password, [hashPassword] returns 64 characters, each a
    digit or one of the letters a to f in lower case; the test by which
    [saveConfig] and the Settings page recognise a stored digest accepts
    it. *)
Theorem hashPassword_is_digest (password : jsstring) :
  List.length (hashPassword password) = 64%nat
  /\ List.forallb lower_hex (hashPassword password) = true
  /\ Config.isAlreadyHashed (hashPassword password) = true.
Proof.
  split; [apply hashPassword_length|]. split; [apply hashPassword_lower|].
  apply hashPassword_isAlreadyHashed.
Qed.

(** ** [src/lib/auth.ts]: tokens *)

Lemma hex_digit_inj (a b : N) :
  (a < 16)%N -> (b < 16)%N -> hex_digit a = hex_digit b -> a = b.
Proof.
  unfold hex_digit. intros Ha Hb.
  destruct (N.ltb_spec a 10), (N.ltb_spec b 10); lia.
Qed.

Lemma hex_byte_inj (a b : N) :
  (a < 256)%N -> (b < 256)%N -> hex_byte a = hex_byte b -> a = b.
Proof.
  unfold hex_byte. intros Ha Hb [= E1 E2].
  apply hex_digit_inj in E1; [|apply N.mod_lt; discriminate..].
  apply hex_digit_inj in E2; [|apply N.mod_lt; discriminate..].
  lia.
Qed.

Lemma hex_of_bytes_inj (xs ys : list N) :
  List.length xs = List.length ys ->
  List.Forall (fun b => (b < 256)%N) xs -> List.Forall (fun b => (b < 256)%N) ys ->
  hex_of_bytes xs = hex_of_bytes ys -> xs = ys.
Proof.
  revert ys. induction xs as [|x xs IH]; intros [|y ys] Hlen Hx Hy E;
    try discriminate; [reflexivity|].
  inversion Hx; inversion Hy; subst.
  unfold hex_of_bytes in E. cbn [List.map List.concat hex_byte List.app] in E.
  injection E as E1 E2 E.
  f_equal.
  - apply hex_byte_inj; [assumption..|]. unfold hex_byte. now rewrite E1, E2.
  - apply IH; auto.
Qed.

Lemma random_bytes_byte (n : nat) (w : World) :
  List.Forall (fun b => (b < 256)%N) (random_bytes n w).
Proof.
  unfold random_bytes. apply List.Forall_forall. intros b Hb.
  apply List.in_map_iff in Hb as (i & <- & _). apply N.mod_lt. discriminate.
Qed.

(** [X3].  [generateSessionToken()] draws 32 random bytes and changes
    nothing else; the token is their hexadecimal notation, 64 characters
    of digits and lower-case letters a to f, and two calls give the same
    token only when they drew the same 32 bytes. *)
Theorem generateSessionToken_spec (w : World) :
  let '(token, w') := generateSessionToken w in
  List.length token = 64%nat
  /\ List.forallb lower_hex token = true
  /\ token = hex_of_bytes (random_bytes 32 w)
  /\ w' = mkWorld (sessionStorage w) (localStorage w) (clock w) (ticks w)
                  (entropy w) (drawn w + 32)
  /\ (forall w2 : World,
        fst (generateSessionToken w2) = token -> random_bytes 32 w2 = random_bytes 32 w).
Proof.
  unfold generateSessionToken, bind, getRandomValues, ret. fold (random_bytes 32 w).
  split; [|split; [|split; [|split]]].
  - rewrite hex_of_bytes_length. unfold random_bytes.
    now rewrite List.length_map, List.length_seq.
  - apply hex_of_bytes_lower.
  - reflexivity.
  - reflexivity.
  - intros w2 E. cbn [fst] in E. fold (random_bytes 32 w2) in E.
    apply hex_of_bytes_inj; [|apply random_bytes_byte..|exact E].
    unfold random_bytes. now rewrite !List.length_map.
Qed.

(** ** [src/lib/auth.ts]: the lockout over time *)

(** [X4].  Between two moments with the same stored counter, the later
    one no earlier on the clock, [getLockoutRemaining()] does not grow and
    is never negative; it is 0 exactly when [isLockedOut()] is [false]; and
    it is at most 900 for a [lockoutUntil] no more than fifteen minutes
    ahead. *)
Theorem lockout_countdown (w w' : World) :
  sessionStorage w' !! "loginAttempts" = sessionStorage w !! "loginAttempts" ->
  now w <= now w' ->
  0 <= fst (getLockoutRemaining w') <= fst (getLockoutRemaining w)
  /\ (fst (getLockoutRemaining w) = 0 <-> fst (isLockedOut w) = false)
  /\ (forall lu, lockoutUntil (counter w) = Some lu -> lu <= now w + LOCKOUT_DURATION ->
      fst (getLockoutRemaining w) <= 900).
Proof.
  intros Hs Hnow. apply counter_ext in Hs.
  rewrite !getLockoutRemaining_run, isLockedOut_run, Hs.
  destruct (lockoutUntil (counter w)) as [lu|]; cbn [fst].
  2:{ split; [lia|]. split; [tauto|discriminate]. }
  destruct (Z.eqb_spec lu 0) as [->|Hlu]; cbn [fst].
  { split; [lia|]. split; [tauto|]. intros; lia. }
  pose proof (ceil_div_spec (lu - now w) 1000 eq_refl).
  pose proof (ceil_div_spec (lu - now w') 1000 eq_refl).
  split; [lia|]. split.
  - destruct (Z.ltb_spec (now w) lu); cbn [fst].
    + split; [lia|discriminate].
    + destruct (lu <=? _); cbn [fst]; split; auto; lia.
  - intros lu' [= <-] Hle. unfold LOCKOUT_DURATION in Hle. lia.
Qed.

Lemma lockout_countdown_witness :
  0 <= fst (getLockoutRemaining
              (tick 1 (after_attempts five_wrong (hashPassword (js "correct")) fresh_tab)))
    <= fst (getLockoutRemaining
              (after_attempts five_wrong (hashPassword (js "correct")) fresh_tab)).
Proof.
  refine (proj1 (lockout_countdown
            (after_attempts five_wrong (hashPassword (js "correct")) fresh_tab)
            (tick 1 (after_attempts five_wrong (hashPassword (js "correct")) fresh_tab))
            _ _)).
  - reflexivity.
  - vm_compute. discriminate.
Defined.

(** [X5].  When the stored [lockoutUntil] (not 0) has been reached and the
    clock does not run backwards, [authenticate] starts from a cleared
    counter: a password that verifies signs in, leaving no counter and a
    64-character token; any other is the first failure of a new round,
    answered with four attempts remaining and counted as 1, the stored
    token untouched. *)
Theorem lockout_expires (password storedHash : jsstring) (w : World) (lu : Z) :
  lockoutUntil (counter w) = Some lu -> lu <> 0 -> lu <= now w ->
  monotone_clock w ->
  let '(r, w') := authenticate password storedHash w in
  if verifyPassword password storedHash then
    r = mkAuthResult true None None
    /\ counter w' = no_attempts
    /\ (exists token, sessionStorage w' !! "adminAuth" = Some token
                      /\ List.length token = 64%nat)
  else
    r = incorrect_result 4
    /\ counter w' = mkLoginAttempt 1 None
    /\ sessionStorage w' !! "adminAuth" = sessionStorage w !! "adminAuth".
Proof.
  intros E Hlu Hpast Hmono.
  assert (El : isLockedOut w = (false, with_session (delete "loginAttempts") (tick 2 w))).
  { rewrite isLockedOut_run, E.
    destruct (Z.eqb_spec lu 0); [congruence|].
    destruct (Z.ltb_spec (now w) lu); [lia|].
    assert (now w <= clock w (S (ticks w))) by (apply Hmono; lia).
    destruct (Z.leb_spec lu (clock w (S (ticks w)))); [reflexivity|lia]. }
  set (w0 := with_session (delete "loginAttempts") (tick 2 w)) in *.
  assert (Hc0 : counter w0 = no_attempts) by apply counter_delete.
  destruct (verifyPassword password storedHash) eqn:Hv.
  - rewrite (authenticate_success _ _ _ _ El Hv).
    split; [reflexivity|]. split; [apply counter_signed_in|].
    exists (token_of w0). split; [|apply token_of_length].
    unfold signed_in. cbn [sessionStorage].
    rewrite lookup_insert_ne by discriminate. apply lookup_insert_eq.
  - rewrite authenticate_run, El, Hv, recordFailedAttempt_run, Hc0. cbv zeta.
    cbn [count lockoutUntil no_attempts Z.add Z.leb Z.compare MAX_LOGIN_ATTEMPTS
         Pos.compare Pos.compare_cont truthy_num].
    split; [reflexivity|]. split; [apply counter_insert|].
    cbn [with_session sessionStorage tick w0].
    rewrite lookup_insert_ne by discriminate. now rewrite lookup_delete_ne by discriminate.
Qed.

Lemma lockout_expires_witness :
  let '(r, w') := authenticate (js "correct") (hashPassword (js "correct"))
                    (tab_with_counter (mkLoginAttempt 5 (Some 1700000900000))
                                      1700000900000 1700000900000) in
  if verifyPassword (js "correct") (hashPassword (js "correct")) then
    r = mkAuthResult true None None
    /\ counter w' = no_attempts
    /\ (exists token, sessionStorage w' !! "adminAuth" = Some token
                      /\ List.length token = 64%nat)
  else
    r = incorrect_result 4
    /\ counter w' = mkLoginAttempt 1 None
    /\ sessionStorage w' !! "adminAuth"
       = sessionStorage (tab_with_counter (mkLoginAttempt 5 (Some 1700000900000))
                                          1700000900000 1700000900000) !! "adminAuth".
Proof.
  apply (lockout_expires (js "correct") (hashPassword (js "correct"))
           (tab_with_counter (mkLoginAttempt 5 (Some 1700000900000))
                             1700000900000 1700000900000) 1700000900000).
  - vm_compute. reflexivity.
  - discriminate.
  - vm_compute. discriminate.
  - intros [|i] [|j] Hij; cbn; lia.
Defined.

(** ** [src/lib/auth.ts]: what the gate leaves alone *)

Lemma gate_frame_refl (w : World) : gate_frame w w.
Proof. repeat split; auto. Qed.

Lemma gate_frame_trans (w1 w2 w3 : World) :
  gate_frame w1 w2 -> gate_frame w2 w3 -> gate_frame w1 w3.
Proof.
  intros (A1 & A2 & A3 & A4 & A5 & A6) (B1 & B2 & B3 & B4 & B5 & B6).
  repeat split; try congruence; try lia.
  intros k Hk. now rewrite B2, A2.
Qed.

Lemma gate_frame_tick (n : nat) (w : World) : gate_frame w (tick n w).
Proof. repeat split; cbn; auto; lia. Qed.

Lemma gate_entry_false (k : string) :
  gate_entry k = false ->
  k <> "adminAuth" /\ k <> "adminAuthTime" /\ k <> "loginAttempts".
Proof.
  unfold gate_entry. intros H.
  apply orb_false_iff in H as [H H3]. apply orb_false_iff in H as [H1 H2].
  apply bool_decide_eq_false_1 in H1, H2, H3. auto.
Qed.

Lemma gate_frame_delete (k : string) (w : World) :
  gate_entry k = true -> gate_frame w (with_session (delete k) w).
Proof.
  intros Hk. repeat split; cbn; auto.
  intros k' Hk'. apply lookup_delete_ne. intros ->. congruence.
Qed.

Lemma gate_frame_insert (k : string) (v : jsstring) (w : World) :
  gate_entry k = true -> gate_frame w (with_session (insert k v) w).
Proof.
  intros Hk. repeat split; cbn; auto.
  intros k' Hk'. apply lookup_insert_ne. intros ->. congruence.
Qed.

Lemma isLockedOut_frame (w : World) : gate_frame w (snd (isLockedOut w)).
Proof.
  rewrite isLockedOut_run.
  destruct (lockoutUntil (counter w)) as [lu|]; [|apply gate_frame_refl].
  destruct (lu =? 0); [apply gate_frame_refl|].
  destruct (now w <? lu); [apply gate_frame_tick|].
  destruct (lu <=? _); cbn [snd]; [|apply gate_frame_tick].
  eapply gate_frame_trans; [apply gate_frame_tick|now apply gate_frame_delete].
Qed.

Lemma getLockoutRemaining_frame (w : World) : gate_frame w (snd (getLockoutRemaining w)).
Proof.
  destruct (getLockoutRemaining_world w) as [->| ->];
    [apply gate_frame_refl|apply gate_frame_tick].
Qed.

Lemma signed_in_frame (w : World) : gate_frame w (signed_in w).
Proof.
  unfold signed_in. repeat split; cbn; auto; try lia.
  intros k Hk. apply gate_entry_false in Hk as (H1 & H2 & H3).
  now rewrite !lookup_insert_ne, lookup_delete_ne by congruence.
Qed.

Lemma recordFailedAttempt_frame (w : World) : gate_frame w (snd (recordFailedAttempt w)).
Proof.
  rewrite recordFailedAttempt_run. cbv zeta.
  destruct (MAX_LOGIN_ATTEMPTS <=? _); cbn [snd].
  - eapply gate_frame_trans; [apply gate_frame_tick|now apply gate_frame_insert].
  - now apply gate_frame_insert.
Qed.

Lemma authenticate_frame (pw h : jsstring) (w : World) :
  gate_frame w (snd (authenticate pw h w)).
Proof.
  rewrite authenticate_run.
  pose proof (isLockedOut_frame w) as Hl.
  destruct (isLockedOut w) as [[|] w0]; cbn [snd] in Hl.
  - pose proof (getLockoutRemaining_frame w0) as Hg.
    destruct (getLockoutRemaining w0) as [rem w1]. cbn [snd] in *.
    eapply gate_frame_trans; eassumption.
  - destruct (verifyPassword pw h); cbn [snd].
    + eapply gate_frame_trans; [exact Hl|apply signed_in_frame].
    + pose proof (recordFailedAttempt_frame w0) as Hr.
      destruct (recordFailedAttempt w0) as [attempts w1]. cbn [snd] in Hr.
      destruct (truthy_num _).
      * pose proof (getLockoutRemaining_frame w1) as Hg.
        destruct (getLockoutRemaining w1) as [rem w2]. cbn [snd] in *.
        eapply gate_frame_trans; [exact Hl|]. eapply gate_frame_trans; eassumption.
      * cbn [snd]. eapply gate_frame_trans; eassumption.
Qed.

Lemma isSessionValid_frame (w : World) : gate_frame w (snd (isSessionValid w)).
Proof.
  rewrite isSessionValid_run.
  destruct (sessionStorage w !! "adminAuth") as [token|]; [|apply gate_frame_refl].
  destruct (sessionStorage w !! "adminAuthTime") as [authTime|]; [|apply gate_frame_refl].
  destruct (falsy token || falsy authTime); [apply gate_frame_refl|].
  destruct (parseInt10 authTime) as [issued|]; [|apply gate_frame_tick].
  destruct (SESSION_DURATION <? _); [|apply gate_frame_tick]. cbn [snd]. unfold signed_out.
  eapply gate_frame_trans; [apply gate_frame_tick|].
  eapply gate_frame_trans; now apply gate_frame_delete.
Qed.

Lemma run_frame (op : GateOp) (w : World) : gate_frame w (run op w).
Proof.
  destruct op as [pw h| | | |]; cbn [run].
  - apply authenticate_frame.
  - apply isSessionValid_frame.
  - unfold clearSession, bind, sessionStorage_removeItem. cbn [snd].
    eapply gate_frame_trans; now apply gate_frame_delete.
  - apply isLockedOut_frame.
  - apply getLockoutRemaining_frame.
Qed.

(** [X6].  Whatever gate operations run, in whatever order,
    [localStorage] is left as it was and so is every entry of
    [sessionStorage] other than [adminAuth], [adminAuthTime] and
    [loginAttempts]; the clock and the random source are only read
    further. *)
Theorem gate_touches_only_its_entries (ops : list GateOp) (w : World) :
  localStorage (run_all ops w) = localStorage w
  /\ (forall k, k <> "adminAuth" -> k <> "adminAuthTime" -> k <> "loginAttempts" ->
      sessionStorage (run_all ops w) !! k = sessionStorage w !! k)
  /\ clock (run_all ops w) = clock w
  /\ entropy (run_all ops w) = entropy w
  /\ (ticks w <= ticks (run_all ops w))%nat
  /\ (drawn w <= drawn (run_all ops w))%nat.
Proof.
  assert (H : gate_frame w (run_all ops w)).
  { revert w. induction ops as [|op ops IH]; intros w; [apply gate_frame_refl|].
    unfold run_all. cbn [List.fold_left]. fold (run_all ops (run op w)).
    eapply gate_frame_trans; [apply run_frame|apply IH]. }
  destruct H as (H1 & H2 & H3 & H4 & H5 & H6).
  repeat (split; [assumption|]). split; [|repeat split; assumption].
  intros k K1 K2 K3. apply H2. unfold gate_entry.
  now rewrite !bool_decide_eq_false_2.
Qed.

(** ** [src/lib/auth.ts]: a session without a readable time *)

(** [X7].  A stored session whose token and time are not empty and whose
    time does not read as a number by [parseInt] is valid at every check,
    however late: [isSessionValid()] returns [true] after any number of
    earlier checks and never removes it. *)
Theorem session_without_time_never_expires (w : World) (token authTime : jsstring) :
  sessionStorage w !! "adminAuth" = Some token -> token <> [] ->
  sessionStorage w !! "adminAuthTime" = Some authTime -> authTime <> [] ->
  parseInt10 authTime = None ->
  forall n : nat,
    fst (isSessionValid (checked n w)) = true
    /\ sessionStorage (checked n w) = sessionStorage w.
Proof.
  intros E1 H1 E2 H2 Hp n.
  assert (Hs : sessionStorage (checked n w) = sessionStorage w).
  { induction n as [|n IH]; [reflexivity|].
    unfold checked in *. rewrite Nat.iter_succ.
    rewrite (session_with_unreadable_time _ token authTime); rewrite ?IH; auto. }
  split; [|exact Hs].
  rewrite (session_with_unreadable_time _ token authTime); rewrite ?Hs; auto.
Qed.

Lemma session_without_time_never_expires_witness :
  fst (isSessionValid (checked 3 timeless_tab)) = true
  /\ sessionStorage (checked 3 timeless_tab) = sessionStorage timeless_tab.
Proof.
  apply (session_without_time_never_expires timeless_tab (js "c0ffee") (js "soon")).
  - vm_compute. reflexivity.
  - discriminate.
  - vm_compute. reflexivity.
  - discriminate.
  - vm_compute. reflexivity.
Defined.

(** ** [src/lib/encryption.ts]: the stored text *)

Section ObfuscationFacts.

Import Base64.
Local Open Scope N_scope.

Lemma b64_char_alphabet (n : N) : exists v, b64_value (b64_char n) = Some v.
Proof.
  unfold b64_char, b64_value. case_compare; cbn [andb]; try (eexists; reflexivity); lia.
Qed.

Lemma b64_char_is_base64 (n : N) : is_base64_char (b64_char n) = true.
Proof. unfold is_base64_char. now destruct (b64_char_alphabet n) as (v & ->). Qed.

Lemma b64_char_ascii (n : N) : b64_char n < 128.
Proof. unfold b64_char. case_compare; lia. Qed.

Lemma encode_is_base64 (bs : list N) : List.forallb is_base64_char (encode bs) = true.
Proof.
  induction bs as [|a|a b|a b c l IH] using list_ind3;
    cbn [encode List.forallb]; rewrite ?b64_char_is_base64; try reflexivity.
  exact IH.
Qed.

Lemma encode_ascii (bs : list N) : List.Forall (fun c => c < 128) (encode bs).
Proof.
  induction bs as [|a|a b|a b c l IH] using list_ind3; cbn [encode];
    repeat (apply List.Forall_cons; [try apply b64_char_ascii; reflexivity|]);
    try apply List.Forall_nil.
  exact IH.
Qed.

Lemma encode_length_exact (bs : list N) :
  List.length (encode bs) = (4 * ((List.length bs + 2) / 3))%nat.
Proof.
  induction bs as [|a|a b|a b c l IH] using list_ind3; try reflexivity.
  cbn [encode List.length]. rewrite IH.
  replace (S (S (S (List.length l))) + 2)%nat with (1 * 3 + (List.length l + 2))%nat by lia.
  rewrite Nat.div_add_l by discriminate. lia.
Qed.

Lemma xor_loop_length (i : nat) (t : jsstring) :
  List.length (xor_loop i t) = List.length t.
Proof.
  revert i. induction t as [|c t IH]; intros i; [reflexivity|].
  cbn [xor_loop List.length]. now rewrite IH.
Qed.

End ObfuscationFacts.

(** [X8].  What [encryptForStorage] returns is base64 text: letters of
    the base64 alphabet and padding signs only, all ASCII, four characters
    for every three characters of the data, rounded up. *)
Theorem encryptForStorage_is_base64 (data e : jsstring) :
  encryptForStorage data = Ok e ->
  List.forallb is_base64_char e = true
  /\ List.Forall (fun c => (c < 128)%N) e
  /\ List.length e = (4 * ((List.length data + 2) / 3))%nat.
Proof.
  rewrite encryptForStorage_spec. destruct (latin1 data); [|discriminate].
  intros [= <-]. destruct data as [|c s]; [repeat split; constructor|].
  cbn [falsy]. split; [apply encode_is_base64|]. split; [apply encode_ascii|].
  now rewrite encode_length_exact, xor_loop_length.
Qed.

Lemma encryptForStorage_is_base64_witness :
  List.forallb is_base64_char (js "Fxg=") = true
  /\ List.Forall (fun c => (c < 128)%N) (js "Fxg=")
  /\ List.length (js "Fxg=") = (4 * ((List.length (js "{}") + 2) / 3))%nat.
Proof.
  apply (encryptForStorage_is_base64 (js "{}") (js "Fxg=")).
  vm_compute. reflexivity.
Defined.

Section DecodingFacts.

Import Base64.
Local Open Scope N_scope.

Lemma b64_value_bound (c v : N) : b64_value c = Some v -> v < 64.
Proof.
  unfold b64_value.
  destruct (N.leb_spec 65 c), (N.leb_spec c 90); cbn [andb]; [intros [= <-]; lia|..];
    (destruct (N.leb_spec 97 c), (N.leb_spec c 122); cbn [andb]; [intros [= <-]; lia|..]);
    (destruct (N.leb_spec 48 c), (N.leb_spec c 57); cbn [andb]; [intros [= <-]; lia|..]);
    (destruct (c =? 43); [intros [= <-]; lia|]);
    (destruct (c =? 47); [intros [= <-]; lia|discriminate]).
Qed.

Lemma values_bound (s : jsstring) (vs : list N) :
  values s = Some vs -> List.Forall (fun v => v < 64) vs.
Proof.
  revert vs. induction s as [|c s IH]; intros vs; cbn [values].
  - intros [= <-]. constructor.
  - destruct (b64_value c) as [v|] eqn:Ev; [|discriminate].
    destruct (values s) as [vs'|]; [|discriminate].
    intros [= <-]. constructor; [now apply (b64_value_bound c)|now apply IH].
Qed.

Lemma values_unknown (s : jsstring) (c : N) :
  List.In c s -> b64_value c = None -> values s = None.
Proof.
  intros Hin Hc. induction s as [|d s IH]; [destruct Hin|].
  cbn [values]. destruct Hin as [->|Hin]; [now rewrite Hc|].
  rewrite (IH Hin). now destruct (b64_value d).
Qed.

Lemma list_ind4 {A} (P : list A -> Prop) :
  P [] -> (forall a, P [a]) -> (forall a b, P [a; b]) -> (forall a b c, P [a; b; c]) ->
  (forall a b c d l, P l -> P (a :: b :: c :: d :: l)) ->
  forall l, P l.
Proof.
  intros H0 H1 H2 H3 H4.
  fix IH 1. intros [|a [|b [|c [|d l]]]];
    [exact H0 | apply H1 | apply H2 | apply H3 | apply H4, IH].
Qed.

Lemma decode_latin1 (vs : list N) :
  List.Forall (fun v => v < 64) vs -> latin1 (decode vs) = true.
Proof.
  unfold latin1.
  induction vs as [|a|a b|a b c|a b c d l IH] using list_ind4; intros H;
    repeat match goal with
           | H : List.Forall _ (_ :: _) |- _ => inversion H; subst; clear H
           end;
    cbn [decode List.forallb]; rewrite ?andb_true_iff; repeat split;
    try reflexivity; try (apply N.ltb_lt; lia).
  now apply IH.
Qed.

Lemma atob_latin1 (data decoded : jsstring) :
  atob data = Ok decoded -> latin1 decoded = true.
Proof.
  unfold atob. cbv zeta.
  destruct (_ =? 1); [discriminate|].
  destruct (values _) as [vs|] eqn:Ev; [|discriminate].
  intros [= <-]. apply decode_latin1. eapply values_bound, Ev.
Qed.

Lemma strip_padding_keeps (s : jsstring) (c : N) :
  List.In c s -> c <> 61 -> List.In c (strip_padding s).
Proof.
  intros Hin Hc. unfold strip_padding.
  destruct (List.rev s) as [|c1 r] eqn:E; [exact Hin|].
  destruct (N.eqb_spec c1 61) as [->|_]; [|exact Hin].
  assert (Hr : List.In c r).
  { apply List.in_rev in Hin. rewrite E in Hin. destruct Hin as [<-|H]; [congruence|exact H]. }
  destruct r as [|c2 r']; [destruct Hr|].
  destruct (N.eqb_spec c2 61) as [->|_].
  - apply List.in_rev. rewrite List.rev_involutive.
    destruct Hr as [<-|H]; [congruence|exact H].
  - apply List.in_rev. now rewrite List.rev_involutive.
Qed.

Lemma atob_unknown (data : jsstring) (c : N) :
  List.In c data -> is_ascii_whitespace c = false -> c <> 61 -> b64_value c = None ->
  atob data = Throw InvalidCharacterError.
Proof.
  intros Hin Hws H61 Hc. unfold atob. cbv zeta.
  set (d := List.filter _ data).
  assert (Hd : List.In c d).
  { apply List.filter_In. split; [exact Hin|]. now rewrite Hws. }
  destruct (_ =? 1); [reflexivity|].
  rewrite (values_unknown _ c); [reflexivity| |exact Hc].
  destruct (_ =? 0); [now apply strip_padding_keeps|exact Hd].
Qed.

End DecodingFacts.

(** [X9].  Whatever the stored text, [decryptFromStorage] returns a string
    of code units below 256, which [encryptForStorage] takes without
    raising. *)
Theorem decryptFromStorage_latin1 (encrypted : jsstring) :
  latin1 (decryptFromStorage encrypted) = true
  /\ exists e, encryptForStorage (decryptFromStorage encrypted) = Ok e.
Proof.
  assert (H : latin1 (decryptFromStorage encrypted) = true).
  { unfold decryptFromStorage, simpleDeobfuscate.
    destruct (falsy encrypted); [reflexivity|].
    destruct (Base64.atob encrypted) as [decoded|] eqn:E; [|reflexivity].
    apply xor_loop_latin1. eapply atob_latin1, E. }
  split; [exact H|]. rewrite encryptForStorage_spec, H. now eexists.
Qed.

Lemma decryptFromStorage_unknown (encrypted : jsstring) (c : N) :
  List.In c encrypted -> Base64.is_ascii_whitespace c = false -> is_base64_char c = false ->
  decryptFromStorage encrypted = [].
Proof.
  intros Hin Hws Hc. unfold is_base64_char in Hc.
  destruct (Base64.b64_value c) eqn:Ev; [discriminate|]. apply N.eqb_neq in Hc.
  unfold decryptFromStorage, simpleDeobfuscate.
  destruct (falsy encrypted); [reflexivity|].
  now rewrite (atob_unknown encrypted c).
Qed.

(** [X10].  For a text that holds a character which is neither ASCII
    white space nor base64, [decryptFromStorage] returns the empty string
    (the [InvalidCharacterError] of [atob] is swallowed), which encrypts
    to the empty string again. *)
Theorem decryptFromStorage_not_base64 (encrypted : jsstring) (c : N) :
  List.In c encrypted -> Base64.is_ascii_whitespace c = false -> is_base64_char c = false ->
  decryptFromStorage encrypted = []
  /\ encryptForStorage (decryptFromStorage encrypted) = Ok [].
Proof.
  intros Hin Hws Hc. now rewrite (decryptFromStorage_unknown encrypted c).
Qed.

Lemma decryptFromStorage_not_base64_witness :
  decryptFromStorage (js "{not base64}") = []
  /\ encryptForStorage (decryptFromStorage (js "{not base64}")) = Ok [].
Proof.
  apply (decryptFromStorage_not_base64 (js "{not base64}") 123%N).
  - vm_compute. left. reflexivity.
  - reflexivity.
  - reflexivity.
Defined.

(** ** [src/lib/config.ts]: saving *)

Lemma configSchema_parse_valid (v : jsstring -> bool) (c : Config.AppConfig) :
  schema_valid v c -> Config.configSchema_parse v c = Some c.
Proof.
  intros (H1 & H2 & H3 & H4). unfold Config.configSchema_parse. unfold url_ok in *.
  rewrite H1, H2. cbn [andb].
  apply Nat.leb_le in H3, H4. now rewrite H3, H4.
Qed.

Lemma configSchema_parse_sound (v : jsstring -> bool) (c c' : Config.AppConfig) :
  Config.configSchema_parse v c = Some c' -> c' = c /\ schema_valid v c.
Proof.
  unfold Config.configSchema_parse, schema_valid, url_ok.
  destruct (v (Config.submitWebhookUrl c) || falsy (Config.submitWebhookUrl c));
    [|discriminate].
  destruct (v (Config.readWebhookUrl c) || falsy (Config.readWebhookUrl c));
    [|discriminate].
  cbn [andb].
  destruct (Nat.leb_spec 8 (List.length (Config.adminPassword c))); [|discriminate].
  destruct (Nat.leb_spec (List.length (Config.adminPassword c)) 128); [|discriminate].
  cbn [andb]. intros [= <-]. auto.
Qed.

Lemma configSchema_parse_empty_password (v : jsstring -> bool) (c : Config.AppConfig) :
  Config.adminPassword c = [] -> Config.configSchema_parse v c = None.
Proof.
  intros E. unfold Config.configSchema_parse. rewrite E. cbn [List.length Nat.leb].
  now rewrite andb_false_r.
Qed.

(** [X11].  [saveConfig], from any current config, either throws and
    leaves both buckets as they were, or resolves having written only the
    encrypted entry and removed the legacy one; what the encrypted entry
    then decrypts to is the JSON text of a config that passes
    [configSchema]. *)
Theorem saveConfig_all_or_nothing
    (webhookUrlSchema : jsstring -> bool)
    (current : Config.AppConfig) (config : Config.PartialAppConfig) (w : World) :
  let '(r, w') := Config.saveConfig webhookUrlSchema current config w in
  match r with
  | Throw _ => w' = w
  | Ok _ =>
      sessionStorage w' = sessionStorage w
      /\ (forall k, k <> Config.ENCRYPTED_KEY -> k <> Config.STORAGE_KEY ->
          localStorage w' !! k = localStorage w !! k)
      /\ localStorage w' !! Config.STORAGE_KEY = None
      /\ exists validated,
           schema_valid webhookUrlSchema validated
           /\ decryptFromStorage <$> localStorage w' !! Config.ENCRYPTED_KEY
              = Some (Config.JSON_stringify validated)
  end.
Proof.
  unfold Config.saveConfig. cbv zeta.
  destruct (Config.configSchema_parse _ _) as [validated|] eqn:Ev; [|reflexivity].
  apply configSchema_parse_sound in Ev as [-> Hvalid].
  destruct (encryptForStorage _) as [encrypted|e] eqn:Ee; [|reflexivity].
  unfold bind, localStorage_setItem, localStorage_removeItem, ret, with_local.
  cbn [localStorage sessionStorage].
  split; [reflexivity|]. split; [|split].
  - intros k K1 K2. now rewrite lookup_delete_ne, lookup_insert_ne by congruence.
  - apply lookup_delete_eq.
  - eexists. split; [exact Hvalid|].
    rewrite lookup_delete_ne by discriminate. rewrite lookup_insert_eq. cbn.
    f_equal. now apply decrypt_encrypt.
Qed.

Lemma saveConfig_throw_keeps_world (v : jsstring -> bool)
    (current : Config.AppConfig) (config : Config.PartialAppConfig) (w : World) :
  forall e, fst (Config.saveConfig v current config w) = Throw e ->
            snd (Config.saveConfig v current config w) = w.
Proof.
  intros e. unfold Config.saveConfig. cbv zeta.
  destruct (Config.configSchema_parse _ _); [|reflexivity].
  destruct (encryptForStorage _); [discriminate|reflexivity].
Qed.

Lemma saveConfig_empty_password (v : jsstring -> bool)
    (current : Config.AppConfig) (config : Config.PartialAppConfig) (w : World) :
  Config.adminPassword (Config.spread current config) = [] ->
  Config.saveConfig v current config w = (Throw ValidationFailed, w).
Proof.
  intros E. unfold Config.saveConfig. cbv zeta. rewrite E. cbn [falsy negb andb].
  now rewrite configSchema_parse_empty_password.
Qed.

(** [X12].  While the config that [getConfig] returns has no admin
    password, a [saveConfig] that brings none (or an empty one) throws
    the validation error and writes nothing beyond what its [getConfig]
    did, whatever URLs it was given. *)
Theorem saveConfig_requires_password
    (webhookUrlSchema : jsstring -> bool)
    (migrate : Config.AppConfig -> M Config.AppConfig)
    (config : Config.PartialAppConfig) (w : World) :
  Config.adminPassword (fst (ConfigStore.getConfig webhookUrlSchema migrate w)) = [] ->
  Config.adminPassword' config = None \/ Config.adminPassword' config = Some [] ->
  ConfigStore.saveConfig webhookUrlSchema migrate config w
  = (Throw ValidationFailed, snd (ConfigStore.getConfig webhookUrlSchema migrate w)).
Proof.
  intros Hcur Hcfg. unfold ConfigStore.saveConfig, bind.
  destruct (ConfigStore.getConfig webhookUrlSchema migrate w) as [current w1].
  cbn [fst snd] in *. apply saveConfig_empty_password.
  unfold Config.spread. cbn [Config.adminPassword].
  destruct Hcfg as [-> | ->]; [exact Hcur|reflexivity].
Qed.

Lemma saveConfig_requires_password_witness :
  ConfigStore.saveConfig accepts_default_urls no_migration
    (urls_only (Config.readWebhookUrl Config.DEFAULT_CONFIG)
               (Config.submitWebhookUrl Config.DEFAULT_CONFIG)) fresh_tab
  = (Throw ValidationFailed,
     snd (ConfigStore.getConfig accepts_default_urls no_migration fresh_tab)).
Proof.
  apply (saveConfig_requires_password accepts_default_urls no_migration
           (urls_only (Config.readWebhookUrl Config.DEFAULT_CONFIG)
                      (Config.submitWebhookUrl Config.DEFAULT_CONFIG)) fresh_tab).
  - reflexivity.
  - left. reflexivity.
Defined.

(** *** The text that is stored *)

Lemma latin1_app (s t : jsstring) : latin1 (s ++ t) = latin1 s && latin1 t.
Proof. apply List.forallb_app. Qed.

Lemma latin1_not_surrogate (c : N) :
  (c <? 256)%N = true ->
  UTF8.is_high_surrogate c = false /\ UTF8.is_low_surrogate c = false.
Proof.
  intros H. apply N.ltb_lt in H.
  unfold UTF8.is_high_surrogate, UTF8.is_low_surrogate.
  split; case_compare; try reflexivity; lia.
Qed.

Lemma escape_unit_latin1 (c : N) : (c <? 256)%N = true -> latin1 (Config.escape_unit c) = true.
Proof.
  intros H. unfold Config.escape_unit.
  assert (Hu : latin1 (Config.unicode_escape c) = true).
  { unfold Config.unicode_escape, Config.hex4. rewrite latin1_app.
    cbn [latin1 List.forallb js List.map list_ascii_of_string N_of_ascii N_of_digits
         Ascii.N_of_ascii andb N.ltb N.compare Pos.compare Pos.compare_cont N.add N.mul].
    rewrite !andb_true_iff. repeat split; try reflexivity;
      apply N.ltb_lt; unfold hex_digit; case_compare; lia. }
  destruct c as [|p]; [exact Hu|].
  repeat (destruct p as [p|p|]; try (destruct (_ <? 32)%N; [exact Hu|cbn; now rewrite H]);
          try reflexivity).
Qed.

Lemma quote_body_latin1 (s : jsstring) : latin1 s = true -> latin1 (Config.quote_body s) = true.
Proof.
  induction s as [|c s IH]; [reflexivity|].
  unfold latin1 in *. cbn [List.forallb]. intros H. apply andb_true_iff in H as [Hc Hs].
  cbn [Config.quote_body]. destruct (latin1_not_surrogate c Hc) as [-> ->].
  fold (latin1 (Config.escape_unit c ++ Config.quote_body s)).
  rewrite latin1_app, escape_unit_latin1 by exact Hc. now apply IH.
Qed.

Lemma quote_latin1 (s : jsstring) : latin1 s = true -> latin1 (Config.quote s) = true.
Proof.
  intros H. unfold Config.quote.
  change (34%N :: Config.quote_body s ++ [34%N]) with ([34%N] ++ Config.quote_body s ++ [34%N]).
  now rewrite !latin1_app, quote_body_latin1.
Qed.

Lemma JSON_stringify_latin1 (c : Config.AppConfig) :
  latin1 (Config.submitWebhookUrl c) = true -> latin1 (Config.readWebhookUrl c) = true ->
  latin1 (Config.adminPassword c) = true ->
  latin1 (Config.JSON_stringify c) = true.
Proof.
  intros H1 H2 H3. unfold Config.JSON_stringify.
  rewrite !latin1_app, !quote_latin1 by assumption. reflexivity.
Qed.

Lemma lower_hex_latin1 (s : jsstring) : List.forallb lower_hex s = true -> latin1 s = true.
Proof.
  unfold latin1. induction s as [|c s IH]; [reflexivity|]. cbn [List.forallb].
  intros H. apply andb_true_iff in H as [Hc Hs]. rewrite IH by exact Hs.
  rewrite andb_true_r. unfold lower_hex, is_digit in Hc.
  apply N.ltb_lt. revert Hc. case_compare; cbn; intros; try discriminate; lia.
Qed.

(** [X13].  A new password that is not empty, differs from the current
    one and is not of the shape of a digest is accepted by [saveConfig]
    whatever its length, the URLs being acceptable and of code units below
    256: the limits of 8 and 128 characters are tested on the digest. *)
Theorem saveConfig_accepts_any_new_password
    (webhookUrlSchema : jsstring -> bool)
    (current : Config.AppConfig) (config : Config.PartialAppConfig)
    (p : jsstring) (w : World) :
  Config.adminPassword' config = Some p ->
  p <> [] -> p <> Config.adminPassword current -> Config.isAlreadyHashed p = false ->
  url_ok webhookUrlSchema (Config.submitWebhookUrl (Config.spread current config)) = true ->
  url_ok webhookUrlSchema (Config.readWebhookUrl (Config.spread current config)) = true ->
  latin1 (Config.submitWebhookUrl (Config.spread current config)) = true ->
  latin1 (Config.readWebhookUrl (Config.spread current config)) = true ->
  fst (Config.saveConfig webhookUrlSchema current config w) = Ok tt.
Proof.
  intros Hcfg Hp Hne Hplain U1 U2 L1 L2. unfold Config.saveConfig. cbv zeta.
  assert (Epw : Config.adminPassword (Config.spread current config) = p).
  { unfold Config.spread. now rewrite Hcfg. }
  rewrite Epw, Hplain.
  assert (Hf : falsy p = false) by (now destruct p).
  rewrite Hf. unfold str_eqb. rewrite bool_decide_eq_false_2 by exact Hne.
  cbn [negb andb].
  rewrite configSchema_parse_valid.
  2:{ split; [exact U1|]. split; [exact U2|].
      cbn [Config.adminPassword]. rewrite hashPassword_length. lia. }
  rewrite encryptForStorage_spec, JSON_stringify_latin1; try assumption.
  - reflexivity.
  - cbn [Config.adminPassword]. apply lower_hex_latin1, hashPassword_lower.
Qed.

Lemma saveConfig_accepts_any_new_password_witness :
  fst (Config.saveConfig accepts_default_urls Config.DEFAULT_CONFIG
         (password_only (js "a")) fresh_tab) = Ok tt.
Proof.
  apply (saveConfig_accepts_any_new_password accepts_default_urls Config.DEFAULT_CONFIG
           (password_only (js "a")) (js "a") fresh_tab).
  - reflexivity.
  - discriminate.
  - discriminate.
  - reflexivity.
  - vm_compute. reflexivity.
  - vm_compute. reflexivity.
  - vm_compute. reflexivity.
  - vm_compute. reflexivity.
Defined.

(** ** [src/lib/passwordValidation.ts] *)

Section StrengthFacts.

Import PasswordValidation.

(** The record [validatePasswordStrength] builds, test by test. *)
Lemma validatePasswordStrength_run (password : jsstring) :
  validatePasswordStrength password =
    let n := List.length password in
    let mixed := has_lower password && has_upper password in
    let messages :=
      (if (8 <=? n)%nat then []
       else [js "At least 8 characters"; js "Consider 12+ characters for better security"])
      ++ (if mixed then [] else [js "Mix of uppercase and lowercase letters"])
      ++ (if has_digit password then [] else [js "Include numbers"])
      ++ (if has_special password then [] else [js "Include special characters"]) in
    mkPasswordStrength
      (Z.b2z (8 <=? n)%nat + optional_tests password)
      (match messages with [] => [js "Strong password"] | _ :: _ => messages end)
      ((3 <=? Z.b2z (8 <=? n)%nat + optional_tests password) && (8 <=? n)%nat).
Proof.
  unfold validatePasswordStrength, optional_tests, check. cbv zeta.
  set (n := List.length password).
  assert (E8 : (8 <=? Z.of_nat n) = (8 <=? n)%nat).
  { destruct (Nat.leb_spec 8 n), (Z.leb_spec 8 (Z.of_nat n)); try reflexivity; lia. }
  assert (E12 : (12 <=? Z.of_nat n) = (12 <=? n)%nat).
  { destruct (Nat.leb_spec 12 n), (Z.leb_spec 12 (Z.of_nat n)); try reflexivity; lia. }
  assert (El : (Z.of_nat n <? 8) = negb (8 <=? n)%nat).
  { destruct (Nat.leb_spec 8 n), (Z.ltb_spec (Z.of_nat n) 8); try reflexivity; lia. }
  rewrite E8, E12, El.
  destruct (Nat.leb_spec 8 n) as [H8|H8], (Nat.leb_spec 12 n) as [H12|H12]; try lia;
    destruct (has_lower password), (has_upper password), (has_digit password),
      (has_special password); reflexivity.
Qed.

End StrengthFacts.

(** [X14].  The score of [validatePasswordStrength] is the number of
    tests passed out of: 8 characters, 12 characters, both cases, a digit,
    a special character.  It lies between 0 and 5, is 5 exactly when all
    five pass, and the password is valid exactly when it has 8 characters
    and passes two of the other four. *)
Theorem validatePasswordStrength_score (password : jsstring) :
  let r := PasswordValidation.validatePasswordStrength password in
  PasswordValidation.score r
  = Z.b2z (8 <=? List.length password)%nat + optional_tests password
  /\ 0 <= PasswordValidation.score r <= 5
  /\ (PasswordValidation.score r = 5 <->
      (12 <= List.length password)%nat
      /\ PasswordValidation.has_lower password = true
      /\ PasswordValidation.has_upper password = true
      /\ PasswordValidation.has_digit password = true
      /\ PasswordValidation.has_special password = true)
  /\ (PasswordValidation.isValid r = true <->
      (8 <= List.length password)%nat /\ 2 <= optional_tests password).
Proof.
  cbv zeta. rewrite validatePasswordStrength_run. cbv zeta.
  cbn [PasswordValidation.score PasswordValidation.isValid].
  unfold optional_tests.
  destruct (Nat.leb_spec 8 (List.length password)) as [H8|H8],
           (Nat.leb_spec 12 (List.length password)) as [H12|H12]; try lia;
    destruct (PasswordValidation.has_lower password),
             (PasswordValidation.has_upper password),
             (PasswordValidation.has_digit password),
             (PasswordValidation.has_special password);
    cbn; repeat split; intros; try lia; try discriminate; try tauto;
    try (exfalso; intuition (discriminate || lia)).
Qed.

(** Case analysis on the tests of [validatePasswordStrength]. *)
Ltac strength_cases password :=
  rewrite validatePasswordStrength_run; cbv zeta;
  cbn [PasswordValidation.score PasswordValidation.isValid PasswordValidation.feedback];
  unfold optional_tests;
  destruct (Nat.leb_spec 8 (List.length password)),
           (Nat.leb_spec 12 (List.length password)); try lia;
  destruct (PasswordValidation.has_lower password),
           (PasswordValidation.has_upper password),
           (PasswordValidation.has_digit password),
           (PasswordValidation.has_special password);
  cbn [andb List.app Z.b2z].

Lemma feedback_nonempty (password : jsstring) :
  PasswordValidation.feedback (PasswordValidation.validatePasswordStrength password) <> [].
Proof. strength_cases password; discriminate. Qed.

Lemma feedback_strong (password : jsstring) :
  PasswordValidation.feedback (PasswordValidation.validatePasswordStrength password)
  = [js "Strong password"] <->
  (8 <= List.length password)%nat
  /\ PasswordValidation.has_lower password = true
  /\ PasswordValidation.has_upper password = true
  /\ PasswordValidation.has_digit password = true
  /\ PasswordValidation.has_special password = true.
Proof.
  strength_cases password;
    (split; [intros E; first [repeat split; first [reflexivity|lia]
                             |exfalso; vm_compute in E; discriminate]
            |intros (? & ? & ? & ? & ?); first [reflexivity|discriminate|lia]]).
Qed.

Lemma strong_is_valid (password : jsstring) :
  (8 <= List.length password)%nat
  /\ PasswordValidation.has_lower password = true
  /\ PasswordValidation.has_upper password = true
  /\ PasswordValidation.has_digit password = true
  /\ PasswordValidation.has_special password = true ->
  PasswordValidation.isValid (PasswordValidation.validatePasswordStrength password) = true
  /\ 4 <= PasswordValidation.score (PasswordValidation.validatePasswordStrength password).
Proof.
  intros (H8 & Hl & Hu & Hd & Hs). rewrite validatePasswordStrength_run. cbv zeta.
  cbn [PasswordValidation.score PasswordValidation.isValid]. unfold optional_tests.
  rewrite Hl, Hu, Hd, Hs. apply Nat.leb_le in H8. rewrite H8. cbn [andb Z.b2z].
  destruct (12 <=? _)%nat; cbn; split; (reflexivity || lia).
Qed.

Lemma short_password (password : jsstring) :
  (List.length password < 8)%nat ->
  List.head (PasswordValidation.feedback (PasswordValidation.validatePasswordStrength password))
  = Some (js "At least 8 characters")
  /\ PasswordValidation.isValid (PasswordValidation.validatePasswordStrength password) = false.
Proof.
  intros Hlt. strength_cases password; split; first [reflexivity|apply andb_false_r].
Qed.

(** [X15].  The feedback of [validatePasswordStrength] is never empty; it
    is the single line [Strong password] exactly when the password has 8
    characters, both cases, a digit and a special character, and then the
    password is valid with a score of at least 4; for a password under 8
    characters it begins with [At least 8 characters] and the password is
    not valid. *)
Theorem validatePasswordStrength_feedback (password : jsstring) :
  let r := PasswordValidation.validatePasswordStrength password in
  PasswordValidation.feedback r <> []
  /\ (PasswordValidation.feedback r = [js "Strong password"] <->
      (8 <= List.length password)%nat
      /\ PasswordValidation.has_lower password = true
      /\ PasswordValidation.has_upper password = true
      /\ PasswordValidation.has_digit password = true
      /\ PasswordValidation.has_special password = true)
  /\ (PasswordValidation.feedback r = [js "Strong password"] ->
      PasswordValidation.isValid r = true /\ 4 <= PasswordValidation.score r)
  /\ ((List.length password < 8)%nat ->
      List.head (PasswordValidation.feedback r) = Some (js "At least 8 characters")
      /\ PasswordValidation.isValid r = false).
Proof.
  cbv zeta. split; [apply feedback_nonempty|]. split; [apply feedback_strong|].
  split; [|apply short_password].
  intros E. apply strong_is_valid. now apply feedback_strong.
Qed.

Section StrengthOrder.

Import PasswordValidation.

Lemma b2z_le (a b : bool) : (a = true -> b = true) -> Z.b2z a <= Z.b2z b.
Proof. destruct a, b; cbn; intros H; lia. Qed.

Lemma optional_tests_app (p q : jsstring) : optional_tests p <= optional_tests (p ++ q).
Proof.
  unfold optional_tests, has_lower, has_upper, has_digit, has_special.
  rewrite !List.existsb_app, List.length_app.
  assert (H1 : Z.b2z (12 <=? List.length p)%nat
               <= Z.b2z (12 <=? List.length p + List.length q)%nat).
  { apply b2z_le. intros H. apply Nat.leb_le in H. apply Nat.leb_le. lia. }
  assert (H2 : forall a b c d : bool, Z.b2z (a && b) <= Z.b2z ((a || c) && (b || d))).
  { intros [] [] [] []; cbn; lia. }
  assert (H3 : forall a b : bool, Z.b2z a <= Z.b2z (a || b)).
  { intros [] []; cbn; lia. }
  specialize (H2 (List.existsb is_lower p) (List.existsb is_upper p)
                 (List.existsb is_lower q) (List.existsb is_upper q)).
  pose proof (H3 (List.existsb is_digit p) (List.existsb is_digit q)).
  pose proof (H3 (List.existsb (fun c => negb (is_lower c || is_upper c || is_digit c)) p)
                 (List.existsb (fun c => negb (is_lower c || is_upper c || is_digit c)) q)).
  lia.
Qed.

End StrengthOrder.

(** [X16].  Typing more characters after a password never lowers its
    score and never makes a valid password invalid. *)
Theorem validatePasswordStrength_monotone (password more : jsstring) :
  PasswordValidation.score (PasswordValidation.validatePasswordStrength password)
  <= PasswordValidation.score (PasswordValidation.validatePasswordStrength (password ++ more))
  /\ (PasswordValidation.isValid (PasswordValidation.validatePasswordStrength password) = true ->
      PasswordValidation.isValid
        (PasswordValidation.validatePasswordStrength (password ++ more)) = true).
Proof.
  rewrite !validatePasswordStrength_run. cbv zeta.
  cbn [PasswordValidation.score PasswordValidation.isValid].
  pose proof (optional_tests_app password more) as Ho.
  rewrite List.length_app.
  assert (H8 : Z.b2z (8 <=? List.length password)%nat
               <= Z.b2z (8 <=? List.length password + List.length more)%nat).
  { apply b2z_le. intros H. apply Nat.leb_le in H. apply Nat.leb_le. lia. }
  split; [lia|].
  intros H. apply andb_true_iff in H as [H3 H]. apply andb_true_iff.
  apply Z.leb_le in H3. apply Nat.leb_le in H.
  split; [apply Z.leb_le|apply Nat.leb_le]; lia.
Qed.

(** ** [JSON.parse] reads what [JSON.stringify] wrote *)

Section ParsingFacts.

Import JSON.
Local Open Scope N_scope.

(** A step that completes no token. *)
Lemma lex_silent (st st' : lex_state) (c : N) (t : jsstring) :
  step st c = Some ([], st') -> lex st (c :: t) = lex st' t.
Proof. intros E. cbn [lex]. rewrite E. now destruct (lex st' t). Qed.

(** A step that completes one token and returns between tokens. *)
Lemma lex_token (st : lex_state) (c : N) (tok : token) (t : jsstring) :
  step st c = Some ([tok], LStart) ->
  lex st (c :: t) = match lex LStart t with Some ts => Some (tok :: ts) | None => None end.
Proof. intros E. cbn [lex]. now rewrite E. Qed.

Lemma lex_raw (acc : jsstring) (c : N) (t : jsstring) :
  32 <= c -> c <> 34 -> c <> 92 ->
  lex (LString acc) (c :: t) = lex (LString (c :: acc)) t.
Proof.
  intros H32 H34 H92. apply lex_silent. cbn [step].
  destruct (N.eqb_spec c 34); [lia|]. destruct (N.eqb_spec c 92); [lia|].
  destruct (N.ltb_spec c 32); [lia|]. reflexivity.
Qed.

Lemma lex_escape (acc : jsstring) (e x : N) (t : jsstring) :
  e <> 117 -> escape_char e = Some x ->
  lex (LString acc) (92 :: e :: t) = lex (LString (x :: acc)) t.
Proof.
  intros Hu He. rewrite (lex_silent (LString acc) (LEscape acc)) by reflexivity.
  apply lex_silent. cbn [step]. destruct (N.eqb_spec e 117); [lia|]. now rewrite He.
Qed.

Lemma hex_value_digit (d : N) : d < 16 -> hex_value (hex_digit d) = Some d.
Proof.
  intros H. unfold hex_value, hex_digit, is_digit.
  destruct (N.ltb_spec d 10); case_compare; cbn [andb]; try (f_equal; lia); lia.
Qed.

Lemma lex_unicode (acc : jsstring) (c : N) (t : jsstring) :
  c < 65536 ->
  lex (LString acc) (Config.unicode_escape c ++ t) = lex (LString (c :: acc)) t.
Proof.
  intros Hc. unfold Config.unicode_escape, Config.hex4.
  change (js "\u") with [92; 117]. cbn [List.app].
  rewrite (lex_silent (LString acc) (LEscape acc)) by reflexivity.
  rewrite (lex_silent (LEscape acc) (LUnicode acc 4 0)) by reflexivity.
  rewrite (lex_silent (LUnicode acc 4 0) (LUnicode acc 3 (0 * 16 + c / 4096 mod 16)))
    by (cbn [step]; now rewrite hex_value_digit by (apply N.mod_lt; discriminate)).
  rewrite (lex_silent _ (LUnicode acc 2 ((0 * 16 + c / 4096 mod 16) * 16 + c / 256 mod 16)))
    by (cbn [step]; now rewrite hex_value_digit by (apply N.mod_lt; discriminate)).
  rewrite (lex_silent _ (LUnicode acc 1
             (((0 * 16 + c / 4096 mod 16) * 16 + c / 256 mod 16) * 16 + c / 16 mod 16)))
    by (cbn [step]; now rewrite hex_value_digit by (apply N.mod_lt; discriminate)).
  rewrite (lex_silent _ (LString (c :: acc))); [reflexivity|].
  cbn [step]. rewrite hex_value_digit by (apply N.mod_lt; discriminate).
  replace ((((0 * 16 + c / 4096 mod 16) * 16 + c / 256 mod 16) * 16 + c / 16 mod 16) * 16
           + c mod 16) with c by lia.
  reflexivity.
Qed.

Lemma lex_escape_unit (acc : jsstring) (c : N) (t : jsstring) :
  lex (LString acc) (Config.escape_unit c ++ t) = lex (LString (c :: acc)) t.
Proof.
  unfold Config.escape_unit.
  destruct (N.eq_dec c 8) as [->|H8]; [now apply lex_escape|].
  destruct (N.eq_dec c 9) as [->|H9]; [now apply lex_escape|].
  destruct (N.eq_dec c 10) as [->|H10]; [now apply lex_escape|].
  destruct (N.eq_dec c 12) as [->|H12]; [now apply lex_escape|].
  destruct (N.eq_dec c 13) as [->|H13]; [now apply lex_escape|].
  destruct (N.eq_dec c 34) as [->|H34]; [now apply lex_escape|].
  destruct (N.eq_dec c 92) as [->|H92]; [now apply lex_escape|].
  assert (E : match c with
              | 8 => js "\b" | 9 => js "\t" | 10 => js "\n" | 12 => js "\f"
              | 13 => js "\r" | 34 => [92; 34] | 92 => [92; 92]
              | _ => if c <? 32 then Config.unicode_escape c else [c]
              end = if c <? 32 then Config.unicode_escape c else [c]).
  { destruct c as [|p]; [reflexivity|].
    repeat (destruct p as [p|p|]; try reflexivity; try lia). }
  rewrite E. destruct (N.ltb_spec c 32).
  - apply lex_unicode. lia.
  - cbn [List.app]. apply lex_raw; assumption.
Qed.

Lemma surrogate_bounds (c : N) :
  (UTF8.is_high_surrogate c = true -> 0xD800 <= c <= 0xDBFF)
  /\ (UTF8.is_low_surrogate c = true -> 0xDC00 <= c <= 0xDFFF).
Proof.
  unfold UTF8.is_high_surrogate, UTF8.is_low_surrogate.
  split; intros H; apply andb_true_iff in H as [H1 H2];
    apply N.leb_le in H1, H2; lia.
Qed.

(** The scanner reads back the body of a string literal that
    [JSON.stringify] wrote. *)
Lemma lex_quote_body (s : jsstring) :
  forall (acc rest : jsstring),
    lex (LString acc) (Config.quote_body s ++ 34 :: rest)
    = match lex LStart rest with
      | Some ts => Some (TScalar (JString (List.rev acc ++ s)) :: ts)
      | None => None
      end.
Proof.
  remember (List.length s) as n eqn:Hn. revert s Hn.
  induction n as [n IH] using lt_wf_ind. intros s Hn acc rest.
  destruct s as [|c s].
  { cbn [Config.quote_body List.app]. rewrite List.app_nil_r.
    now rewrite (lex_token (LString acc) 34 (TScalar (JString (List.rev acc)))). }
  subst n.
  assert (Hone : forall body,
            (forall t, lex (LString acc) (body ++ t) = lex (LString (c :: acc)) t) ->
            lex (LString acc) ((body ++ Config.quote_body s) ++ 34 :: rest)
            = match lex LStart rest with
              | Some ts => Some (TScalar (JString (List.rev acc ++ c :: s)) :: ts)
              | None => None
              end).
  { intros body Hbody. rewrite <- List.app_assoc, Hbody.
    rewrite (IH (List.length s)) by (cbn; auto; lia).
    cbn [List.rev]. now rewrite <- List.app_assoc. }
  cbn [Config.quote_body].
  destruct (UTF8.is_high_surrogate c) eqn:Hh.
  - apply surrogate_bounds in Hh.
    destruct s as [|d s].
    + rewrite <- (List.app_nil_r (Config.unicode_escape c)).
      apply Hone. intros t. apply lex_unicode. lia.
    + destruct (UTF8.is_low_surrogate d) eqn:Hl.
      * apply surrogate_bounds in Hl.
        cbn [List.app]. rewrite !lex_raw by lia.
        rewrite (IH (List.length s)) by (cbn; auto; lia).
        cbn [List.rev]. now rewrite <- !List.app_assoc.
      * apply Hone. intros t. apply lex_unicode. lia.
  - destruct (UTF8.is_low_surrogate c) eqn:Hl.
    + apply surrogate_bounds in Hl. apply Hone. intros t. apply lex_unicode. lia.
    + apply Hone. intros t. apply lex_escape_unit.
Qed.

Lemma lex_quote (s rest : jsstring) :
  lex LStart (Config.quote s ++ rest)
  = match lex LStart rest with
    | Some ts => Some (TScalar (JString s) :: ts)
    | None => None
    end.
Proof.
  unfold Config.quote. cbn [List.app].
  rewrite (lex_silent LStart (LString [])) by reflexivity.
  rewrite <- List.app_assoc. cbn [List.app]. now rewrite lex_quote_body.
Qed.

End ParsingFacts.

Lemma JSON_parse_stringify_config (c : Config.AppConfig) :
  JSON.parse (Config.JSON_stringify c) = Some (json_of_config c).
Proof.
  unfold JSON.parse, Config.JSON_stringify.
  change (quoted "submitWebhookUrl") with (Config.quote (js "submitWebhookUrl")).
  change (quoted "readWebhookUrl") with (Config.quote (js "readWebhookUrl")).
  change (quoted "adminPassword") with (Config.quote (js "adminPassword")).
  change (js "{") with [123%N]. change (js ":") with [58%N].
  change (js ",") with [44%N]. change (js "}") with [125%N].
  cbn [List.app].
  rewrite (lex_token JSON.LStart 123 JSON.TLBrace) by reflexivity.
  repeat (rewrite lex_quote; cbn [List.app];
          rewrite (lex_token JSON.LStart 58 JSON.TColon) by reflexivity;
          rewrite lex_quote; cbn [List.app];
          try rewrite (lex_token JSON.LStart 44 JSON.TComma) by reflexivity).
  rewrite (lex_token JSON.LStart 125 JSON.TRBrace) by reflexivity.
  reflexivity.
Qed.

Section StoreFacts.

Variable webhookUrlSchema : jsstring -> bool.
Variable migrate : Config.AppConfig -> M Config.AppConfig.

Lemma parse_with_defaults_config (c : Config.AppConfig) :
  ConfigStore.parse_with_defaults webhookUrlSchema (json_of_config c)
  = Config.configSchema_parse webhookUrlSchema c.
Proof.
  unfold ConfigStore.parse_with_defaults.
  assert (E1 : forall d, ConfigStore.merged_property (json_of_config c) "submitWebhookUrl" d
                         = JSON.JString (Config.submitWebhookUrl c)) by reflexivity.
  assert (E2 : forall d, ConfigStore.merged_property (json_of_config c) "readWebhookUrl" d
                         = JSON.JString (Config.readWebhookUrl c)) by reflexivity.
  assert (E3 : forall d, ConfigStore.merged_property (json_of_config c) "adminPassword" d
                         = JSON.JString (Config.adminPassword c)) by reflexivity.
  rewrite E1, E2, E3. now destruct c.
Qed.

Lemma read_stringify (c : Config.AppConfig) :
  ConfigStore.read webhookUrlSchema (Config.JSON_stringify c)
  = Config.configSchema_parse webhookUrlSchema c.
Proof.
  unfold ConfigStore.read. rewrite JSON_parse_stringify_config.
  apply parse_with_defaults_config.
Qed.

(** What [read] returns passes the schema. *)
Lemma read_valid (text : jsstring) (c : Config.AppConfig) :
  ConfigStore.read webhookUrlSchema text = Some c -> schema_valid webhookUrlSchema c.
Proof.
  unfold ConfigStore.read, ConfigStore.parse_with_defaults.
  destruct (JSON.parse text) as [parsed|]; [|discriminate].
  destruct (ConfigStore.merged_property parsed "submitWebhookUrl" _); try discriminate.
  destruct (ConfigStore.merged_property parsed "readWebhookUrl" _); try discriminate.
  destruct (ConfigStore.merged_property parsed "adminPassword" _); try discriminate.
  intros E. now apply configSchema_parse_sound in E as [-> H].
Qed.

(** [getConfig] when the encrypted entry reads as [c]. *)
Lemma getConfig_encrypted (w : World) (blob : jsstring) (c : Config.AppConfig) :
  localStorage w !! Config.ENCRYPTED_KEY = Some blob -> blob <> [] ->
  ConfigStore.read webhookUrlSchema (decryptFromStorage blob) = Some c ->
  ConfigStore.getConfig webhookUrlSchema migrate w = (c, w).
Proof.
  intros E Hb Hr. unfold ConfigStore.getConfig, bind, localStorage_getItem, ret.
  rewrite E. cbn [falsy_item from_option id].
  destruct blob; [congruence|]. cbn [falsy]. now rewrite Hr.
Qed.

(** [getConfig] without a legacy entry. *)
Lemma getConfig_no_legacy (w : World) :
  no_legacy w ->
  ConfigStore.getConfig webhookUrlSchema migrate w
  = (match localStorage w !! Config.ENCRYPTED_KEY with
     | Some blob =>
         if falsy blob then Config.DEFAULT_CONFIG
         else default Config.DEFAULT_CONFIG
                (ConfigStore.read webhookUrlSchema (decryptFromStorage blob))
     | None => Config.DEFAULT_CONFIG
     end, w).
Proof.
  intros Hl. unfold ConfigStore.getConfig, bind, localStorage_getItem, ret.
  unfold no_legacy in Hl.
  destruct (localStorage w !! Config.ENCRYPTED_KEY) as [blob|]; cbn [falsy_item].
  - destruct (falsy blob); [now rewrite Hl|]. cbn [from_option id].
    destruct (ConfigStore.read _ _); [reflexivity|]. now rewrite Hl.
  - now rewrite Hl.
Qed.

End StoreFacts.

(** ** [src/lib/config.ts]: reading back *)

Lemma saveConfig_run (v : jsstring -> bool) (current : Config.AppConfig)
    (config : Config.PartialAppConfig) (w : World) :
  Config.saveConfig v current config w =
    match Config.configSchema_parse v (to_store current config) with
    | None => (Throw ValidationFailed, w)
    | Some validated =>
        match encryptForStorage (Config.JSON_stringify validated) with
        | Throw e => (Throw e, w)
        | Ok blob => (Ok tt, stored blob w)
        end
    end.
Proof.
  unfold Config.saveConfig, to_store. cbv zeta.
  destruct (negb (falsy _)), (negb (str_eqb _ _)), (negb (Config.isAlreadyHashed _));
    cbn [andb];
    (destruct (Config.configSchema_parse _ _); [|reflexivity]);
    now destruct (encryptForStorage _).
Qed.

Lemma encryptForStorage_nonempty (data blob : jsstring) :
  data <> [] -> encryptForStorage data = Ok blob -> blob <> [].
Proof.
  intros Hd. rewrite encryptForStorage_spec. destruct (latin1 data); [|discriminate].
  destruct data as [|c s]; [congruence|]. cbn [falsy]. intros Hok Hnil. subst blob.
  assert (Hne : falsy (Base64.encode (xor_loop 0 (c :: s))) = false).
  { apply encode_nonempty. cbn [xor_loop]. discriminate. }
  destruct (Base64.encode (xor_loop 0 (c :: s))); discriminate.
Qed.

Lemma config_text_nonempty (c : Config.AppConfig) : Config.JSON_stringify c <> [].
Proof. discriminate. Qed.

Lemma saveConfig_ok (v : jsstring -> bool) (current : Config.AppConfig)
    (config : Config.PartialAppConfig) (w w' : World) :
  Config.saveConfig v current config w = (Ok tt, w') ->
  schema_valid v (to_store current config)
  /\ exists blob,
       encryptForStorage (Config.JSON_stringify (to_store current config)) = Ok blob
       /\ blob <> [] /\ w' = stored blob w.
Proof.
  rewrite saveConfig_run.
  destruct (Config.configSchema_parse _ _) as [validated|] eqn:Ev; [|discriminate].
  apply configSchema_parse_sound in Ev as [-> Hvalid].
  destruct (encryptForStorage _) as [blob|e] eqn:Ee; [|discriminate].
  intros [= <-]. split; [exact Hvalid|]. exists blob. split; [reflexivity|].
  split; [|reflexivity].
  eapply encryptForStorage_nonempty; [apply config_text_nonempty|exact Ee].
Qed.

Section RoundTrip.

Variable webhookUrlSchema : jsstring -> bool.
Variable migrate : Config.AppConfig -> M Config.AppConfig.

(** Once a blob is stored, [getConfig] reads the config back and writes
    nothing. *)
Lemma getConfig_stored (c : Config.AppConfig) (blob : jsstring) (w : World) :
  schema_valid webhookUrlSchema c ->
  encryptForStorage (Config.JSON_stringify c) = Ok blob -> blob <> [] ->
  ConfigStore.getConfig webhookUrlSchema migrate (stored blob w) = (c, stored blob w).
Proof.
  intros Hvalid Hblob Hne. apply (getConfig_encrypted _ _ _ blob).
  - unfold stored, with_local. cbn [localStorage].
    rewrite lookup_delete_ne by discriminate. apply lookup_insert_eq.
  - exact Hne.
  - rewrite (decrypt_encrypt _ _ Hblob), read_stringify.
    now apply configSchema_parse_valid.
Qed.

Lemma to_store_urls (current : Config.AppConfig) (config : Config.PartialAppConfig) :
  Config.submitWebhookUrl (to_store current config)
  = default (Config.submitWebhookUrl current) (Config.submitWebhookUrl' config)
  /\ Config.readWebhookUrl (to_store current config)
     = default (Config.readWebhookUrl current) (Config.readWebhookUrl' config).
Proof. unfold to_store. cbv zeta. now destruct (_ && _). Qed.

Lemma to_store_password (current : Config.AppConfig) (config : Config.PartialAppConfig) :
  let p := default (Config.adminPassword current) (Config.adminPassword' config) in
  Config.adminPassword (to_store current config)
  = if negb (falsy p) && negb (str_eqb p (Config.adminPassword current))
       && negb (Config.isAlreadyHashed p)
    then hashPassword p else p.
Proof. unfold to_store. cbv zeta. cbn [Config.spread Config.adminPassword]. now destruct (_ && _). Qed.

End RoundTrip.

(** [X17].  After a [saveConfig] that resolved, [getConfig] returns,
    without writing, a config that passes [configSchema]: each URL is the
    one given, or the earlier one where none was given; the password is
    the digest of a given password that differs from the earlier one and
    is not of the shape of a digest, and the earlier password when none
    was given. *)
Theorem getConfig_after_saveConfig
    (webhookUrlSchema : jsstring -> bool)
    (migrate : Config.AppConfig -> M Config.AppConfig)
    (config : Config.PartialAppConfig) (w w' : World) :
  ConfigStore.saveConfig webhookUrlSchema migrate config w = (Ok tt, w') ->
  let current := fst (ConfigStore.getConfig webhookUrlSchema migrate w) in
  exists validated,
    ConfigStore.getConfig webhookUrlSchema migrate w' = (validated, w')
    /\ schema_valid webhookUrlSchema validated
    /\ Config.submitWebhookUrl validated
       = default (Config.submitWebhookUrl current) (Config.submitWebhookUrl' config)
    /\ Config.readWebhookUrl validated
       = default (Config.readWebhookUrl current) (Config.readWebhookUrl' config)
    /\ (forall p, Config.adminPassword' config = Some p ->
        p <> Config.adminPassword current -> Config.isAlreadyHashed p = false ->
        Config.adminPassword validated = hashPassword p)
    /\ (Config.adminPassword' config = None ->
        Config.adminPassword validated = Config.adminPassword current).
Proof.
  unfold ConfigStore.saveConfig, bind.
  destruct (ConfigStore.getConfig webhookUrlSchema migrate w) as [current w1].
  intros Hsave. cbn [fst]. cbv zeta.
  apply saveConfig_ok in Hsave as (Hvalid & blob & Hblob & Hne & ->).
  exists (to_store current config).
  split; [now apply getConfig_stored|]. split; [exact Hvalid|].
  split; [apply to_store_urls|]. split; [apply to_store_urls|].
  pose proof (to_store_password current config) as Hpw. cbv zeta in Hpw.
  split.
  - intros p Hp Hdiff Hplain. rewrite Hp in Hpw. cbn [from_option id] in Hpw.
    unfold str_eqb in Hpw. rewrite bool_decide_eq_false_2, Hplain in Hpw by exact Hdiff.
    destruct p as [|c p]; [|exact Hpw].
    cbn in Hpw. destruct Hvalid as (_ & _ & Hlen). rewrite Hpw in Hlen. cbn in Hlen. lia.
  - intros Hnone. rewrite Hnone in Hpw. cbn [from_option id] in Hpw.
    unfold str_eqb in Hpw. rewrite bool_decide_eq_true_2 in Hpw by reflexivity.
    now rewrite andb_false_r in Hpw.
Qed.

Lemma saved_tab_saved :
  ConfigStore.saveConfig accepts_default_urls no_migration
    (password_only (js "correct horse")) fresh_tab = (Ok tt, saved_tab).
Proof.
  assert (H : fst (ConfigStore.saveConfig accepts_default_urls no_migration
                     (password_only (js "correct horse")) fresh_tab) = Ok tt)
    by (vm_compute; reflexivity).
  unfold saved_tab. rewrite <- H. apply surjective_pairing.
Qed.

Lemma getConfig_after_saveConfig_witness :
  let current := fst (ConfigStore.getConfig accepts_default_urls no_migration fresh_tab) in
  exists validated,
    ConfigStore.getConfig accepts_default_urls no_migration saved_tab = (validated, saved_tab)
    /\ schema_valid accepts_default_urls validated
    /\ Config.submitWebhookUrl validated
       = default (Config.submitWebhookUrl current)
                 (Config.submitWebhookUrl' (password_only (js "correct horse")))
    /\ Config.readWebhookUrl validated
       = default (Config.readWebhookUrl current)
                 (Config.readWebhookUrl' (password_only (js "correct horse")))
    /\ (forall p, Config.adminPassword' (password_only (js "correct horse")) = Some p ->
        p <> Config.adminPassword current -> Config.isAlreadyHashed p = false ->
        Config.adminPassword validated = hashPassword p)
    /\ (Config.adminPassword' (password_only (js "correct horse")) = None ->
        Config.adminPassword validated = Config.adminPassword current).
Proof.
  apply (getConfig_after_saveConfig accepts_default_urls no_migration
           (password_only (js "correct horse")) fresh_tab saved_tab).
  apply saved_tab_saved.
Defined.

Lemma read_empty (webhookUrlSchema : jsstring -> bool) :
  ConfigStore.read webhookUrlSchema [] = None.
Proof. reflexivity. Qed.

(** [X18].  Where no legacy entry is stored, [getConfig] writes nothing
    and returns either [DEFAULT_CONFIG] or a config that passes
    [configSchema]; it returns [DEFAULT_CONFIG] when no encrypted entry
    exists and when the entry holds a character that is neither ASCII
    white space nor base64. *)
Theorem getConfig_without_legacy
    (webhookUrlSchema : jsstring -> bool)
    (migrate : Config.AppConfig -> M Config.AppConfig) (w : World) :
  no_legacy w ->
  let '(config, w') := ConfigStore.getConfig webhookUrlSchema migrate w in
  w' = w
  /\ (config = Config.DEFAULT_CONFIG \/ schema_valid webhookUrlSchema config)
  /\ (localStorage w !! Config.ENCRYPTED_KEY = None -> config = Config.DEFAULT_CONFIG)
  /\ (forall blob c,
        localStorage w !! Config.ENCRYPTED_KEY = Some blob ->
        List.In c blob -> Base64.is_ascii_whitespace c = false -> is_base64_char c = false ->
        config = Config.DEFAULT_CONFIG).
Proof.
  intros Hl. rewrite (getConfig_no_legacy _ _ _ Hl).
  split; [reflexivity|].
  destruct (localStorage w !! Config.ENCRYPTED_KEY) as [blob|].
  2:{ split; [now left|]. split; [reflexivity|discriminate]. }
  destruct (falsy blob).
  { split; [now left|]. split; [discriminate|reflexivity]. }
  split; [|split; [discriminate|]].
  - destruct (ConfigStore.read _ _) as [c|] eqn:Er; [|now left].
    right. eapply read_valid, Er.
  - intros blob' c [= <-] Hin Hws Hc.
    now rewrite (decryptFromStorage_unknown blob c), read_empty.
Qed.

Lemma getConfig_without_legacy_witness :
  let '(config, w') := ConfigStore.getConfig accepts_default_urls no_migration corrupted_tab in
  w' = corrupted_tab
  /\ (config = Config.DEFAULT_CONFIG \/ schema_valid accepts_default_urls config)
  /\ (localStorage corrupted_tab !! Config.ENCRYPTED_KEY = None ->
      config = Config.DEFAULT_CONFIG)
  /\ (forall blob c,
        localStorage corrupted_tab !! Config.ENCRYPTED_KEY = Some blob ->
        List.In c blob -> Base64.is_ascii_whitespace c = false -> is_base64_char c = false ->
        config = Config.DEFAULT_CONFIG).
Proof.
  apply (getConfig_without_legacy accepts_default_urls no_migration corrupted_tab).
  reflexivity.
Defined.

(** *** Saving again *)

Lemma to_store_again (current : Config.AppConfig) (config : Config.PartialAppConfig) :
  to_store (to_store current config) config = to_store current config.
Proof.
  destruct (to_store_urls (to_store current config) config) as [S1 R1].
  destruct (to_store_urls current config) as [S0 R0].
  pose proof (to_store_password (to_store current config) config) as P1.
  pose proof (to_store_password current config) as P0. cbv zeta in P0, P1.
  assert (E : forall c c' : Config.AppConfig,
            Config.submitWebhookUrl c = Config.submitWebhookUrl c' ->
            Config.readWebhookUrl c = Config.readWebhookUrl c' ->
            Config.adminPassword c = Config.adminPassword c' -> c = c').
  { intros [] [] ? ? ?. cbn in *. congruence. }
  apply E.
  - rewrite S1, S0. now destruct (Config.submitWebhookUrl' config).
  - rewrite R1, R0. now destruct (Config.readWebhookUrl' config).
  - rewrite P1. unfold str_eqb in *.
    destruct (Config.adminPassword' config) as [p|]; cbn [from_option id] in *.
    + destruct (negb (falsy p) && negb (bool_decide (p = Config.adminPassword current))
                && negb (Config.isAlreadyHashed p)) eqn:Hc.
      * rewrite P0. apply andb_true_iff in Hc as [Hc Hh]. apply andb_true_iff in Hc as [Hf _].
        rewrite Hf, Hh. apply negb_true_iff in Hh.
        rewrite bool_decide_eq_false_2; [reflexivity|].
        intros Ep. symmetry in Ep. now apply hashPassword_not_plain in Ep.
      * rewrite P0. rewrite bool_decide_eq_true_2 by reflexivity.
        now rewrite andb_false_r.
    + rewrite bool_decide_eq_true_2 by reflexivity. now rewrite andb_false_r.
Qed.

Lemma stored_again (blob : jsstring) (w : World) : stored blob (stored blob w) = stored blob w.
Proof.
  unfold stored, with_local. cbn [sessionStorage localStorage clock ticks entropy drawn].
  f_equal. apply map_eq. intros k.
  destruct (decide (k = Config.STORAGE_KEY)) as [->|Hk];
    [now rewrite !lookup_delete_eq|].
  rewrite !lookup_delete_ne by congruence.
  destruct (decide (k = Config.ENCRYPTED_KEY)) as [->|He];
    [now rewrite !lookup_insert_eq|].
  rewrite !lookup_insert_ne by congruence.
  now rewrite lookup_delete_ne, lookup_insert_ne by congruence.
Qed.

Lemma to_store_no_change (c : Config.AppConfig) : to_store c no_change = c.
Proof.
  unfold to_store, no_change, Config.spread.
  cbn [Config.submitWebhookUrl' Config.readWebhookUrl' Config.adminPassword' from_option id].
  unfold str_eqb. rewrite bool_decide_eq_true_2 by reflexivity.
  rewrite andb_false_r. cbn [negb andb]. now destruct c.
Qed.

(** [X19].  After a [saveConfig] that resolved, the same call once more,
    and a call with no property at all, resolve and leave the world as it
    is. *)
Theorem saveConfig_idempotent
    (webhookUrlSchema : jsstring -> bool)
    (migrate : Config.AppConfig -> M Config.AppConfig)
    (config : Config.PartialAppConfig) (w w' : World) :
  ConfigStore.saveConfig webhookUrlSchema migrate config w = (Ok tt, w') ->
  ConfigStore.saveConfig webhookUrlSchema migrate config w' = (Ok tt, w')
  /\ ConfigStore.saveConfig webhookUrlSchema migrate no_change w' = (Ok tt, w').
Proof.
  unfold ConfigStore.saveConfig at 1. unfold bind.
  destruct (ConfigStore.getConfig webhookUrlSchema migrate w) as [current w1].
  intros Hsave. apply saveConfig_ok in Hsave as (Hvalid & blob & Hblob & Hne & ->).
  assert (Hagain : forall config',
            to_store (to_store current config) config' = to_store current config ->
            ConfigStore.saveConfig webhookUrlSchema migrate config' (stored blob w1)
            = (Ok tt, stored blob w1)).
  { intros config' E. unfold ConfigStore.saveConfig, bind.
    rewrite (getConfig_stored _ _ _ _ _ Hvalid Hblob Hne), saveConfig_run, E.
    rewrite (configSchema_parse_valid _ _ Hvalid), Hblob. now rewrite stored_again. }
  split; apply Hagain; [apply to_store_again|apply to_store_no_change].
Qed.

Lemma saveConfig_idempotent_witness :
  ConfigStore.saveConfig accepts_default_urls no_migration
    (password_only (js "correct horse")) saved_tab = (Ok tt, saved_tab)
  /\ ConfigStore.saveConfig accepts_default_urls no_migration no_change saved_tab
     = (Ok tt, saved_tab).
Proof.
  apply (saveConfig_idempotent accepts_default_urls no_migration
           (password_only (js "correct horse")) fresh_tab saved_tab).
  apply saved_tab_saved.
Defined.

(** ** [src/pages/Settings.tsx] and [src/pages/Admin.tsx] *)

Section Pages.

Variable webhookUrlSchema : jsstring -> bool.
Variable migrate : Config.AppConfig -> M Config.AppConfig.

(** The world a successful [saveConfig] leaves, and what [getConfig] reads
    in it. *)
Lemma saveConfig_full_ok (config : Config.PartialAppConfig) (w w' : World) :
  ConfigStore.saveConfig webhookUrlSchema migrate config w = (Ok tt, w') ->
  let current := fst (ConfigStore.getConfig webhookUrlSchema migrate w) in
  schema_valid webhookUrlSchema (to_store current config)
  /\ ConfigStore.getConfig webhookUrlSchema migrate w' = (to_store current config, w')
  /\ sessionStorage w'
     = sessionStorage (snd (ConfigStore.getConfig webhookUrlSchema migrate w))
  /\ clock w' = clock (snd (ConfigStore.getConfig webhookUrlSchema migrate w))
  /\ ticks w' = ticks (snd (ConfigStore.getConfig webhookUrlSchema migrate w)).
Proof.
  unfold ConfigStore.saveConfig, bind.
  destruct (ConfigStore.getConfig webhookUrlSchema migrate w) as [current w1].
  intros Hsave. cbn [fst snd]. cbv zeta.
  apply saveConfig_ok in Hsave as (Hvalid & blob & Hblob & Hne & ->).
  split; [exact Hvalid|]. split; [now apply getConfig_stored|].
  repeat split.
Qed.

(** [handleSave] where [getConfig] only reads. *)
Lemma handleSave_run (config : Config.AppConfig) (w : World) :
  no_legacy w ->
  Settings.handleSave webhookUrlSchema migrate config w =
    let currentConfig := fst (ConfigStore.getConfig webhookUrlSchema migrate w) in
    let blank := falsy (Config.adminPassword config)
                 && Config.isAlreadyHashed (Config.adminPassword currentConfig) in
    if negb (if blank then true
             else Settings.validateField Settings.adminPassword_ (Config.adminPassword config))
    then (Settings.NotSaved, w)
    else
      let configToSave :=
        if blank
        then Config.mkAppConfig (Config.submitWebhookUrl config) (Config.readWebhookUrl config)
                                (Config.adminPassword currentConfig)
        else config in
      match Config.saveConfig webhookUrlSchema currentConfig (all_of configToSave) w with
      | (Ok _, w') => (Settings.Saved, w')
      | (Throw e, w') => (Settings.SaveFailed e, w')
      end.
Proof.
  intros Hl. unfold Settings.handleSave, ConfigStore.saveConfig, bind.
  rewrite (getConfig_no_legacy _ _ _ Hl). cbn [fst]. cbv beta iota zeta.
  set (currentConfig := match localStorage w !! Config.ENCRYPTED_KEY with
                        | Some blob => _ | None => _ end).
  destruct (negb _); [reflexivity|]. cbv beta.
  rewrite (getConfig_no_legacy _ _ _ Hl). cbv beta iota. fold currentConfig.
  unfold all_of.
  destruct (Config.saveConfig _ _ _ w) as [[u|e] w']; reflexivity.
Qed.

(** What [getConfig] reads in the world that a successful
    [Config.saveConfig] leaves. *)
Lemma getConfig_saved (current : Config.AppConfig) (config : Config.PartialAppConfig)
    (w w' : World) :
  Config.saveConfig webhookUrlSchema current config w = (Ok tt, w') ->
  schema_valid webhookUrlSchema (to_store current config)
  /\ ConfigStore.getConfig webhookUrlSchema migrate w' = (to_store current config, w')
  /\ sessionStorage w' = sessionStorage w /\ clock w' = clock w /\ ticks w' = ticks w.
Proof.
  intros Hsave. apply saveConfig_ok in Hsave as (Hvalid & blob & Hblob & Hne & ->).
  split; [exact Hvalid|]. split; [now apply getConfig_stored|]. repeat split.
Qed.

Lemma handleSave_saved (config : Config.AppConfig) (w w' : World) :
  no_legacy w ->
  Settings.handleSave webhookUrlSchema migrate config w = (Settings.Saved, w') ->
  let currentConfig := fst (ConfigStore.getConfig webhookUrlSchema migrate w) in
  let blank := falsy (Config.adminPassword config)
               && Config.isAlreadyHashed (Config.adminPassword currentConfig) in
  let configToSave :=
    if blank
    then Config.mkAppConfig (Config.submitWebhookUrl config) (Config.readWebhookUrl config)
                            (Config.adminPassword currentConfig)
    else config in
  (blank = true
   \/ Settings.validateField Settings.adminPassword_ (Config.adminPassword config) = true)
  /\ Config.saveConfig webhookUrlSchema currentConfig (all_of configToSave) w = (Ok tt, w').
Proof.
  intros Hl. rewrite (handleSave_run _ _ Hl). cbv zeta.
  destruct (falsy (Config.adminPassword config) && _) eqn:Hb.
  - cbn [negb]. destruct (Config.saveConfig _ _ _ w) as [[[]|e] w1] eqn:Es; [|discriminate].
    intros [= <-]. split; [now left|reflexivity].
  - destruct (Settings.validateField _ _); cbn [negb]; [|discriminate].
    destruct (Config.saveConfig _ _ _ w) as [[[]|e] w1] eqn:Es; [|discriminate].
    intros [= <-]. split; [now right|reflexivity].
Qed.

Lemma handleLogin_run (password : jsstring) (config : Config.AppConfig) (w : World) :
  ConfigStore.getConfig webhookUrlSchema migrate w = (config, w) ->
  Admin.handleLogin webhookUrlSchema migrate password w =
    if falsy (Config.adminPassword config) then (Admin.NotConfigured, w)
    else (Admin.Answered (fst (authenticate password (Config.adminPassword config) w)),
          snd (authenticate password (Config.adminPassword config) w)).
Proof.
  intros E. unfold Admin.handleLogin, bind. rewrite E.
  destruct (falsy _); [reflexivity|]. now destruct (authenticate _ _ w).
Qed.

End Pages.

(** [X20].  Where no legacy entry is stored, [handleSave] with a
    non-empty password that [validatePasswordStrength] does not find valid
    ends without calling [saveConfig]: both buckets stay as they were. *)
Theorem handleSave_refuses_weak_password
    (webhookUrlSchema : jsstring -> bool)
    (migrate : Config.AppConfig -> M Config.AppConfig)
    (config : Config.AppConfig) (w : World) :
  no_legacy w ->
  Config.adminPassword config <> [] ->
  PasswordValidation.isValid
    (PasswordValidation.validatePasswordStrength (Config.adminPassword config)) = false ->
  Settings.handleSave webhookUrlSchema migrate config w = (Settings.NotSaved, w).
Proof.
  intros Hl Hp Hweak. rewrite (handleSave_run _ _ _ _ Hl). cbv zeta.
  destruct (Config.adminPassword config) as [|c p] eqn:E; [congruence|].
  cbn [falsy andb]. unfold Settings.validateField. cbn [falsy]. now rewrite Hweak.
Qed.

Lemma handleSave_refuses_weak_password_witness :
  Settings.handleSave accepts_default_urls no_migration (form_with (js "password")) fresh_tab
  = (Settings.NotSaved, fresh_tab).
Proof.
  apply (handleSave_refuses_weak_password accepts_default_urls no_migration
           (form_with (js "password")) fresh_tab).
  - reflexivity.
  - discriminate.
  - vm_compute. reflexivity.
Defined.

(** [X21].  Where no legacy entry is stored, after a [handleSave] that
    saved a new non-empty password not of the shape of a digest: the
    password was found valid by [validatePasswordStrength], the stored
    password is its digest, and while the gate is not locked out
    [handleLogin] with that password is answered with success, and with a
    password of another digest with a failure. *)
Theorem password_set_in_Settings_opens_Admin
    (webhookUrlSchema : jsstring -> bool)
    (migrate : Config.AppConfig -> M Config.AppConfig)
    (config : Config.AppConfig) (w w' : World) :
  no_legacy w ->
  Settings.handleSave webhookUrlSchema migrate config w = (Settings.Saved, w') ->
  Config.adminPassword config <> [] ->
  Config.isAlreadyHashed (Config.adminPassword config) = false ->
  Config.adminPassword config
  <> Config.adminPassword (fst (ConfigStore.getConfig webhookUrlSchema migrate w)) ->
  fst (isLockedOut w') = false ->
  PasswordValidation.isValid
    (PasswordValidation.validatePasswordStrength (Config.adminPassword config)) = true
  /\ Config.adminPassword (fst (ConfigStore.getConfig webhookUrlSchema migrate w'))
     = hashPassword (Config.adminPassword config)
  /\ fst (Admin.handleLogin webhookUrlSchema migrate (Config.adminPassword config) w')
     = Admin.Answered (mkAuthResult true None None)
  /\ (forall attempt,
        hashPassword attempt <> hashPassword (Config.adminPassword config) ->
        exists r, fst (Admin.handleLogin webhookUrlSchema migrate attempt w')
                  = Admin.Answered r /\ success r = false).
Proof.
  intros Hl Hsave Hp Hplain Hnew Hlock.
  destruct (handleSave_saved _ _ _ _ _ Hl Hsave) as [Hvalid Hs]. cbv zeta in Hvalid, Hs.
  set (current := fst (ConfigStore.getConfig webhookUrlSchema migrate w)) in *.
  assert (Hf : falsy (Config.adminPassword config) = false).
  { destruct (Config.adminPassword config); [congruence|reflexivity]. }
  rewrite Hf in Hvalid, Hs. cbn [andb] in Hvalid, Hs.
  destruct Hvalid as [Hvalid|Hvalid]; [discriminate|].
  unfold Settings.validateField in Hvalid. rewrite Hf in Hvalid.
  destruct (PasswordValidation.isValid _) eqn:Hstrong; [|discriminate].
  split; [reflexivity|].
  destruct (getConfig_saved webhookUrlSchema migrate _ _ _ _ Hs) as (_ & Hget & _).
  assert (Hpw : Config.adminPassword (to_store current (all_of config))
                = hashPassword (Config.adminPassword config)).
  { pose proof (to_store_password current (all_of config)) as H. cbv zeta in H.
    unfold all_of in H at 2 3 4 5. cbn [Config.adminPassword' from_option id] in H.
    unfold str_eqb in H. rewrite Hf, Hplain, bool_decide_eq_false_2 in H by exact Hnew.
    exact H. }
  rewrite Hget. cbn [fst]. split; [exact Hpw|].
  rewrite (handleLogin_run _ _ _ _ _ Hget), Hpw, hashPassword_nonempty. cbn [fst].
  split.
  - f_equal. destruct (isLockedOut w') as [locked w0] eqn:El. cbn [fst] in Hlock. subst.
    rewrite (authenticate_success _ _ _ _ El); [reflexivity|].
    now rewrite verifyPassword_digest, Hf.
  - intros attempt Hne.
    rewrite (handleLogin_run _ _ attempt _ _ Hget), Hpw, hashPassword_nonempty. cbn [fst].
    eexists. split; [reflexivity|].
    apply (authenticate_rejects attempt _ w' "adminAuth");
      [now apply verifyPassword_mismatch|discriminate].
Qed.

Lemma password_set_in_Settings_opens_Admin_witness :
  PasswordValidation.isValid
    (PasswordValidation.validatePasswordStrength
       (Config.adminPassword (form_with (js "Correct horse 1")))) = true
  /\ Config.adminPassword
       (fst (ConfigStore.getConfig accepts_default_urls no_migration
               (snd (Settings.handleSave accepts_default_urls no_migration
                       (form_with (js "Correct horse 1")) fresh_tab))))
     = hashPassword (Config.adminPassword (form_with (js "Correct horse 1")))
  /\ fst (Admin.handleLogin accepts_default_urls no_migration
            (Config.adminPassword (form_with (js "Correct horse 1")))
            (snd (Settings.handleSave accepts_default_urls no_migration
                    (form_with (js "Correct horse 1")) fresh_tab)))
     = Admin.Answered (mkAuthResult true None None)
  /\ (forall attempt,
        hashPassword attempt
        <> hashPassword (Config.adminPassword (form_with (js "Correct horse 1"))) ->
        exists r,
          fst (Admin.handleLogin accepts_default_urls no_migration attempt
                 (snd (Settings.handleSave accepts_default_urls no_migration
                         (form_with (js "Correct horse 1")) fresh_tab)))
          = Admin.Answered r /\ success r = false).
Proof.
  apply (password_set_in_Settings_opens_Admin accepts_default_urls no_migration
           (form_with (js "Correct horse 1")) fresh_tab).
  - reflexivity.
  - assert (H : fst (Settings.handleSave accepts_default_urls no_migration
                       (form_with (js "Correct horse 1")) fresh_tab) = Settings.Saved)
      by (vm_compute; reflexivity).
    rewrite <- H. apply surjective_pairing.
  - discriminate.
  - reflexivity.
  - vm_compute. discriminate.
  - vm_compute. reflexivity.
Defined.

(** [X22].  Where no legacy entry is stored, [handleSave] with the
    password field left empty keeps the stored password when that is of
    the shape of a digest (the URLs of the form are stored, or the save
    fails and writes nothing), and otherwise fails with the validation
    error, writing nothing. *)
Theorem handleSave_blank_password
    (webhookUrlSchema : jsstring -> bool)
    (migrate : Config.AppConfig -> M Config.AppConfig)
    (config : Config.AppConfig) (w : World) :
  no_legacy w ->
  Config.adminPassword config = [] ->
  let current := fst (ConfigStore.getConfig webhookUrlSchema migrate w) in
  let '(r, w') := Settings.handleSave webhookUrlSchema migrate config w in
  if Config.isAlreadyHashed (Config.adminPassword current) then
    match r with
    | Settings.Saved =>
        fst (ConfigStore.getConfig webhookUrlSchema migrate w')
        = Config.mkAppConfig (Config.submitWebhookUrl config) (Config.readWebhookUrl config)
                             (Config.adminPassword current)
    | Settings.SaveFailed _ => w' = w
    | Settings.NotSaved => False
    end
  else r = Settings.SaveFailed ValidationFailed /\ w' = w.
Proof.
  intros Hl Hp. cbv zeta. rewrite (handleSave_run _ _ _ _ Hl). cbv zeta.
  set (current := fst (ConfigStore.getConfig webhookUrlSchema migrate w)).
  rewrite Hp. cbn [falsy andb].
  destruct (Config.isAlreadyHashed (Config.adminPassword current)) eqn:Hh; cbn [negb].
  - destruct (Config.saveConfig _ _ _ w) as [[[]|e] w'] eqn:Es.
    + destruct (getConfig_saved webhookUrlSchema migrate _ _ _ _ Es) as (_ & -> & _).
      cbn [fst].
      unfold to_store, all_of, Config.spread.
      cbn [Config.submitWebhookUrl' Config.readWebhookUrl' Config.adminPassword'
           Config.submitWebhookUrl Config.readWebhookUrl Config.adminPassword from_option id].
      unfold str_eqb. rewrite bool_decide_eq_true_2 by reflexivity.
      now rewrite andb_false_r.
    + pose proof (saveConfig_throw_keeps_world webhookUrlSchema current
                    (all_of (Config.mkAppConfig (Config.submitWebhookUrl config)
                               (Config.readWebhookUrl config)
                               (Config.adminPassword current))) w) as H.
      rewrite Es in H. exact (H e eq_refl).
  - unfold Settings.validateField. cbn [falsy negb].
    rewrite saveConfig_empty_password; [split; reflexivity|].
    unfold all_of, Config.spread. cbn. exact Hp.
Qed.

Lemma handleSave_blank_password_witness :
  let current := fst (ConfigStore.getConfig accepts_default_urls no_migration saved_tab) in
  let '(r, w') := Settings.handleSave accepts_default_urls no_migration (form_with [])
                    saved_tab in
  if Config.isAlreadyHashed (Config.adminPassword current) then
    match r with
    | Settings.Saved =>
        fst (ConfigStore.getConfig accepts_default_urls no_migration w')
        = Config.mkAppConfig (Config.submitWebhookUrl (form_with []))
                             (Config.readWebhookUrl (form_with []))
                             (Config.adminPassword current)
    | Settings.SaveFailed _ => w' = saved_tab
    | Settings.NotSaved => False
    end
  else r = Settings.SaveFailed ValidationFailed /\ w' = saved_tab.
Proof.
  apply (handleSave_blank_password accepts_default_urls no_migration (form_with []) saved_tab).
  - vm_compute. reflexivity.
  - reflexivity.
Defined.

(** [X23].  With neither an encrypted nor a legacy entry stored,
    [handleLogin] reports that no password is configured, whatever the
    password typed, and does not touch the gate: no attempt is counted. *)
Theorem handleLogin_not_configured
    (webhookUrlSchema : jsstring -> bool)
    (migrate : Config.AppConfig -> M Config.AppConfig)
    (password : jsstring) (w : World) :
  no_legacy w ->
  localStorage w !! Config.ENCRYPTED_KEY = None ->
  Admin.handleLogin webhookUrlSchema migrate password w = (Admin.NotConfigured, w).
Proof.
  intros Hl He.
  assert (Hget : ConfigStore.getConfig webhookUrlSchema migrate w = (Config.DEFAULT_CONFIG, w)).
  { rewrite (getConfig_no_legacy _ _ _ Hl). now rewrite He. }
  now rewrite (handleLogin_run _ _ _ _ _ Hget).
Qed.

Lemma handleLogin_not_configured_witness :
  Admin.handleLogin accepts_default_urls no_migration (js "correct") fresh_tab
  = (Admin.NotConfigured, fresh_tab).
Proof.
  apply (handleLogin_not_configured accepts_default_urls no_migration (js "correct") fresh_tab);
    reflexivity.
Defined.

Lemma verifyPassword_not_lower_hex (password storedHash : jsstring) :
  List.forallb lower_hex storedHash = false -> verifyPassword password storedHash = false.
Proof.
  intros H. apply verifyPassword_mismatch. intros E. subst storedHash.
  now rewrite hashPassword_lower in H.
Qed.

(** [X24].  Where no legacy entry is stored, a new password of 64
    hexadecimal digits that [handleSave] saved is stored as it is; if one
    of its characters is not a digit or a lower-case letter a to f, no
    password typed into [handleLogin] is ever accepted afterwards. *)
Theorem hex_shaped_password_locks_out
    (webhookUrlSchema : jsstring -> bool)
    (migrate : Config.AppConfig -> M Config.AppConfig)
    (config : Config.AppConfig) (w w' : World) :
  no_legacy w ->
  Settings.handleSave webhookUrlSchema migrate config w = (Settings.Saved, w') ->
  Config.isAlreadyHashed (Config.adminPassword config) = true ->
  List.forallb lower_hex (Config.adminPassword config) = false ->
  Config.adminPassword (fst (ConfigStore.getConfig webhookUrlSchema migrate w'))
  = Config.adminPassword config
  /\ forall attempt,
       exists r, fst (Admin.handleLogin webhookUrlSchema migrate attempt w') = Admin.Answered r
                 /\ success r = false.
Proof.
  intros Hl Hsave Hhex Hupper.
  destruct (handleSave_saved _ _ _ _ _ Hl Hsave) as [_ Hs]. cbv zeta in Hs.
  set (current := fst (ConfigStore.getConfig webhookUrlSchema migrate w)) in *.
  assert (Hf : falsy (Config.adminPassword config) = false).
  { unfold Config.isAlreadyHashed in Hhex. destruct (Config.adminPassword config);
      [discriminate|reflexivity]. }
  rewrite Hf in Hs. cbn [andb] in Hs.
  destruct (getConfig_saved webhookUrlSchema migrate _ _ _ _ Hs) as (_ & Hget & _).
  assert (Hpw : Config.adminPassword (to_store current (all_of config))
                = Config.adminPassword config).
  { pose proof (to_store_password current (all_of config)) as H. cbv zeta in H.
    unfold all_of in H at 2 3 4 5. cbn [Config.adminPassword' from_option id] in H.
    rewrite Hhex in H. cbn [negb] in H. now rewrite andb_false_r in H. }
  rewrite Hget. cbn [fst]. split; [exact Hpw|].
  intros attempt. rewrite (handleLogin_run _ _ attempt _ _ Hget), Hpw, Hf. cbn [fst].
  eexists. split; [reflexivity|].
  apply (authenticate_rejects attempt _ w' "adminAuth");
    [now apply verifyPassword_not_lower_hex|discriminate].
Qed.

Lemma hex_shaped_password_locks_out_witness :
  Config.adminPassword
    (fst (ConfigStore.getConfig accepts_default_urls no_migration
            (snd (Settings.handleSave accepts_default_urls no_migration
                    (form_with hex_shaped_password) fresh_tab))))
  = Config.adminPassword (form_with hex_shaped_password)
  /\ forall attempt,
       exists r,
         fst (Admin.handleLogin accepts_default_urls no_migration attempt
                (snd (Settings.handleSave accepts_default_urls no_migration
                        (form_with hex_shaped_password) fresh_tab)))
         = Admin.Answered r
         /\ success r = false.
Proof.
  apply (hex_shaped_password_locks_out accepts_default_urls no_migration
           (form_with hex_shaped_password) fresh_tab).
  - reflexivity.
  - assert (H : fst (Settings.handleSave accepts_default_urls no_migration
                       (form_with hex_shaped_password) fresh_tab) = Settings.Saved)
      by (vm_compute; reflexivity).
    rewrite <- H. apply surjective_pairing.
  - vm_compute. reflexivity.
  - vm_compute. reflexivity.
Defined.

(** ** [src/pages/Admin.tsx]: lead statuses *)

Lemma ascii_lower_letters (s : jsstring) : lower_letters s = true -> ascii_lower s = s.
Proof.
  unfold lower_letters, ascii_lower. induction s as [|c s IH]; [reflexivity|].
  cbn [List.forallb List.map]. intros H. apply andb_true_iff in H as [Hc Hs].
  rewrite IH by exact Hs. f_equal.
  unfold PasswordValidation.is_lower in Hc. unfold PasswordValidation.is_upper.
  apply andb_true_iff in Hc as [H1 H2]. apply N.leb_le in H1, H2.
  destruct (N.leb_spec 65 c), (N.leb_spec c 90); cbn [andb]; try reflexivity; lia.
Qed.

(** [X25].  With a [toLowerCase] that leaves strings of the letters a to z
    alone, [normalizeStatus] returns one of [failed], [completed],
    [pending], [processing], the last for a missing or empty status;
    applied to its own result it keeps [failed], [completed] and
    [pending] but turns [processing] into [completed]. *)
Theorem normalizeStatus_twice (toLowerCase : jsstring -> jsstring) :
  (forall s, lower_letters s = true -> toLowerCase s = s) ->
  forall raw : option jsstring,
    let status := Admin.normalizeStatus toLowerCase raw in
    (status = js "failed" \/ status = js "completed" \/ status = js "pending"
     \/ status = js "processing")
    /\ Admin.normalizeStatus toLowerCase (Some status)
       = (if str_eqb status (js "processing") then js "completed" else status)
    /\ (raw = None \/ raw = Some [] -> status = js "processing").
Proof.
  intros Hlow raw. cbv zeta.
  assert (Hf : Admin.normalizeStatus toLowerCase (Some (js "failed")) = js "failed").
  { unfold Admin.normalizeStatus. cbn [from_option id]. now rewrite Hlow. }
  assert (Hc : Admin.normalizeStatus toLowerCase (Some (js "completed")) = js "completed").
  { unfold Admin.normalizeStatus. cbn [from_option id]. now rewrite Hlow. }
  assert (Hp : Admin.normalizeStatus toLowerCase (Some (js "pending")) = js "pending").
  { unfold Admin.normalizeStatus. cbn [from_option id]. now rewrite Hlow. }
  assert (Hq : Admin.normalizeStatus toLowerCase (Some (js "processing")) = js "completed").
  { unfold Admin.normalizeStatus. cbn [from_option id]. now rewrite Hlow. }
  assert (He : Admin.normalizeStatus toLowerCase (Some []) = js "processing").
  { unfold Admin.normalizeStatus. cbn [from_option id]. now rewrite Hlow. }
  split; [|split].
  - unfold Admin.normalizeStatus.
    destruct (Admin.includes _ (js "fail")); [now left|].
    destruct (_ || _ || _); [right; now left|].
    destruct (_ || _); [right; right; now left|right; right; now right].
  - unfold Admin.normalizeStatus at 2 3 4.
    destruct (Admin.includes _ (js "fail")); [exact Hf|].
    destruct (_ || _ || _); [exact Hc|].
    destruct (_ || _); [exact Hp|exact Hq].
  - intros [->| ->]; exact He.
Qed.

Lemma normalizeStatus_twice_witness :
  let status := Admin.normalizeStatus ascii_lower (Some (js "Processing")) in
  (status = js "failed" \/ status = js "completed" \/ status = js "pending"
   \/ status = js "processing")
  /\ Admin.normalizeStatus ascii_lower (Some status)
     = (if str_eqb status (js "processing") then js "completed" else status)
  /\ (Some (js "Processing") = None \/ Some (js "Processing") = Some [] ->
      status = js "processing").
Proof.
  apply (normalizeStatus_twice ascii_lower ascii_lower_letters (Some (js "Processing"))).
Defined.

(** ** [src/lib/leadSchema.ts] *)

Section TrimFacts.

Import LeadSchema.

Lemma trim_start_clean (s : jsstring) : starts_clean (trim_start s).
Proof.
  induction s as [|c s IH]; [exact I|]. cbn [trim_start].
  destruct (is_white_space c) eqn:E; [exact IH|exact E].
Qed.

Lemma trim_start_id (s : jsstring) : starts_clean s -> trim_start s = s.
Proof. destruct s as [|c s]; [reflexivity|]. cbn. now intros ->. Qed.

(** [trim_start] drops a prefix of white space. *)
Lemma trim_start_split (s : jsstring) :
  exists pre, s = pre ++ trim_start s /\ List.forallb is_white_space pre = true.
Proof.
  induction s as [|c s (pre & E & Hpre)]; [now exists []|].
  cbn [trim_start]. destruct (is_white_space c) eqn:Ec.
  - exists (c :: pre). split; [cbn; now f_equal|]. cbn. now rewrite Ec.
  - now exists [].
Qed.

(** Dropping white space at the end keeps a clean beginning. *)
Lemma trim_end_clean (s : jsstring) :
  starts_clean s -> starts_clean (List.rev (trim_start (List.rev s))).
Proof.
  destruct s as [|h s]; [intros _; exact I|]. cbn [starts_clean]. intros Hh.
  destruct (trim_start_split (List.rev (h :: s))) as (pre & E & Hpre).
  destruct (trim_start (List.rev (h :: s))) as [|c t] using List.rev_ind.
  - exfalso. rewrite List.app_nil_r in E. cbn [List.rev] in E.
    assert (Hin : List.In h pre) by (rewrite <- E; apply List.in_or_app; right; now left).
    rewrite List.forallb_forall in Hpre. specialize (Hpre h Hin). congruence.
  - cbn [List.rev] in E. rewrite List.app_assoc in E.
    apply List.app_inj_tail in E as [_ <-].
    rewrite List.rev_app_distr. exact Hh.
Qed.

Lemma trim_clean (s : jsstring) :
  starts_clean (trim s) /\ starts_clean (List.rev (trim s)).
Proof.
  unfold trim. split.
  - apply trim_end_clean, trim_start_clean.
  - rewrite List.rev_involutive. apply trim_start_clean.
Qed.

Lemma trim_fixed (s : jsstring) :
  starts_clean s -> starts_clean (List.rev s) -> trim s = s.
Proof.
  intros H1 H2. unfold trim. rewrite (trim_start_id s H1), (trim_start_id _ H2).
  apply List.rev_involutive.
Qed.

Lemma trim_trim (s : jsstring) : trim (trim s) = trim s.
Proof. destruct (trim_clean s). now apply trim_fixed. Qed.

End TrimFacts.

(** [X26].  What [leadSchema] lets through is the input with every field
    trimmed: each field then has at least one character and at most 100,
    255, 30 and 200; the phone number consists of digits, white space and
    the signs [+-()] and neither begins nor ends with white space; and the
    result passes the schema again, unchanged. *)
Theorem leadSchema_parse_normalises
    (is_email : jsstring -> bool) (data parsed : LeadSchema.LeadFormData) :
  LeadSchema.leadSchema_parse is_email data = Some parsed ->
  parsed = LeadSchema.mkLeadFormData
             (LeadSchema.trim (LeadSchema.name data)) (LeadSchema.trim (LeadSchema.email data))
             (LeadSchema.trim (LeadSchema.phone data))
             (LeadSchema.trim (LeadSchema.company data))
  /\ (1 <= List.length (LeadSchema.name parsed) <= 100)%nat
  /\ (1 <= List.length (LeadSchema.email parsed) <= 255)%nat
  /\ (1 <= List.length (LeadSchema.phone parsed) <= 30)%nat
  /\ (1 <= List.length (LeadSchema.company parsed) <= 200)%nat
  /\ List.forallb LeadSchema.is_phone_char (LeadSchema.phone parsed) = true
  /\ starts_clean (LeadSchema.phone parsed)
  /\ starts_clean (List.rev (LeadSchema.phone parsed))
  /\ LeadSchema.leadSchema_parse is_email parsed = Some parsed.
Proof.
  unfold LeadSchema.leadSchema_parse at 1. cbv zeta.
  destruct (_ && _) eqn:Hc; [|discriminate]. intros [= <-].
  cbn [LeadSchema.name LeadSchema.email LeadSchema.phone LeadSchema.company].
  pose proof Hc as Hc'.
  apply andb_true_iff in Hc as [Hc H4]. apply andb_true_iff in Hc as [Hc H3].
  apply andb_true_iff in Hc as [H1 H2].
  apply andb_true_iff in H2 as [H2 He]. apply andb_true_iff in H3 as [H3 Hr].
  unfold LeadSchema.length_in in H1, H2, H3, H4.
  apply andb_true_iff in H1 as [H1a H1b]. apply andb_true_iff in H2 as [H2a H2b].
  apply andb_true_iff in H3 as [H3a H3b]. apply andb_true_iff in H4 as [H4a H4b].
  apply Nat.leb_le in H1a, H1b, H2a, H2b, H3a, H3b, H4a, H4b.
  unfold LeadSchema.phone_regex in Hr. apply andb_true_iff in Hr as [_ Hr].
  split; [reflexivity|]. repeat (split; [lia|]). split; [exact Hr|].
  split; [apply trim_clean|]. split; [apply trim_clean|].
  unfold LeadSchema.leadSchema_parse. cbv zeta.
  cbn [LeadSchema.name LeadSchema.email LeadSchema.phone LeadSchema.company].
  rewrite !trim_trim. now rewrite Hc'.
Qed.

Lemma leadSchema_parse_normalises_witness :
  LeadSchema.mkLeadFormData (js "Ada Lovelace") (js "ada@example.org")
                            (js "+44 (0)20 7946-0000") (js "Analytical Engines")
  = LeadSchema.mkLeadFormData
      (LeadSchema.trim (LeadSchema.name sample_lead))
      (LeadSchema.trim (LeadSchema.email sample_lead))
      (LeadSchema.trim (LeadSchema.phone sample_lead))
      (LeadSchema.trim (LeadSchema.company sample_lead)).
Proof.
  apply (leadSchema_parse_normalises has_at_sign sample_lead
           (LeadSchema.mkLeadFormData (js "Ada Lovelace") (js "ada@example.org")
              (js "+44 (0)20 7946-0000") (js "Analytical Engines"))).
  vm_compute. reflexivity.
Defined.

(** ** [src/main.tsx] *)

(** [X27].  Where no legacy entry is stored, [applyRuntimeConfigOverride]
    leaves the admin password that [getConfig] returns and
    [sessionStorage] as they were, whatever the fetched JSON holds; while
    that password is empty, it changes nothing at all. *)
Theorem runtime_override_keeps_password
    (webhookUrlSchema : jsstring -> bool)
    (migrate : Config.AppConfig -> M Config.AppConfig)
    (json : option JSON.json) (w : World) :
  no_legacy w ->
  let w' := snd (Main.applyRuntimeConfigOverride webhookUrlSchema migrate json w) in
  Config.adminPassword (fst (ConfigStore.getConfig webhookUrlSchema migrate w'))
  = Config.adminPassword (fst (ConfigStore.getConfig webhookUrlSchema migrate w))
  /\ sessionStorage w' = sessionStorage w
  /\ (Config.adminPassword (fst (ConfigStore.getConfig webhookUrlSchema migrate w)) = [] ->
      w' = w).
Proof.
  intros Hl. cbv zeta.
  assert (Hsave : forall config,
            Config.adminPassword' config = None ->
            let w' := snd (ConfigStore.saveConfig webhookUrlSchema migrate config w) in
            Config.adminPassword (fst (ConfigStore.getConfig webhookUrlSchema migrate w'))
            = Config.adminPassword (fst (ConfigStore.getConfig webhookUrlSchema migrate w))
            /\ sessionStorage w' = sessionStorage w
            /\ (Config.adminPassword
                  (fst (ConfigStore.getConfig webhookUrlSchema migrate w)) = [] -> w' = w)).
  { intros config Hnone. cbv zeta. unfold ConfigStore.saveConfig, bind.
    rewrite (getConfig_no_legacy _ _ _ Hl). cbn [fst].
    set (current := match localStorage w !! Config.ENCRYPTED_KEY with
                    | Some blob => _ | None => _ end).
    destruct (Config.saveConfig webhookUrlSchema current config w) as [[[]|e] w'] eqn:Es;
      cbn [snd].
    - destruct (getConfig_saved webhookUrlSchema migrate _ _ _ _ Es)
        as (Hvalid & -> & Hss & _).
      cbn [fst]. pose proof (to_store_password current config) as Hpw. cbv zeta in Hpw.
      rewrite Hnone in Hpw. cbn [from_option id] in Hpw. unfold str_eqb in Hpw.
      rewrite bool_decide_eq_true_2, andb_false_r in Hpw by reflexivity.
      cbn [negb andb] in Hpw.
      split; [exact Hpw|]. split; [exact Hss|].
      intros Hempty. exfalso. destruct Hvalid as (_ & _ & Hlen).
      rewrite Hpw, Hempty in Hlen. cbn in Hlen. lia.
    - pose proof (saveConfig_throw_keeps_world webhookUrlSchema current config w e) as H.
      rewrite Es in H. cbn [fst snd] in H. rewrite (H eq_refl).
      rewrite (getConfig_no_legacy _ _ _ Hl). cbn [fst]. fold current. auto. }
  unfold Main.applyRuntimeConfigOverride.
  destruct json as [json|]; [|cbn; auto].
  assert (Hbind : forall config,
            snd ((ConfigStore.saveConfig webhookUrlSchema migrate config ;;; ret tt) w)
            = snd (ConfigStore.saveConfig webhookUrlSchema migrate config w)).
  { intros config. unfold bind, ret.
    now destruct (ConfigStore.saveConfig webhookUrlSchema migrate config w). }
  destruct json; try (cbn; auto; fail);
    (destruct (Main.as_string _) as [s|]; destruct (Main.as_string _) as [r|];
     try (cbn; auto; fail); rewrite Hbind; now apply Hsave).
Qed.

Lemma runtime_override_keeps_password_witness :
  let w' := snd (Main.applyRuntimeConfigOverride accepts_default_urls no_migration
                   (Some (JSON.JObject
                            [(js "readWebhookUrl",
                              JSON.JString (Config.submitWebhookUrl Config.DEFAULT_CONFIG));
                             (js "adminPassword", JSON.JString (js "letmein"))]))
                   saved_tab) in
  Config.adminPassword (fst (ConfigStore.getConfig accepts_default_urls no_migration w'))
  = Config.adminPassword (fst (ConfigStore.getConfig accepts_default_urls no_migration saved_tab))
  /\ sessionStorage w' = sessionStorage saved_tab
  /\ (Config.adminPassword
        (fst (ConfigStore.getConfig accepts_default_urls no_migration saved_tab)) = [] ->
      w' = saved_tab).
Proof.
  apply (runtime_override_keeps_password accepts_default_urls no_migration).
  vm_compute. reflexivity.
Defined.
